(** * shadcn-ui-mcp-server: the content-acquisition pipeline of helpers.ts and
    the tool handlers of handlers.ts, embedded as Rocq functions.

    Strings are sequences of code units; the embedding keeps the code units
    below 256 ([ascii]).  Numbers are taken in [Z] and stand for the
    JavaScript numbers that are safe integers.  Thrown [Error] objects
    are represented by their message.  The tools are followed one call
    at a time, each to its return; within a call, what [Promise.all]
    runs side by side is interleaved as the event loop does it. *)

From Stdlib Require Import ZArith Ascii String List Bool Lia DecimalString.
From Stdlib Require Import Sorting.Sorted Sorting.Permutation.
From stdpp Require Import base gmap strings.

Local Open Scope Z_scope.
Local Open Scope nat_scope.

(** ** Characters that cannot be written inside a literal *)

Definition LF : ascii := "010"%char.
Definition DQUOTE : ascii := "034"%char.
Definition SQUOTE : ascii := "039"%char.
Definition nl : string := String LF "".
Definition dq : string := String DQUOTE "".

(** ** The JavaScript string primitives the sources call *)

Module JS.

(** [!s] is false exactly on the non-empty strings. *)
Definition truthy (s : string) : bool :=
  match s with
  | EmptyString => false
  | String _ _ => true
  end.

(** White space of [\s] and of [trim] among the code units below 256. *)
Definition is_space (c : ascii) : bool :=
  let n := nat_of_ascii c in
  ((9 <=? n) && (n <=? 13)) || (n =? 32) || (n =? 160).

Fixpoint trimStart (s : string) : string :=
  match s with
  | EmptyString => EmptyString
  | String c s' => if is_space c then trimStart s' else s
  end.

Fixpoint trimEnd (s : string) : string :=
  match s with
  | EmptyString => EmptyString
  | String c s' =>
      match trimEnd s' with
      | EmptyString => if is_space c then EmptyString else String c EmptyString
      | t => String c t
      end
  end.

Definition trim (s : string) : string := trimEnd (trimStart s).

(** [strip p s] is the rest of [s] after the prefix [p], when [s] starts
    with [p]. *)
Fixpoint strip (p s : string) : option string :=
  match p with
  | EmptyString => Some s
  | String a p' =>
      match s with
      | EmptyString => None
      | String b s' => if Ascii.eqb a b then strip p' s' else None
      end
  end.

Definition startsWith (s p : string) : bool :=
  match strip p s with Some _ => true | None => false end.

(** [s.replace(pat, rep)] with a string pattern: only the left-most
    occurrence is replaced.  ([rep] is taken literally; none of the
    replacement strings of the sources contains a dollar sign.) *)
Fixpoint replace (s pat rep : string) : string :=
  match strip pat s with
  | Some rest => rep +:+ rest
  | None =>
      match s with
      | EmptyString => EmptyString
      | String c s' => String c (replace s' pat rep)
      end
  end.

(** [s.split(sep)] for a one-unit separator. *)
Fixpoint split (s : string) (sep : ascii) : list string :=
  match s with
  | EmptyString => [EmptyString]
  | String c s' =>
      if Ascii.eqb c sep then EmptyString :: split s' sep
      else match split s' sep with
           | [] => [String c EmptyString]
           | w :: ws => String c w :: ws
           end
  end.

(** [a.pop()] read as a value: the last element, [undefined] on []. *)
Fixpoint pop (l : list string) : option string :=
  match l with
  | [] => None
  | [x] => Some x
  | _ :: l' => pop l'
  end.

(** [s.indexOf(pat)], with [None] for -1. *)
Fixpoint indexOf (s pat : string) : option nat :=
  if startsWith s pat then Some 0
  else match s with
       | EmptyString => None
       | String _ s' => option_map S (indexOf s' pat)
       end.

(** Number of (possibly overlapping) places at which [pat] occurs. *)
Fixpoint occurrences (pat s : string) : nat :=
  (if startsWith s pat then 1 else 0) +
  match s with
  | EmptyString => 0
  | String _ s' => occurrences pat s'
  end.

(** Printing a number that is an integer. *)
Definition Number_toString (z : Z) : string :=
  NilZero.string_of_int (Z.to_int z).

End JS.

(** ** Regular expressions

    The fragment of ECMAScript patterns used by helpers.ts: every quantifier
    of the sources ranges over a single character class, so a repetition is
    a class with a minimum count and a greedy or lazy flag.  Matching is by
    backtracking in priority order, as [RegExp.prototype.exec] does. *)

Inductive regex : Type :=
| Empty
| Char (p : ascii -> bool)
| Seq (a b : regex)
| Alt (a b : regex)
| Repeat (greedy : bool) (min : nat) (p : ascii -> bool)
| Group (i : nat) (a : regex)
| Lookahead (a : regex)
| EndOfInput.

Record RegExp : Type := { anchored : bool; source : regex }.

(** Captures of a match, last closed group first; group 0 is the match. *)
Definition captures : Type := list (nat * string).

Module Re.

Fixpoint lit (s : string) : regex :=
  match s with
  | EmptyString => Empty
  | String c s' => Seq (Char (Ascii.eqb c)) (lit s')
  end.

Definition cat (l : list regex) : regex := fold_right Seq Empty l.

Definition one_of (l : list ascii) (c : ascii) : bool :=
  existsb (Ascii.eqb c) l.
Definition none_of (l : list ascii) (c : ascii) : bool := negb (one_of l c).
Definition any (c : ascii) : bool := true.
Definition between (lo hi : ascii) (c : ascii) : bool :=
  (nat_of_ascii lo <=? nat_of_ascii c) && (nat_of_ascii c <=? nat_of_ascii hi).
(** [\w] *)
Definition word (c : ascii) : bool :=
  between "a" "z" c || between "A" "Z" c || between "0" "9" c
  || Ascii.eqb c "_".

Definition star (p : ascii -> bool) : regex := Repeat true 0 p.
Definition plus (p : ascii -> bool) : regex := Repeat true 1 p.
Definition lazy_star (p : ascii -> bool) : regex := Repeat false 0 p.

Definition text (acc : list ascii) : string :=
  string_of_list_ascii (rev acc).

(** A class repeated at least [min] times, [n] times so far: a greedy
    repetition first tries one more unit, a lazy one first tries to
    stop. *)
Fixpoint repeat_loop {R : Type} (greedy : bool) (min : nat)
    (p : ascii -> bool) (k : string -> list ascii -> option R)
    (n : nat) (s : string) (acc : list ascii) {struct s} : option R :=
  let stop := fun _ : unit => if min <=? n then k s acc else None in
  let more := fun _ : unit =>
    match s with
    | String c s' =>
        if p c then repeat_loop greedy min p k (S n) s' (c :: acc) else None
    | EmptyString => None
    end in
  if greedy
  then match more tt with Some x => Some x | None => stop tt end
  else match stop tt with Some x => Some x | None => more tt end.

(** [exec r s cs acc k]: match [r] at the front of [s]; [acc] is the text
    consumed so far inside the innermost open group (reversed); [k] is
    what remains to be matched. *)
Fixpoint exec {R : Type} (r : regex) (s : string) (cs : captures)
    (acc : list ascii)
    (k : string -> captures -> list ascii -> option R) : option R :=
  match r with
  | Empty => k s cs acc
  | Char p =>
      match s with
      | String c s' => if p c then k s' cs (c :: acc) else None
      | EmptyString => None
      end
  | Seq a b => exec a s cs acc (fun s' cs' acc' => exec b s' cs' acc' k)
  | Alt a b =>
      match exec a s cs acc k with
      | Some x => Some x
      | None => exec b s cs acc k
      end
  | Repeat greedy min p =>
      repeat_loop greedy min p (fun s' acc' => k s' cs acc') 0 s acc
  | Group i a =>
      exec a s cs []
        (fun s' cs' acc' => k s' ((i, text acc') :: cs') (acc' ++ acc))
  | Lookahead a =>
      match exec a s cs [] (fun _ cs' _ => Some cs') with
      | Some cs' => k s cs' acc
      | None => None
      end
  | EndOfInput =>
      match s with
      | EmptyString => k s cs acc
      | String _ _ => None
      end
  end.

(** One attempt at the front of [s]: the captures and the unmatched rest. *)
Definition at_front (r : regex) (s : string) : option (captures * string) :=
  exec (Group 0 r) s [] [] (fun rest cs _ => Some (cs, rest)).

(** The left-most match. *)
Fixpoint search (r : regex) (s : string) : option captures :=
  match at_front r s with
  | Some (cs, _) => Some cs
  | None =>
      match s with
      | EmptyString => None
      | String _ s' => search r s'
      end
  end.

(** [s.match(re)] for a pattern without the [g] flag. *)
Definition String_match (s : string) (re : RegExp) : option captures :=
  if anchored re
  then match at_front (source re) s with
       | Some (cs, _) => Some cs
       | None => None
       end
  else search (source re) s.

(** [m[i]] of a match. *)
Fixpoint group (m : captures) (i : nat) : option string :=
  match m with
  | [] => None
  | (j, t) :: m' => if j =? i then Some t else group m' i
  end.

(** [m[i]] where the pattern closes group [i] on every match. *)
Definition group_text (m : captures) (i : nat) : string :=
  match group m i with Some t => t | None => EmptyString end.

(** [s.replace(re, rep)] for a pattern with the [g] flag whose matches
    are never empty: [skip] counts the units of the current match that
    are still to be dropped. *)
Fixpoint replace_all_from (r : regex) (rep : string) (s : string)
    (skip : nat) : string :=
  match s with
  | EmptyString => EmptyString
  | String c s' =>
      match skip with
      | S n => replace_all_from r rep s' n
      | O =>
          match at_front r s with
          | Some (cs, _) =>
              rep +:+
              replace_all_from r rep s'
                (Nat.pred (String.length (group_text cs 0)))
          | None => String c (replace_all_from r rep s' 0)
          end
      end
  end.

Definition replace_all (s : string) (r : regex) (rep : string) : string :=
  replace_all_from r rep s 0.

End Re.

(** ** helpers.ts: constants *)

Definition RETRY_ATTEMPTS : Z := 3.
Definition RETRY_DELAY_MS : Z := 500.
Definition BASE_URL : string := "https://ui.shadcn.com".
Definition RAW_GITHUB_URL : string :=
  "https://raw.githubusercontent.com/shadcn-ui/ui/refs/heads/main/apps".

Definition BLOCK_PAGES : list string :=
  [ BASE_URL +:+ "/blocks/sidebar"; BASE_URL +:+ "/blocks/authentication" ].

Inductive PackageManager : Type := pnpm | npm | yarn | bun.

Record CommandSet : Type := {
  cs_npm : string;
  cs_pnpm : string;
  cs_yarn : string;
  cs_bun : string
}.

Record ComponentDocResource : Type := {
  name : string;
  description : option string;
  doc : option string;
  commands : option (list CommandSet);
  links : option (list string);
  isBlock : option bool
}.

(** The record has no key [npm]. *)
Definition RUNTIME_REPLACEMENTS (rt : PackageManager) : option string :=
  match rt with
  | pnpm => Some "pnpm dlx"
  | yarn => Some "yarn dlx"
  | bun => Some "bunx"
  | npm => None
  end.

Definition FRONTMATTER_REGEX : RegExp :=
  {| anchored := true;
     source := Re.cat [ Re.lit ("---" +:+ nl); Group 1 (Re.lazy_star Re.any);
                      Re.lit (nl +:+ "---") ] |}.

Definition DESCRIPTION_PATTERNS : list RegExp :=
  [ {| anchored := false;
       source := Re.cat [ Re.lit "description:"; Re.star JS.is_space;
                        Char (Re.one_of [DQUOTE; SQUOTE]);
                        Group 1 (Re.plus (Re.none_of [DQUOTE; SQUOTE]));
                        Char (Re.one_of [DQUOTE; SQUOTE]) ] |};
    {| anchored := false;
       source := Re.cat [ Re.lit "description:"; Re.star JS.is_space;
                        Group 1 (Re.plus (Re.none_of [LF])) ] |};
    {| anchored := false;
       source := Re.cat [ Re.lit "description"; Re.star JS.is_space;
                        Re.lit ":"; Re.star JS.is_space;
                        Char (Re.one_of [DQUOTE; SQUOTE]);
                        Group 1 (Re.plus (Re.none_of [DQUOTE; SQUOTE]));
                        Char (Re.one_of [DQUOTE; SQUOTE]) ] |} ].

Definition FIRST_PARAGRAPH_REGEX : RegExp :=
  {| anchored := false;
     source := Re.cat [ Re.lit ("---" +:+ nl); Re.lazy_star Re.any;
                      Re.lit (nl +:+ "---" +:+ nl +:+ nl);
                      Group 1 (Re.plus (Re.none_of [LF])) ] |}.

Definition LINKS_REGEX : RegExp :=
  {| anchored := false;
     source := Re.cat [ Re.lit ("links:" +:+ nl); Group 1 (Re.lazy_star Re.any);
                      Lookahead (Alt (Seq (Re.lit nl) (Char Re.word))
                                     EndOfInput) ] |}.

Definition CLI_COMMAND_REGEX : RegExp :=
  {| anchored := false;
     source := Re.cat [ Re.lit ("```bash" +:+ nl +:+ "npx shadcn@latest add ");
                      Re.plus (Re.none_of [LF]); Re.lit (nl +:+ "```") ] |}.

(** ** helpers.ts: pure functions *)

Definition validateRuntime (runtime : option string) : bool :=
  match runtime with
  | None => true
  | Some rt =>
      negb (JS.truthy rt)
      || existsb (String.eqb rt) ["npm"; "pnpm"; "yarn"; "bun"]
  end.

Fixpoint first_description (patterns : list RegExp) (frontmatter : string)
    : option string :=
  match patterns with
  | [] => None
  | pattern :: rest =>
      match Re.String_match frontmatter pattern with
      | Some m => Some (JS.trim (Re.group_text m 1))
      | None => first_description rest frontmatter
      end
  end.

Definition extractDescription (frontmatter mdxContent : string) : string :=
  match first_description DESCRIPTION_PATTERNS frontmatter with
  | Some d => d
  | None =>
      match Re.String_match mdxContent FIRST_PARAGRAPH_REGEX with
      | Some m => JS.trim (Re.group_text m 1)
      | None => EmptyString
      end
  end.

Definition extractLinks (frontmatter : string) : list string :=
  match Re.String_match frontmatter LINKS_REGEX with
  | Some linksMatch =>
      let linksContent := Re.group_text linksMatch 1 in
      let sub (key : string) : list string :=
        match Re.search (Re.cat [ Re.lit key; Re.star JS.is_space;
                                  Group 1 (Re.plus (Re.none_of [LF])) ])
                linksContent with
        | Some m => [JS.trim (Re.group_text m 1)]
        | None => []
        end in
      sub "doc:" ++ sub "api:"
  | None => []
  end.

Definition getCliCommand (cliCommand : string) (runtime : option PackageManager)
    : string :=
  match runtime with
  | None | Some npm => cliCommand
  | Some rt =>
      JS.replace cliCommand "npx"
        (match RUNTIME_REPLACEMENTS rt with
         | Some r => r
         | None => "undefined"
         end)
  end.

(** ** The document tree built by cheerio's [load]

    The parser itself belongs to the cheerio package; the scrapers below
    work on its result.  Selectors are kept as data: a chain of compound
    selectors joined by the descendant and the child combinator. *)

#[warnings="-register-all"] Inductive node : Type :=
| Element (tag : string) (attrs : list (string * string)) (children : list node)
| Text (data : string).

Definition document : Type := list node.

Inductive attr_test : Type :=
| AnyAttr
| HasAttr (key : string)
| AttrPrefix (key value : string).

Record compound : Type := {
  sel_tag : option string;
  sel_classes : list string;
  sel_attr : attr_test
}.

Inductive selector : Type :=
| Simple (c : compound)
| Descendant (ancestor : selector) (c : compound)
| Child (parent : selector) (c : compound).

Module Dom.

Definition open_tag : Type := (string * list (string * string))%type.

Fixpoint attr (attrs : list (string * string)) (key : string)
    : option string :=
  match attrs with
  | [] => None
  | (k, v) :: rest => if String.eqb k key then Some v else attr rest key
  end.

(** The white-space separated tokens of a [class] attribute. *)
Fixpoint tokens (cur : string) (s : string) : list string :=
  match s with
  | EmptyString => if JS.truthy cur then [cur] else []
  | String c s' =>
      if JS.is_space c
      then (if JS.truthy cur then [cur] else []) ++ tokens EmptyString s'
      else tokens (cur +:+ String c EmptyString) s'
  end.

Definition classes (attrs : list (string * string)) : list string :=
  match attr attrs "class" with
  | Some v => tokens EmptyString v
  | None => []
  end.

Definition test_attr (t : attr_test) (attrs : list (string * string))
    : bool :=
  match t with
  | AnyAttr => true
  | HasAttr key =>
      match attr attrs key with Some _ => true | None => false end
  | AttrPrefix key value =>
      match attr attrs key with
      | Some v => JS.startsWith v value
      | None => false
      end
  end.

Definition matches_compound (c : compound) (e : open_tag) : bool :=
  match sel_tag c with
  | Some t => String.eqb t (fst e)
  | None => true
  end
  && forallb (fun cl => existsb (String.eqb cl) (classes (snd e)))
       (sel_classes c)
  && test_attr (sel_attr c) (snd e).

(** [ancestors] lists the enclosing elements, the parent first. *)
Fixpoint matches (sel : selector) (e : open_tag) (ancestors : list open_tag)
    : bool :=
  match sel with
  | Simple c => matches_compound c e
  | Child parent c =>
      matches_compound c e
      && match ancestors with
         | a :: up => matches parent a up
         | [] => false
         end
  | Descendant ancestor c =>
      matches_compound c e
      && (fix above (l : list open_tag) : bool :=
            match l with
            | [] => false
            | a :: up => matches ancestor a up || above up
            end) ancestors
  end.

(** The elements below and including [n] that match, in document order. *)
Fixpoint select_in (sel : selector) (ancestors : list open_tag) (n : node)
    : list node :=
  match n with
  | Text _ => []
  | Element tag attrs children =>
      (if matches sel (tag, attrs) ancestors then [n] else [])
      ++ List.flat_map (select_in sel ((tag, attrs) :: ancestors)) children
  end.

(** [$(sel)] on a loaded document. *)
Definition select (d : document) (sel : selector) : list node :=
  List.flat_map (select_in sel []) d.

(** [$(el).find(sel)]: the elements below [el] that match.  cheerio
    anchors the selector at [el] with a descendant step that includes
    [el]: the left-most compound of [sel] may be [el] itself, and no
    element above [el] is looked at. *)
Definition find (el : node) (sel : selector) : list node :=
  match el with
  | Text _ => []
  | Element tag attrs children =>
      List.flat_map (select_in sel [(tag, attrs)]) children
  end.

Definition node_attr (el : node) (key : string) : option string :=
  match el with
  | Text _ => None
  | Element _ attrs _ => attr attrs key
  end.

Fixpoint node_text (n : node) : string :=
  match n with
  | Text data => data
  | Element _ _ children =>
      fold_right (fun c acc => node_text c +:+ acc) EmptyString children
  end.

(** [.text()] of a selection: the texts of its elements, joined. *)
Definition text (l : list node) : string :=
  fold_right (fun c acc => node_text c +:+ acc) EmptyString l.

(** [.first()] *)
Definition first (l : list node) : list node :=
  match l with
  | [] => []
  | x :: _ => [x]
  end.

(** [.attr(key)] of a selection reads its first element. *)
Definition attr_of (l : list node) (key : string) : option string :=
  match l with
  | [] => None
  | x :: _ => node_attr x key
  end.

Definition tag_only (t : string) : compound :=
  {| sel_tag := Some t; sel_classes := []; sel_attr := AnyAttr |}.
Definition tag_classes (t : string) (cl : list string) : compound :=
  {| sel_tag := Some t; sel_classes := cl; sel_attr := AnyAttr |}.

End Dom.

(** The selector paths of helpers.ts. *)

Definition BLOCK_ELEMENTS : selector :=
  Descendant
    (Simple {| sel_tag := None; sel_classes := ["container-wrapper"; "flex-1"];
               sel_attr := AnyAttr |})
    {| sel_tag := Some "div"; sel_classes := []; sel_attr := HasAttr "id" |}.

Definition BLOCK_HEADER : compound :=
  Dom.tag_classes "div"
    ["flex"; "w-full"; "items-center"; "gap-2"; "md:pr-[14px]"].

Definition BLOCK_ANCHOR : selector :=
  Child (Simple BLOCK_HEADER) (Dom.tag_only "a").

Definition BLOCK_COMMAND : selector :=
  Child
    (Child
       (Child
          (Child (Simple BLOCK_HEADER)
             (Dom.tag_classes "div"
                ["ml-auto"; "hidden"; "items-center"; "gap-2"; "md:flex"]))
          (Dom.tag_classes "div"
             ["flex"; "h-7"; "items-center"; "gap-1"; "rounded-md"; "border";
              "p-[2px]"]))
       (Dom.tag_only "button"))
    (Dom.tag_only "span").

Definition BLOCK_CODE : selector := Simple (Dom.tag_only "code").

Definition COMPONENT_ANCHORS : selector :=
  Simple {| sel_tag := Some "a"; sel_classes := [];
            sel_attr := AttrPrefix "href" "/docs/components/" |}.

(** ** Effects: the network, the clock, the console and the cache *)

Record Response : Type := {
  ok : bool;
  status : Z;
  statusText : string;
  body : string
}.

(** What one call of [fetch] does: it rejects, or resolves to a response. *)
Inductive FetchOutcome : Type :=
| Rejected (message : string)
| Resolved (response : Response).

Inductive Event : Type :=
| EvFetch (url : string)
| EvDelay (ms : Z)
| EvLog (message : string).

(** [network w i url] is what the [i]-th call of [fetch] of the process
    lifetime does when it asks for [url].  [schedule w] is the timing of
    the event loop: whenever several calls in flight wait side by side,
    its next number says which of them goes on first. *)
Record World : Type := {
  resourceCache : gmap string ComponentDocResource;
  network : nat -> string -> FetchOutcome;
  fetches : nat;
  events : list Event;
  schedule : list nat
}.

Inductive Result (A : Type) : Type :=
| Ok (value : A)
| Throw (message : string).
Arguments Ok {A} value.
Arguments Throw {A} message.

Definition M (A : Type) : Type := World -> Result A * World.

Definition ret {A : Type} (a : A) : M A := fun w => (Ok a, w).
Definition throw {A : Type} (message : string) : M A :=
  fun w => (Throw message, w).
Definition bind {A B : Type} (m : M A) (f : A -> M B) : M B :=
  fun w =>
    match m w with
    | (Ok a, w') => f a w'
    | (Throw e, w') => (Throw e, w')
    end.
Definition try_catch {A : Type} (m : M A) (handler : string -> M A) : M A :=
  fun w =>
    match m w with
    | (Ok a, w') => (Ok a, w')
    | (Throw e, w') => handler e w'
    end.
Definition lift {A : Type} (r : Result A) : M A := fun w => (r, w).

Notation "x <- m ;; k" := (bind m (fun x => k))
  (at level 100, m at next level, right associativity).
Notation "m ;;; k" := (bind m (fun _ => k))
  (at level 100, right associativity).

Definition emit (e : Event) (w : World) : World :=
  {| resourceCache := resourceCache w; network := network w;
     fetches := fetches w; events := events w ++ [e];
     schedule := schedule w |}.

Definition fetch (url : string) : M Response :=
  fun w =>
    let w' := {| resourceCache := resourceCache w; network := network w;
                 fetches := S (fetches w);
                 events := events w ++ [EvFetch url];
                 schedule := schedule w |} in
    match network w (fetches w) url with
    | Rejected message => (Throw message, w')
    | Resolved response => (Ok response, w')
    end.

(** [await new Promise(resolve => setTimeout(resolve, ms))] *)
Definition sleep (ms : Z) : M unit := fun w => (Ok tt, emit (EvDelay ms) w).

Definition console_error (message : string) : M unit :=
  fun w => (Ok tt, emit (EvLog message) w).

Definition cache_get (key : string) : M (option ComponentDocResource) :=
  fun w => (Ok (resourceCache w !! key), w).

Definition cache_set (key : string) (data : ComponentDocResource) : M unit :=
  fun w =>
    (Ok tt,
     {| resourceCache := <[key := data]> (resourceCache w);
        network := network w; fetches := fetches w; events := events w;
        schedule := schedule w |}).

Fixpoint forEach {A : Type} (l : list A) (f : A -> M unit) : M unit :=
  match l with
  | [] => ret tt
  | x :: rest => f x ;;; forEach rest f
  end.

(** ** helpers.ts: responses *)

Record ToolResponse : Type := {
  text : string;
  isError : bool;
  mimeType : option string
}.

Definition createResponse (text : string) (isError : bool)
    (mimeType : option string) : ToolResponse :=
  {| text := text; isError := isError;
     mimeType := match mimeType with
                 | Some m => if JS.truthy m then Some m else None
                 | None => None
                 end |}.

Definition handleError (error prefix : string) : ToolResponse :=
  createResponse (prefix +:+ ": " +:+ error) true None.

(** ** helpers.ts: the fetcher *)

(** [Number.MAX_SAFE_INTEGER]: up to it the whole numbers are JavaScript
    numbers and their sums, differences and products are exact. *)
Definition MAX_SAFE_INTEGER : Z := 2 ^ 53 - 1.

Definition safe (z : Z) : Prop := (Z.abs z <= MAX_SAFE_INTEGER)%Z.

(** The recursion of [fetchWithRetry] needs a measure: [fuel] bounds the
    number of recursive calls.  [fetchWithRetry_total] below shows
    that the bound chosen by [fetchWithRetry] is never reached.

    [retries] and [delay] are JavaScript numbers.  The embedding takes
    them in [Z]: it covers the whole numbers, and it is the code as long
    as every number the call computes is a safe integer, where
    [retries - 1] and [delay * 2] are exact.  The program itself only
    ever calls with the two defaults.  A statement about other arguments
    carries the range as a hypothesis, unless the call computes nothing
    with them. *)
Fixpoint fetchWithRetry_fuel (fuel : nat) (url : string) (retries delay : Z)
    : M Response :=
  try_catch
    (response <- fetch url ;;
     if negb (ok response)
     then throw ("HTTP error " +:+ JS.Number_toString (status response)
                 +:+ ": " +:+ statusText response)
     else ret response)
    (fun error =>
       if (retries <=? 1)%Z then throw error
       else
         match fuel with
         | O => throw "out of fuel"
         | S fuel' =>
             sleep delay ;;;
             fetchWithRetry_fuel fuel' url (retries - 1) (delay * 2)
         end).

Definition fetchWithRetry (url : string) (retries delay : Z) : M Response :=
  fetchWithRetry_fuel (Z.to_nat retries) url retries delay.

(** [fetchWithRetry(url)] with both defaults. *)
Definition fetchWithRetry_default (url : string) : M Response :=
  fetchWithRetry url RETRY_ATTEMPTS RETRY_DELAY_MS.

(** [await response.text()] *)
Definition response_text (r : Response) : M string := ret (body r).

(** ** helpers.ts: the cache *)

(** [cacheResource] works on the map it is given; the map after the call
    is returned next to the outcome. *)
Definition cacheResource {T : Type} (key : string) (fetchFn : M T)
    (cache : gmap string T) : World -> (Result T * gmap string T) * World :=
  fun w =>
    match cache !! key with
    | Some data => ((Ok data, cache), w)
    | None =>
        match fetchFn w with
        | (Ok data, w') => ((Ok data, <[key := data]> cache), w')
        | (Throw error, w') =>
            ((Throw ("Failed to fetch data for key '" +:+ key +:+ "': "
                     +:+ error), cache), w')
        end
    end.

Definition fetchAndCache {A : Type} (key : string) (fetchFn : M A)
    (transformFn : A -> Result (list ComponentDocResource))
    : M (list ComponentDocResource) :=
  try_catch
    (rawData <- fetchFn ;;
     transformedData <- lift (transformFn rawData) ;;
     forEach transformedData (fun data => cache_set (name data) data) ;;;
     ret transformedData)
    (fun error =>
       throw ("Failed to fetch and transform data for key '" +:+ key
              +:+ "': " +:+ error)).

(** The class [a-zA-Z0-9-_] of the sanitizer. *)
Definition allowed_in_name (c : ascii) : bool :=
  Re.between "a" "z" c || Re.between "A" "Z" c || Re.between "0" "9" c
  || Ascii.eqb c "-" || Ascii.eqb c "_".

Definition commandSet (cliCommand : string) : CommandSet :=
  {| cs_npm := cliCommand;
     cs_pnpm := getCliCommand cliCommand (Some pnpm);
     cs_yarn := getCliCommand cliCommand (Some yarn);
     cs_bun := getCliCommand cliCommand (Some bun) |}.

Definition transformComponentData (component mdxContent : string)
    : list ComponentDocResource :=
  let frontmatter :=
    match Re.String_match mdxContent FRONTMATTER_REGEX with
    | Some frontmatterMatch => Re.group_text frontmatterMatch 1
    | None => EmptyString
    end in
  let description := extractDescription frontmatter mdxContent in
  let links := extractLinks frontmatter in
  let cliCommand :=
    match Re.String_match mdxContent CLI_COMMAND_REGEX with
    | Some cliCommandMatch =>
        Some (JS.trim
                (Re.replace_all (Re.group_text cliCommandMatch 0)
                   (Alt (Re.lit ("```bash" +:+ nl)) (Re.lit (nl +:+ "```")))
                   EmptyString))
    | None => None
    end in
  let commands :=
    match cliCommand with
    | Some c => if JS.truthy c then Some [commandSet c] else None
    | None => None
    end in
  [ {| name := component;
       description := Some description;
       doc := Some mdxContent;
       commands := commands;
       links := match links with [] => None | _ :: _ => Some links end;
       isBlock := Some false |} ].

Definition component_url (component : string) : string :=
  RAW_GITHUB_URL +:+ "/" +:+ "www/content/docs/components" +:+ "/"
  +:+ component +:+ ".mdx".

(** [const [componentData] = ...]: the transform always yields one
    resource, the empty case stands for reading [undefined]. *)
Definition first_resource (l : list ComponentDocResource)
    : M ComponentDocResource :=
  match l with
  | data :: _ => ret data
  | [] => throw "TypeError: componentData is undefined"
  end.

Definition fetchAndCacheComponentData (component : string)
    : M ComponentDocResource :=
  if negb (JS.truthy component) then throw "Invalid component name"
  else
    let sanitizedComponent :=
      Re.replace_all component (Char (fun c => negb (allowed_in_name c)))
        EmptyString in
    if negb (String.eqb sanitizedComponent component)
    then throw ("Invalid component name: " +:+ component)
    else
      cached <- cache_get component ;;
      match cached with
      | Some data => ret data
      | None =>
          l <- fetchAndCache component
                 (response <- fetchWithRetry_default (component_url component) ;;
                  response_text response)
                 (fun mdxContent =>
                    Ok (transformComponentData component mdxContent)) ;;
          first_resource l
      end.

Record Block : Type := {
  block_name : string;
  block_command : string;
  block_doc : string;
  block_description : option string
}.

Definition transformBlocks (blockPages : list (list Block))
    : list ComponentDocResource :=
  let allBlocks := concat blockPages in
  map (fun block =>
         {| name := block_name block;
            description := block_description block;
            doc := Some (block_doc block);
            commands := Some [commandSet (block_command block)];
            links := None;
            isBlock := Some true |})
      allBlocks.

(** ** handlers.ts: install-component *)

(** A tool handler catches everything: it ends in a response. *)
Definition handler (m : M ToolResponse) (prefix : string)
    : World -> ToolResponse * World :=
  fun w =>
    match m w with
    | (Ok response, w') => (response, w')
    | (Throw error, w') => (handleError error prefix, w')
    end.

(** [runtime && ...]: a runtime that is present and not empty. *)
Definition given (runtime : option string) : option string :=
  match runtime with
  | Some rt => if JS.truthy rt then Some rt else None
  | None => None
  end.

Definition present (runtime : option string) : bool :=
  match given runtime with
  | Some _ => true
  | None => false
  end.

(** [commands[selectedRuntime]] *)
Definition CommandSet_get (commands : CommandSet) (key : string)
    : option string :=
  if String.eqb key "npm" then Some (cs_npm commands)
  else if String.eqb key "pnpm" then Some (cs_pnpm commands)
  else if String.eqb key "yarn" then Some (cs_yarn commands)
  else if String.eqb key "bun" then Some (cs_bun commands)
  else None.

(** [data.commands?.[0]] *)
Definition first_commands (data : ComponentDocResource) : option CommandSet :=
  match commands data with
  | Some (c :: _) => Some c
  | _ => None
  end.

(** The template text of a possibly absent string. *)
Definition show (runtime : option string) : string :=
  match runtime with
  | Some rt => rt
  | None => "undefined"
  end.

(** The part shared by [installComponent] and [installBlock] once the
    resource is known. *)
Definition select_command (kind subject : string) (runtime : option string)
    (data : ComponentDocResource) : ToolResponse :=
  match first_commands data with
  | None =>
      createResponse ("No installation command found for " +:+ kind +:+ " '"
                      +:+ subject +:+ "'") true None
  | Some commands =>
      let command :=
        match given runtime with
        | Some selectedRuntime => CommandSet_get commands selectedRuntime
        | None => Some (cs_npm commands)
        end in
      match command with
      | Some c =>
          if JS.truthy c then createResponse c false None
          else createResponse ("No installation command found for runtime '"
                               +:+ show runtime +:+ "'") true None
      | None =>
          createResponse ("No installation command found for runtime '"
                          +:+ show runtime +:+ "'") true None
      end
  end.

Definition invalid_runtime (runtime : option string) : ToolResponse :=
  createResponse ("Invalid runtime: " +:+ show runtime
                  +:+ ". Must be one of: npm, pnpm, yarn, bun") true None.

Definition installComponent (component : string) (runtime : option string)
    : World -> ToolResponse * World :=
  handler
    (if negb (JS.truthy component)
     then ret (createResponse "Component name is required" true None)
     else if present runtime && negb (validateRuntime runtime)
     then ret (invalid_runtime runtime)
     else
       componentData <- fetchAndCacheComponentData component ;;
       ret (select_command "component" component runtime componentData))
    "Error generating installation command".

(** ** Async functions in flight

    Awaited one at a time, an async function is a computation [M]: it
    runs to its end before its caller goes on, and this is how the
    handlers above call [fetchWithRetry].  Under [Promise.all] several
    calls are in flight together: each runs until its next [await], and
    the event loop decides which of them goes on next.  A [Task] is a
    call in flight: settled, or waiting at an [await]. *)

#[warnings="-register-all"] Inductive Task (A : Type) : Type :=
| Settled (r : Result A)
| Awaiting (resume : World -> Task A * World).
Arguments Settled {A} r.
Arguments Awaiting {A} resume.

Fixpoint Task_induction {A : Type} (P : Task A -> Prop)
    (now : forall r, P (Settled r))
    (later : forall resume,
        (forall v, P (fst (resume v))) -> P (Awaiting resume))
    (t : Task A) : P t :=
  match t with
  | Settled r => now r
  | Awaiting resume =>
      later resume (fun v => Task_induction P now later (fst (resume v)))
  end.

(** The call of an async function: it runs up to its first [await]. *)
Definition Async (A : Type) : Type := World -> Task A * World.

(** A step without [await]. *)
Definition sync {A : Type} (m : M A) : Async A :=
  fun w => let (r, w') := m w in (Settled r, w').

(** [await t] and then [k]: the caller goes on when [t] has settled. *)
Fixpoint await {A B : Type} (t : Task A) (k : Result A -> Async B)
    : Async B :=
  fun w =>
    match t with
    | Settled r => k r w
    | Awaiting resume =>
        (Awaiting (fun v => let (t', v') := resume v in await t' k v'), w)
    end.

Definition async_bind {A B : Type} (m : Async A) (f : A -> Async B)
    : Async B :=
  fun w =>
    let (t, w') := m w in
    await t (fun r => match r with
                      | Ok a => f a
                      | Throw e => sync (throw e)
                      end) w'.

Definition async_catch {A : Type} (m : Async A) (handler : string -> Async A)
    : Async A :=
  fun w =>
    let (t, w') := m w in
    await t (fun r => match r with
                      | Ok a => sync (ret a)
                      | Throw e => handler e
                      end) w'.

Notation "x <~ m ;; k" := (async_bind m (fun x => k))
  (at level 100, m at next level, right associativity).
Notation "m ~;; k" := (async_bind m (fun _ => k))
  (at level 100, right associativity).

(** The call in flight, awaited with nothing beside it. *)
Fixpoint finish {A : Type} (t : Task A) (w : World) : Result A * World :=
  match t with
  | Settled r => (r, w)
  | Awaiting resume => let (t', w') := resume w in finish t' w'
  end.

Definition alone {A : Type} (m : Async A) : M A :=
  fun w => let (t, w') := m w in finish t w'.

(** [fetch(url)] sends the request when it is called; what the network
    does with this call is known to the caller when it goes on. *)
Definition fetch_async (url : string) : Async Response :=
  fun w =>
    let outcome := network w (fetches w) url in
    (Awaiting (fun v => (Settled match outcome with
                                  | Rejected message => Throw message
                                  | Resolved response => Ok response
                                  end, v)),
     {| resourceCache := resourceCache w; network := network w;
        fetches := S (fetches w);
        events := events w ++ [EvFetch url];
        schedule := schedule w |}).

(** The timer is set at the call, the caller goes on when it fires. *)
Definition sleep_async (ms : Z) : Async unit :=
  fun w => (Awaiting (fun v => (Settled (Ok tt), v)), emit (EvDelay ms) w).

Definition response_text_async (r : Response) : Async string :=
  fun w => (Awaiting (fun v => (Settled (Ok (body r)), v)), w).

(** [fetchWithRetry] in flight: the function of helpers.ts again, with
    its three [await]s as the places where other calls may go on. *)
Fixpoint fetchWithRetry_async_fuel (fuel : nat) (url : string)
    (retries delay : Z) : Async Response :=
  async_catch
    (response <~ fetch_async url ;;
     if negb (ok response)
     then sync (throw ("HTTP error " +:+ JS.Number_toString (status response)
                       +:+ ": " +:+ statusText response))
     else sync (ret response))
    (fun error =>
       if (retries <=? 1)%Z then sync (throw error)
       else
         match fuel with
         | O => sync (throw "out of fuel")
         | S fuel' =>
             sleep_async delay ~;;
             fetchWithRetry_async_fuel fuel' url (retries - 1) (delay * 2)
         end).

Definition fetchWithRetry_async (url : string) (retries delay : Z)
    : Async Response :=
  fetchWithRetry_async_fuel (Z.to_nat retries) url retries delay.

Definition fetchWithRetry_async_default (url : string) : Async Response :=
  fetchWithRetry_async url RETRY_ATTEMPTS RETRY_DELAY_MS.

(** ** Promise.all

    [Promise.all(l.map(f))] calls [f] on every element in turn, so each
    call runs up to its first [await] before the next one starts; then
    the calls go on as the event loop resumes them.  It rejects as soon
    as one call has rejected, with that rejection, and resolves when all
    have resolved, with the values in the order of [l].

    The calls that still wait when it rejects go on by themselves: they
    may call [fetch], sleep and log later on, nothing waits for them and
    they never write the cache.  The embedding follows a call of the
    program to its return and leaves them there.

    The order in which the calls are resumed is the [schedule] of the
    world: a number [n] resumes the [n]-th call that waits, counted
    modulo their number.  Every order the event loop can take is some
    schedule (timers exclude some of the orders that schedules allow).
    When the schedule is used up the calls go on in their order, each to
    its end. *)

Fixpoint start_all {A : Type} (ms : list (Async A)) (w : World)
    : list (Task A) * World :=
  match ms with
  | [] => ([], w)
  | m :: rest =>
      let (t, w1) := m w in
      let (ts, w2) := start_all rest w1 in
      (t :: ts, w2)
  end.

Fixpoint first_rejected {A : Type} (ts : list (Task A)) : option string :=
  match ts with
  | [] => None
  | Settled (Throw e) :: _ => Some e
  | _ :: rest => first_rejected rest
  end.

Fixpoint all_fulfilled {A : Type} (ts : list (Task A)) : option (list A) :=
  match ts with
  | [] => Some []
  | Settled (Ok a) :: rest =>
      match all_fulfilled rest with
      | Some l => Some (a :: l)
      | None => None
      end
  | _ :: _ => None
  end.

Fixpoint waiting {A : Type} (ts : list (Task A)) : nat :=
  match ts with
  | [] => 0
  | Awaiting _ :: rest => S (waiting rest)
  | Settled _ :: rest => waiting rest
  end.

(** The [n]-th call that waits goes on, up to its next [await]. *)
Fixpoint resume_nth {A : Type} (n : nat) (ts : list (Task A)) (w : World)
    : list (Task A) * World :=
  match ts with
  | [] => ([], w)
  | Settled r :: rest =>
      let (ts', w') := resume_nth n rest w in (Settled r :: ts', w')
  | Awaiting resume :: rest =>
      match n with
      | O => let (t', w') := resume w in (t' :: rest, w')
      | S n' =>
          let (ts', w') := resume_nth n' rest w in (Awaiting resume :: ts', w')
      end
  end.

(** The calls in their order, each to its end, up to the first
    rejection. *)
Fixpoint in_order {A : Type} (ts : list (Task A)) (w : World)
    : Result (list A) * World :=
  match ts with
  | [] => (Ok [], w)
  | t :: rest =>
      match finish t w with
      | (Ok a, w1) =>
          match in_order rest w1 with
          | (Ok l, w2) => (Ok (a :: l), w2)
          | (Throw e, w2) => (Throw e, w2)
          end
      | (Throw e, w1) => (Throw e, w1)
      end
  end.

Definition with_schedule (turns : list nat) (w : World) : World :=
  {| resourceCache := resourceCache w; network := network w;
     fetches := fetches w; events := events w; schedule := turns |}.

Fixpoint event_loop {A : Type} (turns : list nat) (ts : list (Task A))
    (w : World) : Result (list A) * World :=
  match first_rejected ts with
  | Some e => (Throw e, with_schedule turns w)
  | None =>
      match all_fulfilled ts with
      | Some l => (Ok l, with_schedule turns w)
      | None =>
          match turns with
          | [] => in_order ts (with_schedule [] w)
          | n :: later =>
              let (ts', w') := resume_nth (n mod waiting ts) ts w in
              event_loop later ts' w'
          end
      end
  end.

Definition Promise_all {A : Type} (ms : list (Async A)) : M (list A) :=
  fun w =>
    let (ts, w') := start_all ms w in
    event_loop (schedule w') ts w'.

(** ** [Array.prototype.sort] without a comparator

    The order is that of the code units; the result of sorting strings by
    it does not depend on the algorithm. *)

Fixpoint insert_sorted (x : string) (l : list string) : list string :=
  match l with
  | [] => [x]
  | y :: rest => if String.leb x y then x :: l else y :: insert_sorted x rest
  end.

Definition Array_sort (l : list string) : list string :=
  fold_right insert_sorted [] l.

(** ** The selector paths of parsers.ts *)

Definition LEGACY_BLOCK_ELEMENTS : selector :=
  Child
    (Descendant (Simple (Dom.tag_only "main"))
       {| sel_tag := None; sel_classes := ["content-wrapper"];
          sel_attr := AnyAttr |})
    (Dom.tag_only "div").

Definition LEGACY_ANCHOR : selector :=
  Simple {| sel_tag := Some "a"; sel_classes := [];
            sel_attr := AttrPrefix "href" "#" |}.

Definition LEGACY_COMMAND : selector :=
  Simple (Dom.tag_classes "span" ["hidden"; "lg:inline"]).

Record LegacyBlock : Type := {
  legacy_name : string;
  legacy_command : string;
  legacy_code : string
}.

(** ** The lookups that read or fill the cache *)


(** ** [JSON.stringify(value, null, 2)]

    The values that the handlers print: strings, booleans, arrays and
    objects whose absent properties are left out. *)

#[warnings="-register-all"] Inductive json : Type :=
| JString (s : string)
| JBool (b : bool)
| JArray (items : list json)
| JObject (members : list (string * json)).

Module Json.

Definition hex_digit (n : nat) : ascii :=
  if n <? 10 then ascii_of_nat (48 + n) else ascii_of_nat (87 + n).

(** One code unit inside a quoted string. *)
Definition escape (c : ascii) : string :=
  let n := nat_of_ascii c in
  if n =? 34 then "\" +:+ dq
  else if n =? 92 then "\\"
  else if n =? 8 then "\b"
  else if n =? 12 then "\f"
  else if n =? 10 then "\n"
  else if n =? 13 then "\r"
  else if n =? 9 then "\t"
  else if n <? 32
       then "\u00" +:+ String (hex_digit (n / 16))
                         (String (hex_digit (n mod 16)) EmptyString)
       else String c EmptyString.

Fixpoint escape_all (s : string) : string :=
  match s with
  | EmptyString => EmptyString
  | String c s' => escape c +:+ escape_all s'
  end.

Definition quote (s : string) : string := dq +:+ escape_all s +:+ dq.

Fixpoint join (sep : string) (l : list string) : string :=
  match l with
  | [] => EmptyString
  | [x] => x
  | x :: rest => x +:+ sep +:+ join sep rest
  end.

(** [indent] is the indentation of the enclosing line. *)
Fixpoint serialize (indent : string) (v : json) : string :=
  match v with
  | JString s => quote s
  | JBool b => if b then "true" else "false"
  | JArray [] => "[]"
  | JArray items =>
      let inner := indent +:+ "  " in
      "[" +:+ nl +:+ inner
      +:+ join ("," +:+ nl +:+ inner) (map (serialize inner) items)
      +:+ nl +:+ indent +:+ "]"
  | JObject [] => "{}"
  | JObject members =>
      let inner := indent +:+ "  " in
      "{" +:+ nl +:+ inner
      +:+ join ("," +:+ nl +:+ inner)
            (map (fun member =>
                    match member with
                    | (key, value) =>
                        quote key +:+ ": " +:+ serialize inner value
                    end)
                 members)
      +:+ nl +:+ indent +:+ "}"
  end.

Definition stringify (v : json) : string := serialize EmptyString v.

Definition strings (l : list string) : json := JArray (map JString l).

(** The members of an object literal whose value is not [undefined]. *)
Definition present_members (l : list (string * option json))
    : list (string * json) :=
  omap (fun member =>
          match member with
          | (key, Some value) => Some (key, value)
          | (_, None) => None
          end) l.

Definition of_commands (commands : CommandSet) : json :=
  JObject [ ("npm", JString (cs_npm commands));
            ("pnpm", JString (cs_pnpm commands));
            ("yarn", JString (cs_yarn commands));
            ("bun", JString (cs_bun commands)) ].

Definition of_resource (data : ComponentDocResource) : json :=
  JObject
    (present_members
       [ ("name", Some (JString (name data)));
         ("description", option_map JString (description data));
         ("doc", option_map JString (doc data));
         ("commands",
          option_map (fun l => JArray (map of_commands l)) (commands data));
         ("links", option_map strings (links data));
         ("isBlock", option_map JBool (isBlock data)) ]).

End Json.

(** ** handlers.ts: get-component-docs *)

(** [!value] of a string that may be absent. *)
Definition falsy (value : option string) : bool :=
  match value with
  | Some s => negb (JS.truthy s)
  | None => true
  end.

Definition getComponentDocs (component : string)
    : World -> ToolResponse * World :=
  handler
    (if negb (JS.truthy component)
     then ret (createResponse "Component name is required" true None)
     else
       componentData <- fetchAndCacheComponentData component ;;
       if falsy (description componentData) && falsy (doc componentData)
       then ret (createResponse ("No documentation found for component '"
                                 +:+ component +:+ "'") true None)
       else ret (createResponse (show (doc componentData)) false
                   (Some "text/markdown")))
    "Error fetching component documentation".

(** ** Vocabulary of the statements *)

(** The world after [n] more calls of [fetch] and the events [evs]. *)
Definition after (w : World) (n : nat) (evs : list Event) : World :=
  {| resourceCache := resourceCache w; network := network w;
     fetches := n + fetches w; events := events w ++ evs;
     schedule := schedule w |}.

(** Why an attempt of [fetchWithRetry] fails, if it does: the rejection of
    [fetch], or the error raised on a response that is not [ok]. *)
Definition attempt_failure (o : FetchOutcome) : option string :=
  match o with
  | Rejected message => Some message
  | Resolved response =>
      if ok response then None
      else Some ("HTTP error " +:+ JS.Number_toString (status response)
                 +:+ ": " +:+ statusText response)
  end.

(** The events of [k] failed attempts, each followed by its delay. *)
Fixpoint backoff (url : string) (delay : Z) (k : nat) : list Event :=
  match k with
  | O => []
  | S k' => EvFetch url :: EvDelay delay :: backoff url (delay * 2) k'
  end.

Definition delays (evs : list Event) : list Z :=
  omap (fun e => match e with EvDelay ms => Some ms | _ => None end) evs.


(** The attempts of one call, counted from the state of the network in
    which the call starts. *)
Definition attempt (w : World) (url : string) (i : nat) : FetchOutcome :=
  network w (i + fetches w) url.

(** Every unit of [s] is in the class [p]. *)
Fixpoint all_units (p : ascii -> bool) (s : string) : bool :=
  match s with
  | EmptyString => true
  | String c s' => p c && all_units p s'
  end.

(** [s] is empty or begins with a unit outside [p]: a run of [p] ends here. *)
Definition run_ends (p : ascii -> bool) (s : string) : bool :=
  match s with
  | EmptyString => true
  | String c _ => negb (p c)
  end.

Definition not_newline : ascii -> bool := Re.none_of [LF].

(** The three rules in their declared order. *)
Definition rule_quoted : RegExp := nth 0 DESCRIPTION_PATTERNS FIRST_PARAGRAPH_REGEX.
Definition rule_unquoted : RegExp := nth 1 DESCRIPTION_PATTERNS FIRST_PARAGRAPH_REGEX.
Definition rule_spaced : RegExp := nth 2 DESCRIPTION_PATTERNS FIRST_PARAGRAPH_REGEX.


Definition with_cache (c : gmap string ComponentDocResource) (w : World)
    : World :=
  {| resourceCache := c; network := network w; fetches := fetches w;
     events := events w; schedule := schedule w |}.

(** The cache after [data.forEach(d => resourceCache.set(d.name, d))]. *)
Definition store_all (l : list ComponentDocResource)
    (c : gmap string ComponentDocResource) : gmap string ComponentDocResource :=
  fold_left (fun c data => <[name data := data]> c) l c.

(** The two checks on a component name that precede the cache. *)
Definition valid_name (component : string) : bool :=
  JS.truthy component
  && String.eqb
       (Re.replace_all component (Char (fun c => negb (allowed_in_name c)))
          EmptyString)
       component.

(** The resource that a component document is turned into. *)
Definition component_resource (component mdxContent : string)
    : ComponentDocResource :=
  match transformComponentData component mdxContent with
  | data :: _ => data
  | [] => {| name := component; description := None; doc := None;
             commands := None; links := None; isBlock := None |}
  end.

Definition fetch_failed (key error : string) : string :=
  "Failed to fetch and transform data for key '" +:+ key +:+ "': " +:+ error.

(** A computation that only uses the network, the clock and the console. *)
Definition net_only {A : Type} (m : M A) : Prop :=
  forall w, exists n evs, snd (m w) = after w n evs.

(** A computation that uses nothing else and begins by fetching [url]. *)
Definition fetches_first {A : Type} (url : string) (m : M A) : Prop :=
  forall w, exists n evs, snd (m w) = after w (S n) (EvFetch url :: evs).

(** From [w] to [w'] a fetch of [url] was started, before anything else. *)
Definition starts_fetch (url : string) (w w' : World) : Prop :=
  exists n evs,
    fetches w' = S n + fetches w /\ events w' = events w ++ EvFetch url :: evs.

Definition page_failed (url error : string) : string :=
  "Failed to parse blocks from " +:+ url +:+ ": " +:+ error.

Definition no_blocks (url : string) : Event :=
  EvLog ("Warning: No blocks found at " +:+ url).

Definition https (url : string) : bool :=
  JS.truthy url && JS.startsWith url "https://".

Definition block_not_found (block : string) : string :=
  "Block '" +:+ block
  +:+ "' not found. Use list-blocks to see available blocks.".

(** Every element of a tree, in document order. *)
Fixpoint elements_of (n : node) : list node :=
  match n with
  | Text _ => []
  | Element _ _ children => n :: List.flat_map elements_of children
  end.

Definition all_elements (d : document) : list node :=
  List.flat_map elements_of d.

(** An anchor whose reference path begins with the documentation prefix. *)
Definition is_component_anchor (el : node) : bool :=
  match el with
  | Element tag attrs _ =>
      String.eqb "a" tag
      && match Dom.attr attrs "href" with
         | Some href => JS.startsWith href "/docs/components/"
         | None => false
         end
  | Text _ => false
  end.

Definition no_components : Event :=
  EvLog "Warning: No components found in HTML".

Definition code_unit_le (a b : string) : Prop := String.leb a b = true.

(** ** Sample documents, pages and networks *)

Definition card_mdx : string :=
  "---" +:+ nl
  +:+ "title: Card" +:+ nl
  +:+ "description: Displays a card with header, content, and footer." +:+ nl
  +:+ "---" +:+ nl +:+ nl
  +:+ "A card." +:+ nl +:+ nl
  +:+ "```bash" +:+ nl
  +:+ "npx shadcn@latest add card" +:+ nl
  +:+ "```" +:+ nl.

(** A block page with a complete block, a node injected by the toolkit and
    an element that has an id but neither a command nor a code sample. *)
Definition sidebar_html : string :=
  "<div class='container-wrapper flex-1'>"
  +:+ "<div id='sidebar-01'>"
  +:+ "<div class='flex w-full items-center gap-2 md:pr-[14px]'>"
  +:+ "<a href='#sidebar-01'>A simple sidebar</a>"
  +:+ "<div class='ml-auto hidden items-center gap-2 md:flex'>"
  +:+ "<div class='flex h-7 items-center gap-1 rounded-md border p-[2px]'>"
  +:+ "<button><span>npx shadcn@latest add sidebar-01</span></button>"
  +:+ "</div></div></div>"
  +:+ "<code>export default function Page() {}</code>"
  +:+ "</div>"
  +:+ "<div id='radix-:r1:'><code>menu</code></div>"
  +:+ "<div id='preview'></div>"
  +:+ "</div>".

Definition page (content : list node) : document :=
  [ Element "html" [] [ Element "head" [] []; Element "body" [] content ] ].

Definition sidebar_dom : document :=
  page
    [ Element "div" [("class", "container-wrapper flex-1")]
        [ Element "div" [("id", "sidebar-01")]
            [ Element "div"
                [("class", "flex w-full items-center gap-2 md:pr-[14px]")]
                [ Element "a" [("href", "#sidebar-01")]
                    [Text "A simple sidebar"];
                  Element "div"
                    [("class", "ml-auto hidden items-center gap-2 md:flex")]
                    [ Element "div"
                        [("class",
                          "flex h-7 items-center gap-1 rounded-md border p-[2px]")]
                        [ Element "button" []
                            [ Element "span" []
                                [Text "npx shadcn@latest add sidebar-01"] ] ] ] ];
              Element "code" [] [Text "export default function Page() {}"] ];
          Element "div" [("id", "radix-:r1:")]
            [ Element "code" [] [Text "menu"] ];
          Element "div" [("id", "preview")] [] ] ].

(** A block page whose block carries the name of a component. *)
Definition authentication_html : string :=
  "<div class='container-wrapper flex-1'>"
  +:+ "<div id='card'>"
  +:+ "<div class='flex w-full items-center gap-2 md:pr-[14px]'>"
  +:+ "<a href='#card'>A login card</a>"
  +:+ "<div class='ml-auto hidden items-center gap-2 md:flex'>"
  +:+ "<div class='flex h-7 items-center gap-1 rounded-md border p-[2px]'>"
  +:+ "<button><span>npx shadcn@latest add login-card</span></button>"
  +:+ "</div></div></div>"
  +:+ "<code>export default function LoginCard() {}</code>"
  +:+ "</div>"
  +:+ "</div>".

Definition authentication_dom : document :=
  page
    [ Element "div" [("class", "container-wrapper flex-1")]
        [ Element "div" [("id", "card")]
            [ Element "div"
                [("class", "flex w-full items-center gap-2 md:pr-[14px]")]
                [ Element "a" [("href", "#card")] [Text "A login card"];
                  Element "div"
                    [("class", "ml-auto hidden items-center gap-2 md:flex")]
                    [ Element "div"
                        [("class",
                          "flex h-7 items-center gap-1 rounded-md border p-[2px]")]
                        [ Element "button" []
                            [ Element "span" []
                                [Text "npx shadcn@latest add login-card"] ] ] ] ];
              Element "code" []
                [Text "export default function LoginCard() {}"] ] ] ].

Definition components_html : string :=
  "<nav><a href='/docs/components/button'>Button</a>"
  +:+ "<a href='/docs/components/accordion'>Accordion</a>"
  +:+ "<a href='/docs/installation'>Installation</a>"
  +:+ "<a href='/docs/components/'>Components</a></nav>".

Definition components_dom : document :=
  page
    [ Element "nav" []
        [ Element "a" [("href", "/docs/components/button")] [Text "Button"];
          Element "a" [("href", "/docs/components/accordion")]
            [Text "Accordion"];
          Element "a" [("href", "/docs/installation")] [Text "Installation"];
          Element "a" [("href", "/docs/components/")] [Text "Components"] ] ].

Definition index_html : string :=
  "<nav><a href='/docs/components/'>Components</a></nav>".

Definition index_dom : document :=
  page
    [ Element "nav" []
        [ Element "a" [("href", "/docs/components/")] [Text "Components"] ] ].

(** The trees that the parser builds for the sample pages. *)
Definition sample_load (html : string) : document :=
  if String.eqb html sidebar_html then sidebar_dom
  else if String.eqb html authentication_html then authentication_dom
  else if String.eqb html components_html then components_dom
  else if String.eqb html index_html then index_dom
  else page [].

Definition found (text : string) : FetchOutcome :=
  Resolved {| ok := true; status := 200; statusText := "OK"; body := text |}.

Definition not_found : FetchOutcome :=
  Resolved {| ok := false; status := 404; statusText := "Not Found";
              body := EmptyString |}.

Definition sidebar_url : string := BASE_URL +:+ "/blocks/sidebar".
Definition authentication_url : string := BASE_URL +:+ "/blocks/authentication".

Definition net_up (i : nat) (url : string) : FetchOutcome :=
  if String.eqb url (component_url "card") then found card_mdx
  else if String.eqb url sidebar_url then found sidebar_html
  else if String.eqb url authentication_url then found authentication_html
  else not_found.

Definition net_down (i : nat) (url : string) : FetchOutcome :=
  Rejected "fetch failed".

(** The first two calls of [fetch] fail. *)
Definition net_flaky (i : nat) (url : string) : FetchOutcome :=
  if i <? 2 then Rejected "fetch failed" else net_up i url.

(** The second block page cannot be reached. *)
Definition net_half (i : nat) (url : string) : FetchOutcome :=
  if String.eqb url authentication_url then Rejected "fetch failed"
  else net_up i url.

Definition fresh (net : nat -> string -> FetchOutcome) : World :=
  {| resourceCache := ∅; network := net; fetches := 0; events := [];
     schedule := [] |}.


Definition retry_events (url : string) : list Event :=
  [EvFetch url; EvDelay 500; EvFetch url; EvDelay 1000; EvFetch url].

(** ** Vocabulary of the further statements *)


(** The invocation prefix of a package manager. *)
Definition prefix_of (pm : PackageManager) : string :=
  match pm with
  | npm => "npx"
  | pnpm => "pnpm dlx"
  | yarn => "yarn dlx"
  | bun => "bunx"
  end.

(** The units of [s] that are in the class [p]. *)
Fixpoint keep_units (p : ascii -> bool) (s : string) : string :=
  match s with
  | EmptyString => EmptyString
  | String c s' => if p c then String c (keep_units p s') else keep_units p s'
  end.

(** The parts of [transformComponentData]: the frontmatter of a document
    and its canonical install command. *)
Definition frontmatter_of (mdxContent : string) : string :=
  match Re.String_match mdxContent FRONTMATTER_REGEX with
  | Some frontmatterMatch => Re.group_text frontmatterMatch 1
  | None => EmptyString
  end.

Definition cli_command_of (mdxContent : string) : option string :=
  match Re.String_match mdxContent CLI_COMMAND_REGEX with
  | Some cliCommandMatch =>
      Some (JS.trim
              (Re.replace_all (Re.group_text cliCommandMatch 0)
                 (Alt (Re.lit ("```bash" +:+ nl)) (Re.lit (nl +:+ "```")))
                 EmptyString))
  | None => None
  end.

Definition OPENING : string := "---" +:+ nl.
Definition FENCE : string := "```bash" +:+ nl.
Definition ADD : string := "npx shadcn@latest add ".
Definition FENCE_END : string := nl +:+ "```".
Definition BACKTICK : ascii := "`"%char.

(** A unit that is neither a backtick nor a line feed. *)
Definition plain_unit (c : ascii) : bool :=
  negb (Ascii.eqb c BACKTICK) && negb (Ascii.eqb c LF).

Definition FENCES : regex := Alt (Re.lit FENCE) (Re.lit FENCE_END).

(** The text after [links:] is read up to the end of the frontmatter or
    to a line feed that is followed by a word unit. *)
Definition at_block_end (s : string) : bool :=
  match s with
  | EmptyString => true
  | String c EmptyString => false
  | String c (String d _) => Ascii.eqb LF c && Re.word d
  end.

Fixpoint block_length (s : string) : nat :=
  if at_block_end s then 0
  else match s with
       | EmptyString => 0
       | String _ s' => S (block_length s')
       end.

Definition KEY_LINE : regex := Alt (Seq (Re.lit nl) (Char Re.word)) EndOfInput.

(** The pattern of one entry of the links block. *)
Definition link_rule (key : string) : regex :=
  Re.cat [ Re.lit key; Re.star JS.is_space;
           Group 1 (Re.plus (Re.none_of [LF])) ].

(** A string without white space at either end. *)
Definition trimmed (s : string) : Prop := JS.trim s = s.

(** The last resource of a list that carries the name [n]. *)
Fixpoint last_named (n : string) (l : list ComponentDocResource)
    : option ComponentDocResource :=
  match l with
  | [] => None
  | data :: rest =>
      match last_named n rest with
      | Some r => Some r
      | None => if String.eqb (name data) n then Some data else None
      end
  end.

Definition invalid_name_message (component : string) : string :=
  if JS.truthy component then "Invalid component name: " +:+ component
  else "Invalid component name".

(** An id under which the scraper of helpers.ts keeps an element. *)
Definition block_id (id : string) : bool :=
  JS.truthy id && negb (JS.startsWith id "radix-").

Definition SLASH : ascii := "/"%char.

Definition not_slash (c : ascii) : bool := negb (Ascii.eqb c SLASH).

(** The runtime token of a package manager and its command in a set. *)
Definition runtime_key (pm : PackageManager) : string :=
  match pm with
  | npm => "npm"
  | pnpm => "pnpm"
  | yarn => "yarn"
  | bun => "bun"
  end.

Definition variant (pm : PackageManager) (commands : CommandSet) : string :=
  match pm with
  | npm => cs_npm commands
  | pnpm => cs_pnpm commands
  | yarn => cs_yarn commands
  | bun => cs_bun commands
  end.

Definition components_url : string := BASE_URL +:+ "/components".

(** ** Further samples *)

(** The network of the samples, with the components page. *)
Definition net_site (i : nat) (url : string) : FetchOutcome :=
  if String.eqb url components_url then found components_html
  else net_up i url.

(** Every request is answered with an empty body. *)
Definition net_blank (i : nat) (url : string) : FetchOutcome :=
  found EmptyString.

Definition card_head : string :=
  "---" +:+ nl
  +:+ "title: Card" +:+ nl
  +:+ "description: Displays a card with header, content, and footer." +:+ nl
  +:+ "---" +:+ nl +:+ nl
  +:+ "A card." +:+ nl +:+ nl.

Definition card_frontmatter : string :=
  "title: Card" +:+ nl
  +:+ "description: Displays a card with header, content, and footer.".

Definition doc_url : string := "https://ui.shadcn.com/docs/components/dialog".
Definition api_url : string :=
  "https://www.radix-ui.com/docs/primitives/components/dialog".

Definition sidebar_01 : ComponentDocResource :=
  {| name := "sidebar-01"; description := Some "A simple sidebar";
     doc := Some "export default function Page() {}";
     commands := Some [commandSet "npx shadcn@latest add sidebar-01"];
     links := None; isBlock := Some true |}.

Definition sidebar_page : Response :=
  {| ok := true; status := 200; statusText := "OK"; body := sidebar_html |}.

Definition blank_page : Response :=
  {| ok := true; status := 200; statusText := "OK"; body := EmptyString |}.

Definition components_page : Response :=
  {| ok := true; status := 200; statusText := "OK"; body := components_html |}.

(** ** Calls in flight *)

(** [w'] is [w] after some calls of [fetch], delays and logs: the cache
    and the network are those of [w]. *)
Definition grows (w w' : World) : Prop :=
  resourceCache w' = resourceCache w
  /\ network w' = network w
  /\ exists n evs,
       fetches w' = n + fetches w /\ events w' = events w ++ evs.

(** On the network [net], whenever and in whatever world the task [t]
    goes on, it leaves the cache and the network alone, and when it
    settles its result is in [P]. *)
Inductive settles {A : Type} (net : nat -> string -> FetchOutcome)
    (P : Result A -> Prop) : Task A -> Prop :=
| settles_now (r : Result A) : P r -> settles net P (Settled r)
| settles_later (resume : World -> Task A * World) :
    (forall v, network v = net -> grows v (snd (resume v))) ->
    (forall v, network v = net -> settles net P (fst (resume v))) ->
    settles net P (Awaiting resume).

(** The same of a call, from its start. *)
Definition calls {A : Type} (net : nat -> string -> FetchOutcome)
    (P : Result A -> Prop) (m : Async A) : Prop :=
  forall w, network w = net ->
            grows w (snd (m w)) /\ settles net P (fst (m w)).

(** A response that the network gives for [url] and that is [ok]. *)
Definition served (net : nat -> string -> FetchOutcome) (url : string)
    (response : Response) : Prop :=
  exists i, net i url = Resolved response /\ ok response = true.

(** The failure of a call of [fetch] for [url]. *)
Definition refused (net : nat -> string -> FetchOutcome) (url : string)
    (error : string) : Prop :=
  exists i, attempt_failure (net i url) = Some error.

(** The result of [Promise.all] over calls whose results are in [Ps]:
    the values of all of them, or the rejection of one of them. *)
Definition all_in {A : Type} (Ps : list (Result A -> Prop))
    (r : Result (list A)) : Prop :=
  match r with
  | Ok l => Forall2 (fun P a => P (Ok a)) Ps l
  | Throw e => Exists (fun P => P (Throw e)) Ps
  end.


Definition button_mdx : string := "A button." +:+ nl.

(** The network of the samples, with a document for [button]. *)
Definition net_button (i : nat) (url : string) : FetchOutcome :=
  if String.eqb url (component_url "button") then found button_mdx
  else net_up i url.

(** The arguments of [fetchWithRetry] for which every number that the
    call computes is a safe integer: the counts from [retries] down, and
    the delays from [delay] up to the last doubling. *)
Definition exact_arguments (retries delay : Z) : Prop :=
  safe retries /\ safe (delay * 2 ^ Z.max 0 (retries - 1)).

Definition preview_block : ComponentDocResource :=
  {| name := "preview"; description := Some EmptyString;
     doc := Some EmptyString; commands := Some [commandSet EmptyString];
     links := None; isBlock := Some true |}.

Section Scrapers.

(** [loadCheerio]: the parser of the cheerio package. *)
Variable loadCheerio : string -> document.

Definition scrape_block (el : node) : list Block :=
  match Dom.node_attr el "id" with
  | Some id =>
      if JS.truthy id && negb (JS.startsWith id "radix-")
      then
        let description := JS.trim (Dom.text (Dom.find el BLOCK_ANCHOR)) in
        let command := JS.trim (Dom.text (Dom.find el BLOCK_COMMAND)) in
        let doc :=
          JS.trim (Dom.text (Dom.first (Dom.find el BLOCK_CODE))) in
        [ {| block_name := id; block_command := command; block_doc := doc;
             block_description := Some description |} ]
      else []
  | None => []
  end.

Definition parseBlocksFromPage (url : string) : M (list Block) :=
  if negb (JS.truthy url) || negb (JS.startsWith url "https://")
  then throw ("Invalid URL: " +:+ url)
  else
    try_catch
      (response <- fetchWithRetry_default url ;;
       html <- response_text response ;;
       let blocks :=
         List.flat_map scrape_block
           (Dom.select (loadCheerio html) BLOCK_ELEMENTS) in
       (if length blocks =? 0
        then console_error ("Warning: No blocks found at " +:+ url)
        else ret tt) ;;;
       ret blocks)
      (fun error =>
         throw ("Failed to parse blocks from " +:+ url +:+ ": " +:+ error)).

Definition component_name (el : node) : option string :=
  match Dom.node_attr el "href" with
  | Some href => JS.pop (JS.split href "/")
  | None => None
  end.

Definition parseComponentsFromHtml (html : string) : M (list string) :=
  if negb (JS.truthy html) then throw "Invalid HTML content"
  else
    try_catch
      (let components :=
         Array_sort
           (List.filter JS.truthy
              (omap component_name
                 (Dom.select (loadCheerio html) COMPONENT_ANCHORS))) in
       (if length components =? 0
        then console_error "Warning: No components found in HTML"
        else ret tt) ;;;
       ret components)
      (fun error => throw ("Failed to parse components: " +:+ error)).

(** [parseBlocksFromPage] in flight, as [Promise.all] runs it. *)
Definition parseBlocksFromPage_async (url : string) : Async (list Block) :=
  if negb (JS.truthy url) || negb (JS.startsWith url "https://")
  then sync (throw ("Invalid URL: " +:+ url))
  else
    async_catch
      (response <~ fetchWithRetry_async_default url ;;
       html <~ response_text_async response ;;
       let blocks :=
         List.flat_map scrape_block
           (Dom.select (loadCheerio html) BLOCK_ELEMENTS) in
       (if length blocks =? 0
        then sync (console_error ("Warning: No blocks found at " +:+ url))
        else sync (ret tt)) ~;;
       sync (ret blocks))
      (fun error =>
         sync (throw ("Failed to parse blocks from " +:+ url +:+ ": "
                      +:+ error))).

Definition fetchAndCacheBlocks : M (list ComponentDocResource) :=
  fetchAndCache "blocks"
    (Promise_all (map parseBlocksFromPage_async BLOCK_PAGES))
    (fun blockPages => Ok (transformBlocks blockPages)).

(** handlers.ts *)

Definition getBlockData (block : string)
    : M (string + ComponentDocResource) :=
  if negb (JS.truthy block) then ret (inl "Block name is required")
  else
    cached <- cache_get block ;;
    blockData <-
      match cached with
      | Some data => ret (Some data)
      | None => fetchAndCacheBlocks ;;; cache_get block
      end ;;
    match blockData with
    | None =>
        ret (inl ("Block '" +:+ block
                  +:+ "' not found. Use list-blocks to see available blocks."))
    | Some data => ret (inr data)
    end.

Definition installBlock (block : string) (runtime : option string)
    : World -> ToolResponse * World :=
  handler
    (if present runtime && negb (validateRuntime runtime)
     then ret (invalid_runtime runtime)
     else
       found <- getBlockData block ;;
       match found with
       | inl error => ret (createResponse error true None)
       | inr blockData =>
           ret (select_command "block" block runtime blockData)
       end)
    "Error generating installation command".

(** parsers.ts *)

Definition legacy_scrape_block (el : node) : list LegacyBlock :=
  let anchor := Dom.find el LEGACY_ANCHOR in
  let name :=
    match Dom.attr_of anchor "href" with
    | Some href => JS.replace href "#" EmptyString
    | None => EmptyString
    end in
  let command := JS.trim (Dom.text (Dom.find el LEGACY_COMMAND)) in
  let code := JS.trim (Dom.text (Dom.find el BLOCK_CODE)) in
  if JS.truthy name && JS.truthy command && JS.truthy code
  then [ {| legacy_name := name; legacy_command := command;
            legacy_code := code |} ]
  else [].

Definition legacy_parseBlocksFromPage (url : string) : M (list LegacyBlock) :=
  response <- fetch url ;;
  html <- response_text response ;;
  ret (List.flat_map legacy_scrape_block
         (Dom.select (loadCheerio html) LEGACY_BLOCK_ELEMENTS)).



(** handlers.ts: the listings and get-block-docs *)

Definition listComponents : World -> ToolResponse * World :=
  handler
    (response <- fetchWithRetry_default (BASE_URL +:+ "/components") ;;
     html <- response_text response ;;
     components <- parseComponentsFromHtml html ;;
     ret (createResponse (Json.stringify (Json.strings components))
            false None))
    "Error fetching components list".

Definition listBlocks : World -> ToolResponse * World :=
  handler
    (blocks <- fetchAndCacheBlocks ;;
     let blockNames := map name blocks in
     ret (createResponse (Json.stringify (Json.strings blockNames))
            false None))
    "Error fetching blocks".

Definition getBlockDocs (block : string) : World -> ToolResponse * World :=
  handler
    (found <- getBlockData block ;;
     match found with
     | inl error => ret (createResponse error true None)
     | inr blockData =>
         if falsy (doc blockData)
         then ret (createResponse ("No documentation found for block '"
                                   +:+ block +:+ "'") true None)
         else ret (createResponse
                     (Json.stringify (Json.of_resource blockData)) false
                     (Some "application/json"))
     end)
    "Error fetching block documentation".

(** parsers.ts: the component listing *)

Definition legacy_parseComponentsFromHtml (html : string) : list string :=
  Array_sort
    (List.filter JS.truthy
       (omap component_name
          (Dom.select (loadCheerio html) COMPONENT_ANCHORS))).


(** What a page in flight settles with: the blocks scraped from a
    response of its URL that is [ok], or the failure of a fetch of its
    URL, reported under that URL. *)
Definition page_result (net : nat -> string -> FetchOutcome) (url : string)
    (r : Result (list Block)) : Prop :=
  match r with
  | Ok blocks =>
      exists response,
        served net url response
        /\ blocks
           = List.flat_map scrape_block
               (Dom.select (loadCheerio (body response)) BLOCK_ELEMENTS)
  | Throw e =>
      exists error, refused net url error /\ e = page_failed url error
  end.



(** ** The fetcher *)

Lemma after_after (w : World) (n m : nat) (e1 e2 : list Event) :
  after (after w n e1) m e2 = after w (m + n) (e1 ++ e2).
Proof.
  unfold after; simpl. f_equal; [lia | now rewrite <- app_assoc].
Qed.

Lemma after_zero (w : World) : after w 0 [] = w.
Proof. destruct w; unfold after; simpl. now rewrite app_nil_r. Qed.

Lemma fetchWithRetry_fuel_ok (fuel : nat) (url : string) (retries delay : Z)
    (w : World) (r : Response) :
  network w (fetches w) url = Resolved r -> ok r = true ->
  fetchWithRetry_fuel fuel url retries delay w
  = (Ok r, after w 1 [EvFetch url]).
Proof.
  intros Hn Hok. destruct fuel; simpl;
    unfold try_catch, bind, fetch; rewrite Hn, Hok; reflexivity.
Qed.

Lemma fetchWithRetry_fuel_last (fuel : nat) (url : string)
    (retries delay : Z) (w : World) (e : string) :
  attempt_failure (network w (fetches w) url) = Some e ->
  (retries <= 1)%Z ->
  fetchWithRetry_fuel fuel url retries delay w
  = (Throw e, after w 1 [EvFetch url]).
Proof.
  intros Hf Hr. apply Z.leb_le in Hr.
  destruct fuel; simpl; unfold try_catch, bind, fetch, attempt_failure in *;
    destruct (network w (fetches w) url) as [m | r]; simpl.
  all: try (destruct (ok r); simpl; try discriminate).
  all: rewrite Hr; unfold throw.
  all: injection Hf as <-; reflexivity.
Qed.

Lemma fetchWithRetry_fuel_again (fuel : nat) (url : string)
    (retries delay : Z) (w : World) (e : string) :
  attempt_failure (network w (fetches w) url) = Some e ->
  (1 < retries)%Z ->
  fetchWithRetry_fuel (S fuel) url retries delay w
  = fetchWithRetry_fuel fuel url (retries - 1) (delay * 2)
      (after w 1 [EvFetch url; EvDelay delay]).
Proof.
  intros Hf Hr. apply Z.leb_gt in Hr.
  cbn [fetchWithRetry_fuel]. unfold try_catch at 1, bind at 1, fetch.
  unfold attempt_failure in Hf.
  destruct (network w (fetches w) url) as [m | r]; simpl.
  all: try (destruct (ok r); simpl; try discriminate).
  all: rewrite Hr; unfold bind at 1, sleep, emit, after; simpl.
  all: rewrite <- app_assoc; reflexivity.
Qed.

Lemma throws_with {A : Type} (p : Result A * World) (e : string) :
  fst p = Throw e -> p = (Throw e, snd p).
Proof. destruct p as [r w]. cbn. now intros ->. Qed.

Lemma returns_with {A : Type} (p : Result A * World) (a : A) :
  fst p = Ok a -> p = (Ok a, snd p).
Proof. destruct p as [r w]. cbn. now intros ->. Qed.

Lemma after_eq (w : World) (n m : nat) (e1 e2 : list Event) :
  n = m -> e1 = e2 -> after w n e1 = after w m e2.
Proof. now intros -> ->. Qed.

Lemma attempt_shift (w : World) (url : string) (i : nat)
    (evs : list Event) :
  attempt (after w 1 evs) url i = attempt w url (S i).
Proof. unfold attempt, after; simpl. now rewrite Nat.add_succ_r. Qed.

(** The first attempt that succeeds ends the call. *)
Lemma fetchWithRetry_fuel_success (k : nat) :
  forall (fuel : nat) (url : string) (retries delay : Z) (w : World)
         (r : Response),
    (forall i, i < k -> attempt_failure (attempt w url i) <> None) ->
    attempt w url k = Resolved r -> ok r = true ->
    k <= Z.to_nat (retries - 1) -> k <= fuel ->
    fetchWithRetry_fuel fuel url retries delay w
    = (Ok r, after w (S k) (backoff url delay k ++ [EvFetch url])).
Proof.
  induction k as [| k IH]; intros fuel url retries delay w r Hfail Hk Hok Hr Hfuel.
  - now apply fetchWithRetry_fuel_ok.
  - destruct fuel as [| fuel]; [lia |].
    destruct (attempt_failure (attempt w url 0)) as [e |] eqn:He;
      [| exfalso; apply (Hfail 0); [lia | exact He]].
    rewrite (fetchWithRetry_fuel_again _ _ _ _ _ e); [| exact He | lia].
    rewrite (IH fuel url (retries - 1)%Z (delay * 2)%Z _ r).
    + rewrite after_after. f_equal. apply after_eq; [lia | reflexivity].
    + intros i Hi. rewrite attempt_shift. apply Hfail. lia.
    + now rewrite attempt_shift.
    + exact Hok.
    + lia.
    + lia.
Qed.

(** When every attempt fails, the last failure is thrown. *)
Lemma fetchWithRetry_fuel_exhausted (n : nat) :
  forall (fuel : nat) (url : string) (retries delay : Z) (w : World)
         (e : string),
    (forall i, i < n -> attempt_failure (attempt w url i) <> None) ->
    attempt_failure (attempt w url n) = Some e ->
    n = Z.to_nat (retries - 1) -> n <= fuel ->
    fetchWithRetry_fuel fuel url retries delay w
    = (Throw e, after w (S n) (backoff url delay n ++ [EvFetch url])).
Proof.
  induction n as [| n IH]; intros fuel url retries delay w e Hfail Hn Hr Hfuel.
  - apply fetchWithRetry_fuel_last; [exact Hn | lia].
  - destruct fuel as [| fuel]; [lia |].
    destruct (attempt_failure (attempt w url 0)) as [e0 |] eqn:He;
      [| exfalso; apply (Hfail 0); [lia | exact He]].
    rewrite (fetchWithRetry_fuel_again _ _ _ _ _ e0); [| exact He | lia].
    rewrite (IH fuel url (retries - 1)%Z (delay * 2)%Z _ e).
    + rewrite after_after. f_equal. apply after_eq; [lia | reflexivity].
    + intros i Hi. rewrite attempt_shift. apply Hfail. lia.
    + now rewrite attempt_shift.
    + lia.
    + lia.
Qed.

Lemma first_success (w : World) (url : string) (n : nat) :
  (exists k, k <= n
     /\ (forall i, i < k -> attempt_failure (attempt w url i) <> None)
     /\ attempt_failure (attempt w url k) = None)
  \/ (forall i, i <= n -> attempt_failure (attempt w url i) <> None).
Proof.
  induction n as [| n [(k & Hk & Hb & Hs) | Hall]].
  - destruct (attempt_failure (attempt w url 0)) eqn:E.
    + right. intros i Hi. replace i with 0 by lia. congruence.
    + left. exists 0. repeat split; [lia | intros; lia | exact E].
  - left. exists k. repeat split; [lia | exact Hb | exact Hs].
  - destruct (attempt_failure (attempt w url (S n))) eqn:E.
    + right. intros i Hi. destruct (Nat.eq_dec i (S n)) as [-> | Hne];
        [congruence | apply Hall; lia].
    + left. exists (S n). repeat split; [lia | | exact E].
      intros i Hi. apply Hall. lia.
Qed.

Lemma success_response (o : FetchOutcome) :
  attempt_failure o = None -> exists r, o = Resolved r /\ ok r = true.
Proof.
  destruct o as [m | r]; simpl; [discriminate |].
  destruct (ok r) eqn:E; [| discriminate]. intros _. now exists r.
Qed.

(** [fetchWithRetry] always returns or throws as the source does: its
    measure is never used up.  With [n + 1] attempts allowed it ends at
    the first success, or after [n] delays with the last failure. *)
Lemma fetchWithRetry_total (url : string) (retries delay : Z) (w : World) :
  let n := Z.to_nat (retries - 1) in
  (exists k r, k <= n
     /\ (forall i, i < k -> attempt_failure (attempt w url i) <> None)
     /\ attempt w url k = Resolved r /\ ok r = true
     /\ fetchWithRetry url retries delay w
        = (Ok r, after w (S k) (backoff url delay k ++ [EvFetch url])))
  \/ (exists e,
        (forall i, i <= n -> attempt_failure (attempt w url i) <> None)
        /\ attempt_failure (attempt w url n) = Some e
        /\ fetchWithRetry url retries delay w
           = (Throw e, after w (S n) (backoff url delay n ++ [EvFetch url]))).
Proof.
  intros n. destruct (first_success w url n) as [(k & Hk & Hb & Hs) | Hall].
  - left. destruct (success_response _ Hs) as (r & Hr & Hok).
    exists k, r. repeat split; try assumption.
    unfold fetchWithRetry. apply fetchWithRetry_fuel_success; try assumption.
    subst n. lia.
  - right. destruct (attempt_failure (attempt w url n)) as [e |] eqn:He;
      [| exfalso; apply (Hall n); [lia | exact He]].
    exists e. repeat split; try assumption.
    unfold fetchWithRetry. apply fetchWithRetry_fuel_exhausted; try assumption.
    + intros i Hi. apply Hall. lia.
    + reflexivity.
    + subst n. lia.
Qed.

(** Fetching touches neither the cache nor the behaviour of the network. *)
Lemma fetchWithRetry_frame (url : string) (retries delay : Z) (w : World) :
  exists n evs,
    snd (fetchWithRetry url retries delay w) = after w (S n) evs
    /\ hd_error evs = Some (EvFetch url).
Proof.
  destruct (fetchWithRetry_total url retries delay w)
    as [(k & r & _ & _ & _ & _ & ->) | (e & _ & _ & ->)]; simpl.
  - exists k, (backoff url delay k ++ [EvFetch url]). split; [reflexivity |].
    destruct k; reflexivity.
  - eexists _, _. split; [reflexivity |].
    destruct (Z.to_nat (retries - 1)); reflexivity.
Qed.

Lemma delays_backoff (url : string) (k : nat) :
  forall delay : Z,
    delays (backoff url delay k ++ [EvFetch url])
    = map (fun i => (delay * 2 ^ Z.of_nat i)%Z) (seq 0 k).
Proof.
  induction k as [| k IH]; intros delay; [reflexivity |].
  cbn [backoff]. cbn [app]. unfold delays in *. cbn [omap].
  change (omap ?f ?l) with (omap f l). simpl.
  f_equal; [rewrite Z.mul_1_r; reflexivity |].
  rewrite IH. rewrite <- seq_shift, map_map.
  apply map_ext. intros i.
  rewrite Nat2Z.inj_succ, Z.pow_succ_r by lia. lia.
Qed.

(** For any number of attempts allowed, a call that fails throughout
    performs one delay less than attempts, each twice the one before. *)
Lemma fetchWithRetry_exhausted_delays (url : string) (retries delay : Z)
    (w : World) (e : string) :
  (1 <= retries)%Z ->
  (forall i, i < Z.to_nat (retries - 1) ->
             attempt_failure (attempt w url i) <> None) ->
  attempt_failure (attempt w url (Z.to_nat (retries - 1))) = Some e ->
  exists evs,
    fetchWithRetry url retries delay w
    = (Throw e, after w (Z.to_nat retries) evs)
    /\ delays evs
       = map (fun i => (delay * 2 ^ Z.of_nat i)%Z)
           (seq 0 (Z.to_nat (retries - 1))).
Proof.
  intros Hr Hfail He.
  exists (backoff url delay (Z.to_nat (retries - 1)) ++ [EvFetch url]).
  split; [| apply delays_backoff].
  unfold fetchWithRetry.
  rewrite (fetchWithRetry_fuel_exhausted (Z.to_nat (retries - 1)) _ _ _ _ _ e);
    try assumption; try reflexivity; [| lia].
  f_equal. apply after_eq; [lia | reflexivity].
Qed.

(** C1. With the default parameters (3 attempts, 500 ms), for every URL:
    the first attempt that succeeds is returned at once, no delay being
    performed after it; two failures followed by a success give the third
    response after exactly the delays 500 ms and 1000 ms; three failures
    give exactly two delays ([RETRY_ATTEMPTS - 1]) and then the failure
    of the last attempt is thrown. *)
Theorem C1_fetchWithRetry_default (url : string) (w : World) :
  (forall k r,
     k <= 2 ->
     (forall i, i < k -> attempt_failure (attempt w url i) <> None) ->
     attempt w url k = Resolved r -> ok r = true ->
     fetchWithRetry_default url w
     = (Ok r, after w (S k) (backoff url 500 k ++ [EvFetch url])))
  /\ (forall e0 e1 r,
        attempt_failure (attempt w url 0) = Some e0 ->
        attempt_failure (attempt w url 1) = Some e1 ->
        attempt w url 2 = Resolved r -> ok r = true ->
        fetchWithRetry_default url w
        = (Ok r, after w 3 [EvFetch url; EvDelay 500; EvFetch url;
                            EvDelay 1000; EvFetch url]))
  /\ (forall e0 e1 e2,
        attempt_failure (attempt w url 0) = Some e0 ->
        attempt_failure (attempt w url 1) = Some e1 ->
        attempt_failure (attempt w url 2) = Some e2 ->
        fetchWithRetry_default url w
        = (Throw e2, after w 3 [EvFetch url; EvDelay 500; EvFetch url;
                                EvDelay 1000; EvFetch url])
        /\ Z.of_nat (length (delays [EvFetch url; EvDelay 500; EvFetch url;
                                     EvDelay 1000; EvFetch url]))
           = (RETRY_ATTEMPTS - 1)%Z).
Proof.
  split; [| split].
  - intros k r Hk Hfail Hr Hok. unfold fetchWithRetry_default.
    apply fetchWithRetry_fuel_success; try assumption;
      unfold RETRY_ATTEMPTS; simpl; lia.
  - intros e0 e1 r H0 H1 H2 Hok. unfold fetchWithRetry_default.
    apply (fetchWithRetry_fuel_success 2); try assumption;
      [| unfold RETRY_ATTEMPTS; simpl; lia | unfold RETRY_ATTEMPTS; simpl; lia].
    intros i Hi. destruct i as [| [| i]]; [congruence | congruence | lia].
  - intros e0 e1 e2 H0 H1 H2. split; [| reflexivity].
    unfold fetchWithRetry_default.
    apply (fetchWithRetry_fuel_exhausted 2); try assumption;
      [| reflexivity | unfold RETRY_ATTEMPTS; simpl; lia].
    intros i Hi. destruct i as [| [| i]]; [congruence | congruence | lia].
Qed.

(** ** Command derivation *)

(** C2. For a canonical command whose only occurrence of [npx] is its
    leading token, the npm variant (and the variant without a runtime) is
    the command itself, and the pnpm, yarn and bun variants are the
    command with that prefix replaced by [pnpm dlx], [yarn dlx] and
    [bunx]: the rest of the command is kept unit for unit. *)
Theorem C2_getCliCommand_prefix (rest : string) :
  JS.occurrences "npx" ("npx" +:+ rest) = 1 ->
  getCliCommand ("npx" +:+ rest) (Some npm) = "npx" +:+ rest
  /\ getCliCommand ("npx" +:+ rest) None = "npx" +:+ rest
  /\ getCliCommand ("npx" +:+ rest) (Some pnpm) = "pnpm dlx" +:+ rest
  /\ getCliCommand ("npx" +:+ rest) (Some yarn) = "yarn dlx" +:+ rest
  /\ getCliCommand ("npx" +:+ rest) (Some bun) = "bunx" +:+ rest.
Proof. intros _. repeat split; reflexivity. Qed.

(** ** Matching *)

Lemma exec_lit {R : Type} (L : string) :
  forall (s : string) (cs : captures) (acc : list ascii)
         (k : string -> captures -> list ascii -> option R),
    Re.exec (Re.lit L) s cs acc k
    = match JS.strip L s with
      | Some s' => k s' cs (rev (list_ascii_of_string L) ++ acc)
      | None => None
      end.
Proof.
  induction L as [| a L IH]; intros s cs acc k; [reflexivity |].
  cbn [Re.lit Re.exec JS.strip list_ascii_of_string].
  destruct s as [| b s]; [reflexivity |].
  destruct (Ascii.eqb a b) eqn:E; [| reflexivity].
  apply Ascii.eqb_eq in E; subst b. rewrite IH.
  destruct (JS.strip L s); [| reflexivity].
  cbn [rev]. now rewrite <- app_assoc.
Qed.

Lemma at_front_lit_fail (L : string) (r : regex) (s : string) :
  JS.strip L s = None -> Re.at_front (Seq (Re.lit L) r) s = None.
Proof.
  intros H. unfold Re.at_front. cbn [Re.exec]. now rewrite exec_lit, H.
Qed.

Lemma indexOf_cons (c : ascii) (s pat : string) (n : nat) :
  JS.indexOf (String c s) pat = Some (S n) ->
  JS.strip pat (String c s) = None /\ JS.indexOf s pat = Some n.
Proof.
  cbn [JS.indexOf]. unfold JS.startsWith.
  destruct (JS.strip pat (String c s)); [discriminate |].
  destruct (JS.indexOf s pat); simpl; [| discriminate].
  intros [= ->]. now split.
Qed.

Lemma search_next (r : regex) (c : ascii) (s : string) :
  Re.at_front r (String c s) = None ->
  Re.search r (String c s) = Re.search r s.
Proof. intros H. cbn [Re.search]. now rewrite H. Qed.

(** A pattern that begins with a literal cannot match before the first
    occurrence of that literal. *)
Lemma search_skip (L : string) (r : regex) (pre s : string) :
  JS.indexOf (pre +:+ s) L = Some (String.length pre) ->
  Re.search (Seq (Re.lit L) r) (pre +:+ s) = Re.search (Seq (Re.lit L) r) s.
Proof.
  induction pre as [| c pre IH]; [reflexivity |].
  change (String c pre +:+ s) with (String c (pre +:+ s)).
  change (String.length (String c pre)) with (S (String.length pre)).
  intros H. apply indexOf_cons in H as [Hs Hi].
  rewrite search_next by now apply at_front_lit_fail.
  now apply IH.
Qed.

Lemma search_none (L : string) (r : regex) (s : string) :
  JS.indexOf s L = None -> Re.search (Seq (Re.lit L) r) s = None.
Proof.
  induction s as [| c s IH]; cbn [JS.indexOf]; unfold JS.startsWith.
  - destruct (JS.strip L "") eqn:E; [discriminate |]. intros _.
    cbn [Re.search]. now rewrite (at_front_lit_fail _ _ _ E).
  - destruct (JS.strip L (String c s)) eqn:E; [discriminate |].
    destruct (JS.indexOf s L); [discriminate |]. intros _.
    rewrite search_next by now apply at_front_lit_fail.
    now apply IH.
Qed.

(** ** Description extraction *)

Lemma extractDescription_order (frontmatter mdxContent : string) :
  extractDescription frontmatter mdxContent
  = match Re.String_match frontmatter rule_quoted with
    | Some m => JS.trim (Re.group_text m 1)
    | None =>
    match Re.String_match frontmatter rule_unquoted with
    | Some m => JS.trim (Re.group_text m 1)
    | None =>
    match Re.String_match frontmatter rule_spaced with
    | Some m => JS.trim (Re.group_text m 1)
    | None =>
    match Re.String_match mdxContent FIRST_PARAGRAPH_REGEX with
    | Some m => JS.trim (Re.group_text m 1)
    | None => EmptyString
    end end end end.
Proof.
  unfold extractDescription, rule_quoted, rule_unquoted, rule_spaced,
    DESCRIPTION_PATTERNS. cbn [first_description nth].
  repeat match goal with
         | |- context [Re.String_match ?s ?p] =>
             destruct (Re.String_match s p); try reflexivity
         end.
Qed.


(** A greedy repetition takes the whole run when what follows matches. *)
Lemma repeat_greedy_run {R : Type} (min : nat) (p : ascii -> bool)
    (k : string -> list ascii -> option R) (rest : string) (x : R) :
  run_ends p rest = true ->
  forall (u : string) (n : nat) (acc : list ascii),
    all_units p u = true ->
    min <= n + String.length u ->
    k rest (rev (list_ascii_of_string u) ++ acc) = Some x ->
    Re.repeat_loop true min p k n (u +:+ rest) acc = Some x.
Proof.
  intros Hend u. induction u as [| c u IH]; intros n acc Hall Hmin Hk.
  - change ("" +:+ rest) with rest. cbn in Hk, Hmin.
    assert (Hle : (min <=? n) = true) by (apply Nat.leb_le; lia).
    destruct rest as [| d rest]; cbn [Re.repeat_loop]; [now rewrite Hle |].
    cbn in Hend. apply negb_true_iff in Hend. now rewrite Hend, Hle.
  - change (String c u +:+ rest) with (String c (u +:+ rest)).
    cbn [all_units] in Hall. apply andb_true_iff in Hall as [Hc Hall].
    cbn [Re.repeat_loop]. rewrite Hc.
    rewrite (IH (S n) (c :: acc) Hall); [reflexivity | cbn in Hmin; lia |].
    cbn [list_ascii_of_string rev] in Hk. now rewrite <- app_assoc in Hk.
Qed.

(** A lazy repetition of any unit runs up to the first place at which
    what follows can match; what follows begins with the literal [L]. *)
Lemma repeat_lazy_run {R : Type} (L : string)
    (k : string -> list ascii -> option R) (rest : string) :
  (forall s acc, JS.strip L s = None -> k s acc = None) ->
  forall (u : string) (n : nat) (acc : list ascii),
    JS.indexOf (u +:+ rest) L = Some (String.length u) ->
    Re.repeat_loop false 0 Re.any k n (u +:+ rest) acc
    = Re.repeat_loop false 0 Re.any k (n + String.length u) rest
        (rev (list_ascii_of_string u) ++ acc).
Proof.
  intros Hk u. induction u as [| c u IH]; intros n acc Hi.
  - change ("" +:+ rest) with rest.
    cbn [String.length list_ascii_of_string rev app].
    now rewrite Nat.add_0_r.
  - change (String c u +:+ rest) with (String c (u +:+ rest)) in *.
    change (String.length (String c u)) with (S (String.length u)) in *.
    apply indexOf_cons in Hi as [Hs Hi].
    cbn [Re.repeat_loop]. cbn [Nat.leb]. rewrite (Hk _ _ Hs).
    unfold Re.any at 1. rewrite (IH (S n) (c :: acc) Hi).
    cbn [list_ascii_of_string rev]. rewrite <- app_assoc.
    now rewrite Nat.add_succ_r.
Qed.

Lemma text_rev (u : string) :
  Re.text (rev (list_ascii_of_string u) ++ []) = u.
Proof.
  unfold Re.text. rewrite app_nil_r, rev_involutive.
  apply string_of_list_ascii_of_string.
Qed.




Lemma search_here (r : regex) (s rest : string) (cs : captures) :
  Re.at_front r s = Some (cs, rest) -> Re.search r s = Some cs.
Proof. intros H. destruct s; cbn [Re.search]; now rewrite H. Qed.

Lemma lazy_stop {R : Type} (p : ascii -> bool)
    (k : string -> list ascii -> option R) (n : nat) (s : string)
    (acc : list ascii) (x : R) :
  k s acc = Some x -> Re.repeat_loop false 0 p k n s acc = Some x.
Proof. intros H. destruct s; cbn [Re.repeat_loop Nat.leb]; now rewrite H. Qed.




Lemma match_at_field (p : RegExp) (L : string) (r : regex)
    (pre s rest : string) (cs : captures) :
  anchored p = false -> source p = Seq (Re.lit L) r ->
  JS.indexOf (pre +:+ s) L = Some (String.length pre) ->
  Re.at_front (source p) s = Some (cs, rest) ->
  Re.String_match (pre +:+ s) p = Some cs.
Proof.
  intros Ha Hp Hi Hm. unfold Re.String_match. rewrite Ha.
  rewrite Hp in *. rewrite (search_skip _ _ _ _ Hi).
  now apply (search_here _ _ rest).
Qed.

(** ** Calls in flight *)

Lemma grows_refl (w : World) : grows w w.
Proof.
  split; [reflexivity |]. split; [reflexivity |].
  exists 0, []. now rewrite app_nil_r.
Qed.

Lemma grows_trans (w1 w2 w3 : World) :
  grows w1 w2 -> grows w2 w3 -> grows w1 w3.
Proof.
  intros (Hc1 & Hn1 & n1 & e1 & Hf1 & He1) (Hc2 & Hn2 & n2 & e2 & Hf2 & He2).
  split; [congruence |]. split; [congruence |].
  exists (n2 + n1), (e1 ++ e2). split; [lia |].
  now rewrite He2, He1, <- app_assoc.
Qed.

Lemma grows_after (w : World) (n : nat) (evs : list Event) :
  grows w (after w n evs).
Proof. split; [reflexivity |]. split; [reflexivity |]. now exists n, evs. Qed.

Lemma grows_with_schedule (turns : list nat) (w : World) :
  grows w (with_schedule turns w).
Proof.
  split; [reflexivity |]. split; [reflexivity |].
  exists 0, []. cbn. now rewrite app_nil_r.
Qed.

Lemma settles_weaken {A : Type} (net : nat -> string -> FetchOutcome)
    (P Q : Result A -> Prop) (t : Task A) :
  (forall r, P r -> Q r) -> settles net P t -> settles net Q t.
Proof.
  intros HPQ H. induction H as [r Hr | resume Hg _ IH].
  - apply settles_now. now apply HPQ.
  - apply settles_later; assumption.
Qed.

(** Awaited with nothing beside it, a task settles as it must. *)
Lemma finish_settles {A : Type} (net : nat -> string -> FetchOutcome)
    (P : Result A -> Prop) (t : Task A) :
  settles net P t ->
  forall w, network w = net ->
            P (fst (finish t w)) /\ grows w (snd (finish t w)).
Proof.
  induction 1 as [r Hr | resume Hg _ IH]; intros w Hw; cbn [finish].
  - split; [exact Hr | apply grows_refl].
  - specialize (Hg w Hw). specialize (IH w Hw).
    destruct (resume w) as [t' w']. cbn [fst snd] in *.
    destruct Hg as (Hc & Hn & Hrest).
    destruct (IH w') as [HP Hgrow]; [congruence |].
    split; [exact HP |].
    apply (grows_trans w w'); [now repeat split | exact Hgrow].
Qed.

Lemma await_settles {A B : Type} (net : nat -> string -> FetchOutcome)
    (P : Result A -> Prop) (Q : Result B -> Prop) (t : Task A)
    (k : Result A -> Async B) :
  settles net P t ->
  (forall r, P r -> calls net Q (k r)) ->
  calls net Q (await t k).
Proof.
  intros Ht Hk. induction Ht as [r Hr | resume Hg _ IH]; intros w Hw.
  - cbn [await]. now apply Hk.
  - cbn [await fst snd]. split; [apply grows_refl |].
    apply settles_later; intros v Hv.
    + specialize (Hg v Hv). specialize (IH v Hv).
      destruct (resume v) as [t' v']. cbn [fst snd] in *.
      apply (grows_trans v v'); [exact Hg |].
      apply IH. destruct Hg as (_ & Hn & _). congruence.
    + specialize (Hg v Hv). specialize (IH v Hv).
      destruct (resume v) as [t' v']. cbn [fst snd] in *.
      apply IH. destruct Hg as (_ & Hn & _). congruence.
Qed.

Lemma calls_sync {A : Type} (net : nat -> string -> FetchOutcome)
    (P : Result A -> Prop) (m : M A) :
  (forall w, network w = net -> grows w (snd (m w)) /\ P (fst (m w))) ->
  calls net P (sync m).
Proof.
  intros H w Hw. unfold sync. destruct (H w Hw) as [Hg HP].
  destruct (m w) as [r w']. cbn [fst snd] in *.
  split; [exact Hg | now apply settles_now].
Qed.

Lemma calls_ret {A : Type} (net : nat -> string -> FetchOutcome)
    (P : Result A -> Prop) (a : A) :
  P (Ok a) -> calls net P (sync (ret a)).
Proof.
  intros H. apply calls_sync. intros w _. split; [apply grows_refl | exact H].
Qed.

Lemma calls_throw {A : Type} (net : nat -> string -> FetchOutcome)
    (P : Result A -> Prop) (e : string) :
  P (Throw e) -> calls net P (sync (throw e)).
Proof.
  intros H. apply calls_sync. intros w _. split; [apply grows_refl | exact H].
Qed.

Lemma calls_bind {A B : Type} (net : nat -> string -> FetchOutcome)
    (P : Result A -> Prop) (Q : Result B -> Prop) (m : Async A)
    (f : A -> Async B) :
  calls net P m ->
  (forall a, P (Ok a) -> calls net Q (f a)) ->
  (forall e, P (Throw e) -> Q (Throw e)) ->
  calls net Q (async_bind m f).
Proof.
  intros Hm Hf He w Hw. unfold async_bind.
  destruct (Hm w Hw) as [Hg Ht]. destruct (m w) as [t w1].
  cbn [fst snd] in *.
  assert (Hw1 : network w1 = net) by (destruct Hg as (_ & Hn & _); congruence).
  destruct (await_settles net P Q t
              (fun r => match r with
                        | Ok a => f a
                        | Throw e => sync (throw e)
                        end) Ht) with (w := w1) as [Hg' Ht'];
    [| exact Hw1 |].
  - intros [a | e] Hr; [now apply Hf |]. apply calls_throw. now apply He.
  - split; [exact (grows_trans _ _ _ Hg Hg') | exact Ht'].
Qed.

Lemma calls_catch {A : Type} (net : nat -> string -> FetchOutcome)
    (P Q : Result A -> Prop) (m : Async A) (handler : string -> Async A) :
  calls net P m ->
  (forall a, P (Ok a) -> Q (Ok a)) ->
  (forall e, P (Throw e) -> calls net Q (handler e)) ->
  calls net Q (async_catch m handler).
Proof.
  intros Hm Hok Hh w Hw. unfold async_catch.
  destruct (Hm w Hw) as [Hg Ht]. destruct (m w) as [t w1].
  cbn [fst snd] in *.
  assert (Hw1 : network w1 = net) by (destruct Hg as (_ & Hn & _); congruence).
  destruct (await_settles net P Q t
              (fun r => match r with
                        | Ok a => sync (ret a)
                        | Throw e => handler e
                        end) Ht) with (w := w1) as [Hg' Ht'];
    [| exact Hw1 |].
  - intros [a | e] Hr; [| now apply Hh]. apply calls_ret. now apply Hok.
  - split; [exact (grows_trans _ _ _ Hg Hg') | exact Ht'].
Qed.

(** What [fetch] hands to its caller is what the network does with one
    of the calls for that URL. *)
Lemma calls_fetch (net : nat -> string -> FetchOutcome) (url : string) :
  calls net
    (fun r => exists i,
                net i url = match r with
                            | Ok response => Resolved response
                            | Throw message => Rejected message
                            end)
    (fetch_async url).
Proof.
  intros w Hw. unfold fetch_async. cbn [fst snd]. split.
  - apply (grows_after w 1 [EvFetch url]).
  - apply settles_later; intros v _; cbn [fst snd]; [apply grows_refl |].
    apply settles_now. exists (fetches w). rewrite <- Hw.
    destruct (network w (fetches w) url); reflexivity.
Qed.

Lemma calls_sleep (net : nat -> string -> FetchOutcome) (ms : Z) :
  calls net (fun r => r = Ok tt) (sleep_async ms).
Proof.
  intros w Hw. unfold sleep_async. cbn [fst snd]. split.
  - apply (grows_after w 0 [EvDelay ms]).
  - apply settles_later; intros v _; cbn [fst snd]; [apply grows_refl |].
    now apply settles_now.
Qed.

Lemma calls_response_text (net : nat -> string -> FetchOutcome)
    (r : Response) :
  calls net (fun x => x = Ok (body r)) (response_text_async r).
Proof.
  intros w Hw. unfold response_text_async. cbn [fst snd]. split.
  - apply grows_refl.
  - apply settles_later; intros v _; cbn [fst snd]; [apply grows_refl |].
    now apply settles_now.
Qed.

(** [fetchWithRetry] in flight resolves with a response of its URL that
    is [ok], and rejects with the failure of one of its fetches. *)
Lemma calls_fetchWithRetry (net : nat -> string -> FetchOutcome)
    (url : string) (fuel : nat) :
  forall retries delay : Z,
    Z.to_nat (retries - 1) <= fuel ->
    calls net
      (fun r => match r with
                | Ok response => served net url response
                | Throw error => refused net url error
                end)
      (fetchWithRetry_async_fuel fuel url retries delay).
Proof.
  induction fuel as [| fuel IH]; intros retries delay Hfuel;
    cbn [fetchWithRetry_async_fuel].
  all: apply (calls_catch net
                (fun r => match r with
                          | Ok response => served net url response
                          | Throw error => refused net url error
                          end)).
  all: try (intros a Ha; exact Ha).
  all: try (eapply calls_bind; [apply calls_fetch | |];
            [ intros response [i Hi]; cbv beta;
              destruct (ok response) eqn:Hok; cbn [negb];
              [ apply (calls_ret net
                         (fun r => match r with
                                   | Ok response => served net url response
                                   | Throw error => refused net url error
                                   end));
                now exists i
              | apply calls_throw; exists i; rewrite Hi;
                cbn [attempt_failure]; now rewrite Hok ]
            | intros e [i Hi]; exists i; now rewrite Hi ]).
  - intros e He. destruct (retries <=? 1)%Z eqn:Hr;
      [now apply calls_throw |].
    apply Z.leb_gt in Hr. lia.
  - intros e He. destruct (retries <=? 1)%Z eqn:Hr;
      [now apply calls_throw |].
    apply Z.leb_gt in Hr.
    eapply calls_bind; [apply calls_sleep | |].
    + intros [] _. apply IH. lia.
    + intros e' H. discriminate.
Qed.

Lemma calls_parseBlocksFromPage (net : nat -> string -> FetchOutcome)
    (url : string) :
  https url = true ->
  calls net (page_result net url) (parseBlocksFromPage_async url).
Proof.
  intros Hu. unfold parseBlocksFromPage_async.
  replace (negb (JS.truthy url) || negb (JS.startsWith url "https://"))
    with false
    by (unfold https in Hu; apply andb_true_iff in Hu as [-> ->];
        reflexivity).
  apply (calls_catch net
           (fun r => match r with
                     | Ok blocks => page_result net url (Ok blocks)
                     | Throw error => refused net url error
                     end)).
  - eapply calls_bind;
      [apply (calls_fetchWithRetry net url (Z.to_nat RETRY_ATTEMPTS)
                RETRY_ATTEMPTS RETRY_DELAY_MS);
       apply Nat.leb_le; reflexivity | |].
    + intros response Hr.
      eapply calls_bind; [apply calls_response_text | |].
      * intros html [= ->]. cbv zeta.
        eapply (calls_bind net (fun r => exists u, r = Ok u)).
        -- destruct (length _ =? 0).
           ++ apply calls_sync. intros w _. split; [| now exists tt].
              apply (grows_after w 0 [_]).
           ++ apply calls_ret. now exists tt.
        -- intros [] _. apply calls_ret. now exists response.
        -- intros e [u H]. discriminate.
      * intros e H. discriminate.
    + intros e He. exact He.
  - intros blocks H. exact H.
  - intros e He. apply calls_throw. now exists e.
Qed.

Lemma start_all_calls {A : Type} (net : nat -> string -> FetchOutcome)
    (Ps : list (Result A -> Prop)) (ms : list (Async A)) :
  Forall2 (calls net) Ps ms ->
  forall w, network w = net ->
            grows w (snd (start_all ms w))
            /\ Forall2 (settles net) Ps (fst (start_all ms w)).
Proof.
  induction 1 as [| P m Ps ms Hm _ IH]; intros w Hw; cbn [start_all].
  - split; [apply grows_refl | constructor].
  - destruct (Hm w Hw) as [Hg Ht]. destruct (m w) as [t w1].
    cbn [fst snd] in *.
    assert (Hw1 : network w1 = net)
      by (destruct Hg as (_ & Hn & _); congruence).
    destruct (IH w1 Hw1) as [Hg' Hts].
    destruct (start_all ms w1) as [ts w2]. cbn [fst snd] in *.
    split; [exact (grows_trans _ _ _ Hg Hg') | now constructor].
Qed.

Lemma resume_nth_settles {A : Type} (net : nat -> string -> FetchOutcome)
    (Ps : list (Result A -> Prop)) (ts : list (Task A)) :
  Forall2 (settles net) Ps ts ->
  forall n w, network w = net ->
              grows w (snd (resume_nth n ts w))
              /\ Forall2 (settles net) Ps (fst (resume_nth n ts w)).
Proof.
  induction 1 as [| P t Ps ts Ht Hts IH]; intros n w Hw; cbn [resume_nth].
  - split; [apply grows_refl | constructor].
  - destruct t as [r | resume].
    + destruct (IH n w Hw) as [Hg Hts'].
      destruct (resume_nth n ts w) as [ts' w']. cbn [fst snd] in *.
      split; [exact Hg | now constructor].
    + destruct n as [| n].
      * inversion Ht as [| resume' Hg Hs Heq]. subst resume'.
        specialize (Hg w Hw). specialize (Hs w Hw).
        destruct (resume w) as [t' w']. cbn [fst snd] in *.
        split; [exact Hg | now constructor].
      * destruct (IH n w Hw) as [Hg Hts'].
        destruct (resume_nth n ts w) as [ts' w']. cbn [fst snd] in *.
        split; [exact Hg | now constructor].
Qed.

Lemma all_fulfilled_in {A : Type} (net : nat -> string -> FetchOutcome)
    (Ps : list (Result A -> Prop)) (ts : list (Task A)) :
  Forall2 (settles net) Ps ts ->
  forall l, all_fulfilled ts = Some l -> all_in Ps (Ok l).
Proof.
  induction 1 as [| P t Ps ts Ht Hts IH]; intros l; cbn [all_fulfilled].
  - intros [= <-]. constructor.
  - destruct t as [[a | e] | resume]; try discriminate.
    destruct (all_fulfilled ts) as [l' |]; [| discriminate].
    intros [= <-]. constructor; [| now apply IH].
    now inversion Ht.
Qed.

Lemma first_rejected_in {A : Type} (net : nat -> string -> FetchOutcome)
    (Ps : list (Result A -> Prop)) (ts : list (Task A)) :
  Forall2 (settles net) Ps ts ->
  forall e, first_rejected ts = Some e -> all_in Ps (Throw e).
Proof.
  induction 1 as [| P t Ps ts Ht Hts IH]; intros e; cbn [first_rejected].
  - discriminate.
  - destruct t as [[a | e'] | resume].
    + intros H. apply Exists_cons_tl. now apply IH.
    + intros [= <-]. apply Exists_cons_hd. now inversion Ht.
    + intros H. apply Exists_cons_tl. now apply IH.
Qed.

Lemma in_order_settles {A : Type} (net : nat -> string -> FetchOutcome)
    (Ps : list (Result A -> Prop)) (ts : list (Task A)) :
  Forall2 (settles net) Ps ts ->
  forall w, network w = net ->
            grows w (snd (in_order ts w))
            /\ all_in Ps (fst (in_order ts w)).
Proof.
  induction 1 as [| P t Ps ts Ht Hts IH]; intros w Hw; cbn [in_order].
  - split; [apply grows_refl | constructor].
  - destruct (finish_settles net P t Ht w Hw) as [HP Hg].
    destruct (finish t w) as [[a | e] w1]; cbn [fst snd] in *.
    + assert (Hw1 : network w1 = net)
        by (destruct Hg as (_ & Hn & _); congruence).
      destruct (IH w1 Hw1) as [Hg' Hin].
      destruct (in_order ts w1) as [[l | e] w2]; cbn [fst snd] in *.
      * split; [exact (grows_trans _ _ _ Hg Hg') | now constructor].
      * split; [exact (grows_trans _ _ _ Hg Hg') |].
        now apply Exists_cons_tl.
    + split; [exact Hg | now apply Exists_cons_hd].
Qed.

Lemma event_loop_settles {A : Type} (net : nat -> string -> FetchOutcome)
    (Ps : list (Result A -> Prop)) (turns : list nat) :
  forall (ts : list (Task A)) (w : World),
    Forall2 (settles net) Ps ts -> network w = net ->
    grows w (snd (event_loop turns ts w))
    /\ all_in Ps (fst (event_loop turns ts w)).
Proof.
  induction turns as [| n later IH]; intros ts w Hts Hw;
    cbn [event_loop].
  all: destruct (first_rejected ts) as [e |] eqn:Hr;
    [ split; [apply grows_with_schedule
             | exact (first_rejected_in net Ps ts Hts e Hr)] |].
  all: destruct (all_fulfilled ts) as [l |] eqn:Hf;
    [ split; [apply grows_with_schedule
             | exact (all_fulfilled_in net Ps ts Hts l Hf)] |].
  - destruct (in_order_settles net Ps ts Hts (with_schedule [] w) Hw)
      as [Hg Hin].
    split; [| exact Hin].
    exact (grows_trans _ _ _ (grows_with_schedule [] w) Hg).
  - destruct (resume_nth_settles net Ps ts Hts (n mod waiting ts) w Hw)
      as [Hg Hts'].
    destruct (resume_nth (n mod waiting ts) ts w) as [ts' w'].
    cbn [fst snd] in *.
    assert (Hw' : network w' = net)
      by (destruct Hg as (_ & Hn & _); congruence).
    destruct (IH ts' w' Hts' Hw') as [Hg' Hin].
    split; [exact (grows_trans _ _ _ Hg Hg') | exact Hin].
Qed.

(** [Promise.all] over calls that settle in [Ps], under every
    schedule. *)
Lemma Promise_all_settles {A : Type} (net : nat -> string -> FetchOutcome)
    (Ps : list (Result A -> Prop)) (ms : list (Async A)) (w : World) :
  Forall2 (calls net) Ps ms -> network w = net ->
  grows w (snd (Promise_all ms w)) /\ all_in Ps (fst (Promise_all ms w)).
Proof.
  intros Hms Hw. unfold Promise_all.
  destruct (start_all_calls net Ps ms Hms w Hw) as [Hg Hts].
  destruct (start_all ms w) as [ts w1]. cbn [fst snd] in *.
  assert (Hw1 : network w1 = net)
    by (destruct Hg as (_ & Hn & _); congruence).
  destruct (event_loop_settles net Ps (schedule w1) ts w1 Hts Hw1)
    as [Hg' Hin].
  split; [exact (grows_trans _ _ _ Hg Hg') | exact Hin].
Qed.

Lemma starts_fetch_grows (url : string) (w w' : World) :
  grows (after w 1 [EvFetch url]) w' -> starts_fetch url w w'.
Proof.
  intros (_ & _ & n & evs & Hf & He). exists n, evs. cbn in *.
  split; [lia |]. now rewrite He, <- app_assoc.
Qed.

(** The first thing that [Promise.all] over calls does is what its first
    call does first. *)
Lemma Promise_all_first {A : Type} (net : nat -> string -> FetchOutcome)
    (Ps : list (Result A -> Prop)) (P : Result A -> Prop) (url : string)
    (m : Async A) (ms : list (Async A)) (w : World) :
  calls net P m -> Forall2 (calls net) Ps ms -> network w = net ->
  snd (m w) = after w 1 [EvFetch url] ->
  starts_fetch url w (snd (Promise_all (m :: ms) w)).
Proof.
  intros Hm Hms Hw Hstart. unfold Promise_all. cbn [start_all].
  destruct (Hm w Hw) as [Hg Ht]. destruct (m w) as [t w1].
  cbn [fst snd] in *. subst w1.
  destruct (start_all_calls net Ps ms Hms (after w 1 [EvFetch url]) Hw)
    as [Hg1 Hts].
  destruct (start_all ms _) as [ts w2]. cbn [fst snd] in *.
  assert (Hw2 : network w2 = net)
    by (destruct Hg1 as (_ & Hn & _); cbn in Hn; congruence).
  destruct (event_loop_settles net (P :: Ps) (schedule w2) (t :: ts) w2)
    as [Hg2 _]; [now constructor | exact Hw2 |].
  apply starts_fetch_grows. exact (grows_trans _ _ _ Hg1 Hg2).
Qed.

Lemma parseBlocksFromPage_async_start (url : string) (w : World) :
  https url = true ->
  snd (parseBlocksFromPage_async url w) = after w 1 [EvFetch url].
Proof.
  intros Hu. unfold parseBlocksFromPage_async.
  replace (negb (JS.truthy url) || negb (JS.startsWith url "https://"))
    with false
    by (unfold https in Hu; apply andb_true_iff in Hu as [-> ->];
        reflexivity).
  reflexivity.
Qed.

(** The aggregate fetch of the block pages, under every schedule: the
    cache and the network are left alone, the first thing done is the
    fetch of the first page, and the result is the blocks of both pages,
    each scraped from a response of its page that was [ok], or the
    failure of one page. *)
Lemma block_pages_settle (w : World) :
  let p := Promise_all (map parseBlocksFromPage_async BLOCK_PAGES) w in
  resourceCache (snd p) = resourceCache w
  /\ network (snd p) = network w
  /\ starts_fetch (BASE_URL +:+ "/blocks/sidebar") w (snd p)
  /\ all_in (map (page_result (network w)) BLOCK_PAGES) (fst p).
Proof.
  intros p. subst p.
  assert (Hms : Forall2 (calls (network w))
                  (map (page_result (network w)) BLOCK_PAGES)
                  (map parseBlocksFromPage_async BLOCK_PAGES)).
  { unfold BLOCK_PAGES. cbn [map].
    constructor; [now apply calls_parseBlocksFromPage |].
    constructor; [now apply calls_parseBlocksFromPage | constructor]. }
  destruct (Promise_all_settles (network w) _ _ w Hms eq_refl)
    as [(Hc & Hn & _) Hin].
  split; [exact Hc |]. split; [exact Hn |]. split; [| exact Hin].
  unfold BLOCK_PAGES in *. cbn [map] in *.
  inversion Hms as [| P m Ps ms Hm Hrest]; subst.
  apply (Promise_all_first (network w) _ _ _ _ _ w Hm Hrest eq_refl).
  now apply parseBlocksFromPage_async_start.
Qed.

(** *** A call in flight with nothing beside it is the call awaited *)

Lemma alone_await {A B : Type} (t : Task A) (k : Result A -> Async B) :
  forall w,
    alone (await t k) w = let (r, w1) := finish t w in alone (k r) w1.
Proof.
  induction t as [r | resume IH] using Task_induction; intros w.
  - reflexivity.
  - unfold alone. cbn [await finish]. specialize (IH w).
    destruct (resume w) as [t' w']. cbn [fst] in IH.
    exact (IH w').
Qed.

Lemma alone_sync {A : Type} (m : M A) (w : World) : alone (sync m) w = m w.
Proof. unfold alone, sync. now destruct (m w). Qed.

Lemma alone_bind {A B : Type} (m : Async A) (f : A -> Async B)
    (m' : M A) (g : A -> M B) (w : World) :
  (forall v, alone m v = m' v) ->
  (forall a v, alone (f a) v = g a v) ->
  alone (async_bind m f) w = bind m' g w.
Proof.
  intros Hm Hf. unfold bind. rewrite <- Hm. unfold alone at 2.
  change (alone (async_bind m f) w)
    with (let (t, w') := async_bind m f w in finish t w').
  unfold async_bind. destruct (m w) as [t w1].
  change (let (t0, w') := await t ?k w1 in finish t0 w')
    with (alone (await t k) w1).
  rewrite alone_await. destruct (finish t w1) as [[a | e] w2].
  - apply Hf.
  - apply alone_sync.
Qed.

Lemma alone_catch {A : Type} (m : Async A) (handler : string -> Async A)
    (m' : M A) (h : string -> M A) (w : World) :
  (forall v, alone m v = m' v) ->
  (forall e v, alone (handler e) v = h e v) ->
  alone (async_catch m handler) w = try_catch m' h w.
Proof.
  intros Hm Hh. unfold try_catch. rewrite <- Hm. unfold alone at 2.
  change (alone (async_catch m handler) w)
    with (let (t, w') := async_catch m handler w in finish t w').
  unfold async_catch. destruct (m w) as [t w1].
  change (let (t0, w') := await t ?k w1 in finish t0 w')
    with (alone (await t k) w1).
  rewrite alone_await. destruct (finish t w1) as [[a | e] w2].
  - apply alone_sync.
  - apply Hh.
Qed.

Lemma alone_fetch (url : string) (w : World) :
  alone (fetch_async url) w = fetch url w.
Proof.
  unfold alone, fetch_async, fetch. cbn [finish].
  destruct (network w (fetches w) url); reflexivity.
Qed.

Lemma fetchWithRetry_alone (fuel : nat) (url : string) :
  forall (retries delay : Z) (w : World),
    alone (fetchWithRetry_async_fuel fuel url retries delay) w
    = fetchWithRetry_fuel fuel url retries delay w.
Proof.
  induction fuel as [| fuel IH]; intros retries delay w;
    cbn [fetchWithRetry_async_fuel fetchWithRetry_fuel].
  all: apply alone_catch.
  all: try (intros v; apply alone_bind; [apply alone_fetch |];
            intros response u; destruct (negb (ok response));
            apply alone_sync).
  all: intros e v; destruct (retries <=? 1)%Z; try apply alone_sync.
  apply alone_bind; [reflexivity |]. intros [] u. apply IH.
Qed.

(** Awaited alone, the page in flight is [parseBlocksFromPage]. *)
Lemma parseBlocksFromPage_alone (url : string) (w : World) :
  alone (parseBlocksFromPage_async url) w = parseBlocksFromPage url w.
Proof.
  unfold parseBlocksFromPage_async, parseBlocksFromPage.
  destruct (negb (JS.truthy url) || negb (JS.startsWith url "https://"));
    [apply alone_sync |].
  apply alone_catch; [| intros e v; apply alone_sync].
  intros v. apply alone_bind.
  - intros u. apply fetchWithRetry_alone.
  - intros response u. apply alone_bind; [reflexivity |].
    intros html x. cbv zeta. apply alone_bind; [| intros; apply alone_sync].
    intros y. destruct (length _ =? 0); apply alone_sync.
Qed.

(** ** The cache *)

Lemma forEach_store (l : list ComponentDocResource) :
  forall w : World,
    forEach l (fun data => cache_set (name data) data) w
    = (Ok tt, with_cache (store_all l (resourceCache w)) w).
Proof.
  induction l as [| d l IH]; intros w.
  - destruct w; reflexivity.
  - cbn [forEach]. unfold bind at 1, cache_set at 1. rewrite IH. reflexivity.
Qed.

(** What a call of [fetchAndCache] does, by the outcome of its parts. *)
Lemma fetchAndCache_cases {A : Type} (key : string) (fetchFn : M A)
    (transformFn : A -> Result (list ComponentDocResource)) (w : World) :
  fetchAndCache key fetchFn transformFn w
  = match fetchFn w with
    | (Ok rawData, w1) =>
        match transformFn rawData with
        | Ok l => (Ok l, with_cache (store_all l (resourceCache w1)) w1)
        | Throw error => (Throw (fetch_failed key error), w1)
        end
    | (Throw error, w1) => (Throw (fetch_failed key error), w1)
    end.
Proof.
  unfold fetchAndCache, try_catch, bind at 1.
  destruct (fetchFn w) as [[rawData | error] w1]; [| reflexivity].
  unfold bind at 1, lift. destruct (transformFn rawData) as [l | error];
    [| reflexivity].
  unfold bind. rewrite forEach_store. reflexivity.
Qed.

Lemma fetchWithRetry_default_frame (url : string) (w : World) :
  exists n evs,
    snd (fetchWithRetry_default url w) = after w (S n) evs
    /\ hd_error evs = Some (EvFetch url).
Proof. apply fetchWithRetry_frame. Qed.

Lemma transformComponentData_one (component mdxContent : string) :
  transformComponentData component mdxContent
  = [component_resource component mdxContent]
  /\ name (component_resource component mdxContent) = component.
Proof. split; reflexivity. Qed.

(** What a component lookup does, case by case. *)
Lemma fetchAndCacheComponentData_cases (component : string) (w : World) :
  fetchAndCacheComponentData component w
  = if negb (valid_name component)
    then (Throw (if JS.truthy component
                 then "Invalid component name: " +:+ component
                 else "Invalid component name"), w)
    else
      match resourceCache w !! component with
      | Some data => (Ok data, w)
      | None =>
          match fetchWithRetry_default (component_url component) w with
          | (Ok response, w1) =>
              let data := component_resource component (body response) in
              (Ok data,
               with_cache (<[component := data]> (resourceCache w1)) w1)
          | (Throw error, w1) => (Throw (fetch_failed component error), w1)
          end
      end.
Proof.
  unfold fetchAndCacheComponentData, valid_name.
  destruct (JS.truthy component); [| reflexivity]. cbn [negb andb].
  destruct (String.eqb _ component); [| reflexivity]. cbn [negb].
  unfold bind at 1, cache_get.
  destruct (resourceCache w !! component) as [data |]; [reflexivity |].
  unfold bind at 1. rewrite fetchAndCache_cases.
  unfold bind at 1, response_text.
  destruct (fetchWithRetry_default (component_url component) w)
    as [[response | error] w1]; [| reflexivity].
  reflexivity.
Qed.

Lemma fetchWithRetry_default_first (url : string) :
  fetches_first url (fetchWithRetry_default url).
Proof.
  intros w. destruct (fetchWithRetry_default_frame url w)
    as (n & evs & Hw & Hhd).
  destruct evs as [| e evs]; [discriminate |]. injection Hhd as ->.
  now exists n, evs.
Qed.

Lemma fetches_first_net_only {A : Type} (url : string) (m : M A) :
  fetches_first url m -> net_only m.
Proof. intros H w. destruct (H w) as (n & evs & Hw). eauto. Qed.

Lemma emit_after (e : Event) (w : World) : emit e w = after w 0 [e].
Proof. reflexivity. Qed.

(** What scraping one page does, by the outcome of its download. *)
Lemma parseBlocksFromPage_cases (url : string) (w : World) :
  parseBlocksFromPage url w
  = if negb (https url) then (Throw ("Invalid URL: " +:+ url), w)
    else
      match fetchWithRetry_default url w with
      | (Ok response, w1) =>
          let blocks :=
            List.flat_map scrape_block
              (Dom.select (loadCheerio (body response)) BLOCK_ELEMENTS) in
          (Ok blocks,
           if length blocks =? 0 then emit (no_blocks url) w1 else w1)
      | (Throw error, w1) => (Throw (page_failed url error), w1)
      end.
Proof.
  unfold parseBlocksFromPage, https. rewrite negb_andb.
  destruct (negb (JS.truthy url) || negb (JS.startsWith url "https://"));
    [reflexivity |].
  unfold try_catch, bind at 1.
  destruct (fetchWithRetry_default url w) as [[response | error] w1];
    [| reflexivity].
  unfold bind at 1, response_text, ret. unfold bind.
  destruct (length _ =? 0); reflexivity.
Qed.

Lemma parseBlocksFromPage_first (url : string) :
  https url = true -> fetches_first url (parseBlocksFromPage url).
Proof.
  intros Hu w. rewrite parseBlocksFromPage_cases, Hu. cbn [negb].
  destruct (fetchWithRetry_default_first url w) as (n & evs & Hw).
  destruct (fetchWithRetry_default url w) as [[response | error] w1];
    cbn [snd] in *; subst w1.
  - cbv zeta. destruct (length _ =? 0).
    + rewrite emit_after, after_after. eexists n, (evs ++ [_]).
      apply after_eq; [lia | reflexivity].
    + eauto.
  - eauto.
Qed.

(** What the aggregate over the block pages does. *)
Lemma fetchAndCacheBlocks_cases (w : World) :
  fetchAndCacheBlocks w
  = match Promise_all (map parseBlocksFromPage_async BLOCK_PAGES) w with
    | (Ok blockPages, w1) =>
        (Ok (transformBlocks blockPages),
         with_cache
           (store_all (transformBlocks blockPages) (resourceCache w1)) w1)
    | (Throw error, w1) => (Throw (fetch_failed "blocks" error), w1)
    end.
Proof.
  unfold fetchAndCacheBlocks. rewrite fetchAndCache_cases.
  destruct (Promise_all _ w) as [[blockPages | error] w1]; reflexivity.
Qed.

Lemma after_cache (w : World) (n : nat) (evs : list Event) :
  resourceCache (after w n evs) = resourceCache w.
Proof. reflexivity. Qed.

Lemma starts_fetch_after (url : string) (w : World) (n : nat)
    (evs : list Event) :
  starts_fetch url w (after w (S n) (EvFetch url :: evs)).
Proof. exists n, evs. split; reflexivity. Qed.

Lemma starts_fetch_with_cache (url : string) (w w' : World)
    (c : gmap string ComponentDocResource) :
  starts_fetch url w w' -> starts_fetch url w (with_cache c w').
Proof. intros (n & evs & Hf & He). exists n, evs. now split. Qed.

(** What a block lookup does, case by case. *)
Lemma getBlockData_cases (block : string) (w : World) :
  getBlockData block w
  = if negb (JS.truthy block) then (Ok (inl "Block name is required"), w)
    else
      match resourceCache w !! block with
      | Some data => (Ok (inr data), w)
      | None =>
          match fetchAndCacheBlocks w with
          | (Ok _, w1) =>
              (Ok match resourceCache w1 !! block with
                  | Some data => inr data
                  | None => inl (block_not_found block)
                  end, w1)
          | (Throw error, w1) => (Throw error, w1)
          end
      end.
Proof.
  unfold getBlockData. destruct (JS.truthy block); [| reflexivity].
  cbn [negb]. unfold bind at 1, cache_get at 1.
  destruct (resourceCache w !! block) as [data |]; [reflexivity |].
  unfold bind at 1, bind at 1.
  destruct (fetchAndCacheBlocks w) as [[l | error] w1]; [| reflexivity].
  unfold cache_get.
  destruct (resourceCache w1 !! block); reflexivity.
Qed.

Lemma fetchAndCache_throw {A : Type} (key : string) (fetchFn : M A)
    (transformFn : A -> Result (list ComponentDocResource))
    (w w' : World) (e : string) :
  net_only fetchFn ->
  fetchAndCache key fetchFn transformFn w = (Throw e, w') ->
  resourceCache w' = resourceCache w.
Proof.
  intros Hnet. rewrite fetchAndCache_cases.
  destruct (Hnet w) as (n & evs & Hw).
  destruct (fetchFn w) as [[rawData | error] w1]; cbn [snd] in Hw; subst w1.
  - destruct (transformFn rawData); [discriminate |].
    now intros [= _ <-].
  - now intros [= _ <-].
Qed.

Lemma fetchAndCacheComponentData_throw (component : string) (w w' : World)
    (e : string) :
  fetchAndCacheComponentData component w = (Throw e, w') ->
  resourceCache w' = resourceCache w
  /\ (valid_name component = true ->
      resourceCache w !! component = None
      /\ starts_fetch (component_url component) w w').
Proof.
  rewrite fetchAndCacheComponentData_cases.
  destruct (valid_name component); cbn [negb].
  - destruct (resourceCache w !! component) as [data |]; [discriminate |].
    destruct (fetchWithRetry_default_first (component_url component) w)
      as (n & evs & Hw).
    destruct (fetchWithRetry_default (component_url component) w)
      as [[response | error] w1]; [discriminate |].
    cbn [snd] in Hw. subst w1. intros [= _ <-].
    split; [reflexivity |]. intros _. split; [reflexivity |].
    apply starts_fetch_after.
  - intros [= _ <-]. split; [reflexivity | discriminate].
Qed.

(** A lookup of a valid name that is not cached goes to the network. *)
Lemma fetchAndCacheComponentData_miss (component : string) (w : World) :
  valid_name component = true ->
  resourceCache w !! component = None ->
  starts_fetch (component_url component) w
    (snd (fetchAndCacheComponentData component w)).
Proof.
  intros Hv Hc. rewrite fetchAndCacheComponentData_cases, Hv, Hc.
  cbn [negb].
  destruct (fetchWithRetry_default_first (component_url component) w)
    as (n & evs & Hw).
  destruct (fetchWithRetry_default (component_url component) w)
    as [[response | error] w1]; cbn [snd] in *; subst w1.
  - apply starts_fetch_with_cache, starts_fetch_after.
  - apply starts_fetch_after.
Qed.

Lemma fetchAndCacheBlocks_throw (w w' : World) (e : string) :
  fetchAndCacheBlocks w = (Throw e, w') ->
  resourceCache w' = resourceCache w
  /\ starts_fetch (BASE_URL +:+ "/blocks/sidebar") w w'.
Proof.
  rewrite fetchAndCacheBlocks_cases.
  destruct (block_pages_settle w) as (Hc & _ & Hs & _).
  destruct (Promise_all (map parseBlocksFromPage_async BLOCK_PAGES) w)
    as [[blockPages | error] w1]; [discriminate |].
  cbn [snd] in *. intros [= _ <-]. now split.
Qed.

Lemma fetchAndCacheBlocks_starts (w : World) :
  starts_fetch (BASE_URL +:+ "/blocks/sidebar") w
    (snd (fetchAndCacheBlocks w)).
Proof.
  rewrite fetchAndCacheBlocks_cases.
  destruct (block_pages_settle w) as (_ & _ & Hs & _).
  destruct (Promise_all (map parseBlocksFromPage_async BLOCK_PAGES) w)
    as [[blockPages | error] w1]; cbn [snd] in *.
  - now apply starts_fetch_with_cache.
  - exact Hs.
Qed.

Lemma getBlockData_throw (block : string) (w w' : World) (e : string) :
  getBlockData block w = (Throw e, w') ->
  resourceCache w' = resourceCache w
  /\ JS.truthy block = true
  /\ resourceCache w !! block = None
  /\ starts_fetch (BASE_URL +:+ "/blocks/sidebar") w w'.
Proof.
  rewrite getBlockData_cases. destruct (JS.truthy block); [| discriminate].
  cbn [negb]. destruct (resourceCache w !! block); [discriminate |].
  destruct (fetchAndCacheBlocks w) as [[l | error] w1] eqn:E;
    [discriminate |].
  intros [= _ <-]. apply fetchAndCacheBlocks_throw in E as [Hc Hs].
  repeat split; assumption.
Qed.

Lemma getBlockData_miss (block : string) (w : World) :
  JS.truthy block = true -> resourceCache w !! block = None ->
  starts_fetch (BASE_URL +:+ "/blocks/sidebar") w
    (snd (getBlockData block w)).
Proof.
  intros Hb Hc. rewrite getBlockData_cases, Hb, Hc. cbn [negb].
  pose proof (fetchAndCacheBlocks_starts w) as Hs.
  destruct (fetchAndCacheBlocks w) as [[l | error] w1]; exact Hs.
Qed.

(** C7. When the fetch or the transform step throws, the cache is left
    as it was, no entry being inserted for the name, and the next lookup
    of the same name starts another fetch: for [fetchAndCache] with any
    fetch function that works on the network only, for a component
    lookup, for the aggregate over the block pages, for a block lookup,
    and for [cacheResource] on the map it is given. *)
Theorem C7_failure_leaves_cache :
  (forall (A : Type) (key : string) (fetchFn : M A)
          (transformFn : A -> Result (list ComponentDocResource))
          (w w' : World) (e : string),
      net_only fetchFn ->
      fetchAndCache key fetchFn transformFn w = (Throw e, w') ->
      resourceCache w' = resourceCache w)
  /\ (forall (component : string) (w w' : World) (e : string),
        fetchAndCacheComponentData component w = (Throw e, w') ->
        resourceCache w' = resourceCache w
        /\ (valid_name component = true ->
            resourceCache w' !! component = None
            /\ starts_fetch (component_url component) w w'
            /\ starts_fetch (component_url component) w'
                 (snd (fetchAndCacheComponentData component w'))))
  /\ (forall (w w' : World) (e : string),
        fetchAndCacheBlocks w = (Throw e, w') ->
        resourceCache w' = resourceCache w)
  /\ (forall (block : string) (w w' : World) (e : string),
        getBlockData block w = (Throw e, w') ->
        resourceCache w' = resourceCache w
        /\ resourceCache w' !! block = None
        /\ starts_fetch (BASE_URL +:+ "/blocks/sidebar") w'
             (snd (getBlockData block w')))
  /\ (forall (T : Type) (key : string) (fetchFn : M T)
             (cache cache' : gmap string T) (w w' : World) (e : string),
        cacheResource key fetchFn cache w = ((Throw e, cache'), w') ->
        cache' = cache /\ cache' !! key = None).
Proof.
  split; [| split; [| split; [| split]]].
  - intros A key fetchFn transformFn w w' e. apply fetchAndCache_throw.
  - intros component w w' e H.
    apply fetchAndCacheComponentData_throw in H as [Hc Hv].
    split; [exact Hc |]. intros Hvalid. destruct (Hv Hvalid) as [Hm Hs].
    rewrite Hc. repeat split; try assumption.
    apply fetchAndCacheComponentData_miss; [exact Hvalid | now rewrite Hc].
  - intros w w' e H. now apply fetchAndCacheBlocks_throw in H.
  - intros block w w' e H.
    apply getBlockData_throw in H as (Hc & Hb & Hm & Hs).
    rewrite Hc. repeat split; try assumption.
    apply getBlockData_miss; [exact Hb | now rewrite Hc].
  - intros T key fetchFn cache cache' w w' e. unfold cacheResource.
    destruct (cache !! key) eqn:Hk; [discriminate |].
    destruct (fetchFn w) as [[data | error] w1]; [discriminate |].
    now intros [= _ <- _].
Qed.

(** ** The aggregate over the block pages *)





(** ** Lookups of a cached name *)

Lemma store_all_lookup (l : list ComponentDocResource) :
  forall (c : gmap string ComponentDocResource) (n : string),
    store_all l c !! n
    = match last_named n l with
      | Some r => Some r
      | None => c !! n
      end.
Proof.
  induction l as [| d l IH]; intros c n; [reflexivity |].
  cbn [store_all fold_left last_named]. fold (store_all l (<[name d := d]> c)).
  rewrite IH. destruct (last_named n l); [reflexivity |].
  destruct (String.eqb (name d) n) eqn:E.
  - apply String.eqb_eq in E. subst n. apply lookup_insert_eq.
  - apply String.eqb_neq in E. now rewrite lookup_insert_ne.
Qed.

Lemma last_named_name (n : string) (l : list ComponentDocResource)
    (r : ComponentDocResource) :
  last_named n l = Some r -> name r = n /\ In r l.
Proof.
  induction l as [| d l IH]; [discriminate |]. cbn [last_named In].
  destruct (last_named n l) as [r' |].
  - intros [= <-]. destruct (IH eq_refl) as [Hn Hi]. auto.
  - destruct (String.eqb (name d) n) eqn:E; [| discriminate].
    intros [= <-]. apply String.eqb_eq in E. auto.
Qed.

Lemma last_named_none (n : string) (l : list ComponentDocResource) :
  last_named n l = None <-> ~ In n (map name l).
Proof.
  induction l as [| d l IH]; cbn [last_named map In]; [tauto |].
  destruct (last_named n l) as [r |] eqn:El.
  - split; [discriminate |]. intros H. exfalso. apply H. right.
    destruct (last_named_name n l r El) as [Hn Hi].
    subst n. now apply in_map.
  - destruct (String.eqb (name d) n) eqn:E.
    + apply String.eqb_eq in E. split; [discriminate | tauto].
    + apply String.eqb_neq in E. split; [| reflexivity].
      intros _ [H | H]; [congruence | now apply IH].
Qed.

(** What the aggregate returns is what it leaves in the cache, over
    whatever was there. *)
Lemma fetchAndCacheBlocks_stores (w w' : World)
    (l : list ComponentDocResource) :
  fetchAndCacheBlocks w = (Ok l, w') ->
  exists blockPages,
    fst (Promise_all (map parseBlocksFromPage_async BLOCK_PAGES) w)
    = Ok blockPages
    /\ l = transformBlocks blockPages
    /\ (forall n,
          resourceCache w' !! n
          = match last_named n l with
            | Some r => Some r
            | None => resourceCache w !! n
            end).
Proof.
  rewrite fetchAndCacheBlocks_cases.
  destruct (block_pages_settle w) as (Hc & _).
  destruct (Promise_all (map parseBlocksFromPage_async BLOCK_PAGES) w)
    as [[blockPages | error] w1]; [| discriminate].
  cbn [snd] in Hc. intros [= <- <-]. exists blockPages.
  split; [reflexivity |]. split; [reflexivity |].
  intros n. cbn [with_cache resourceCache]. rewrite Hc.
  apply store_all_lookup.
Qed.


Lemma store_all_keeps (l : list ComponentDocResource) :
  forall (c : gmap string ComponentDocResource) (n : string),
    is_Some (c !! n) -> is_Some (store_all l c !! n).
Proof.
  induction l as [| d l IH]; intros c n H; [exact H |].
  cbn [store_all fold_left]. apply IH.
  destruct (decide (name d = n)) as [-> | Hne].
  - rewrite lookup_insert_eq. eauto.
  - now rewrite lookup_insert_ne.
Qed.


Lemma getBlockData_hit (n : string) (w : World) (r : ComponentDocResource) :
  JS.truthy n = true -> resourceCache w !! n = Some r ->
  getBlockData n w = (Ok (inr r), w).
Proof. intros Hv Hc. now rewrite getBlockData_cases, Hv, Hc. Qed.

Lemma fetchAndCacheComponentData_resolves (n : string) (w w1 : World)
    (r : ComponentDocResource) :
  fetchAndCacheComponentData n w = (Ok r, w1) ->
  valid_name n = true /\ resourceCache w1 !! n = Some r.
Proof.
  rewrite fetchAndCacheComponentData_cases.
  destruct (valid_name n); cbn [negb]; [| discriminate].
  destruct (resourceCache w !! n) as [data |] eqn:Hc.
  - intros [= <- <-]. now split.
  - destruct (fetchWithRetry_default (component_url n) w)
      as [[response | error] w']; [| discriminate].
    cbv zeta. intros [= <- <-]. split; [reflexivity |].
    cbn [with_cache resourceCache]. apply lookup_insert_eq.
Qed.



Lemma fetchAndCacheBlocks_keeps (w : World) (n : string) :
  is_Some (resourceCache w !! n) ->
  is_Some (resourceCache (snd (fetchAndCacheBlocks w)) !! n).
Proof.
  intros H. rewrite fetchAndCacheBlocks_cases.
  destruct (block_pages_settle w) as (Hc & _).
  destruct (Promise_all (map parseBlocksFromPage_async BLOCK_PAGES) w)
    as [[blockPages | error] w1]; cbn [snd] in *.
  - cbn [with_cache resourceCache]. rewrite Hc. now apply store_all_keeps.
  - now rewrite Hc.
Qed.








(** ** install-component and install-blocks *)


Lemma createResponse_error (message : string) (m : option string) :
  isError (createResponse message true m) = true.
Proof. reflexivity. Qed.


Lemma installComponent_selects (component : string)
    (runtime : option string) (w w' : World) (data : ComponentDocResource) :
  present runtime = false ->
  fetchAndCacheComponentData component w = (Ok data, w') ->
  installComponent component runtime w
  = (select_command "component" component runtime data, w').
Proof.
  intros Hp H. unfold installComponent, handler.
  destruct (fetchAndCacheComponentData_resolves _ _ _ _ H) as [Hv _].
  unfold valid_name in Hv. apply andb_true_iff in Hv as [Ht _].
  rewrite Ht, Hp. cbn [negb andb]. unfold bind. now rewrite H.
Qed.

Lemma installBlock_selects (block : string) (runtime : option string)
    (w w' : World) (data : ComponentDocResource) :
  present runtime = false ->
  getBlockData block w = (Ok (inr data), w') ->
  installBlock block runtime w
  = (select_command "block" block runtime data, w').
Proof.
  intros Hp H. unfold installBlock, handler.
  rewrite Hp. cbn [andb]. unfold bind. now rewrite H.
Qed.

Lemma select_command_npm (kind subject : string) (runtime : option string)
    (data : ComponentDocResource) (commands : CommandSet) :
  given runtime = None ->
  first_commands data = Some commands ->
  cs_npm commands <> EmptyString ->
  select_command kind subject runtime data
  = {| text := cs_npm commands; isError := false; mimeType := None |}.
Proof.
  intros Hg Hc Ht. unfold select_command. rewrite Hc, Hg.
  destruct (cs_npm commands); [congruence | reflexivity].
Qed.

Lemma select_command_no_npm (kind subject : string) (runtime : option string)
    (data : ComponentDocResource) (commands : CommandSet) :
  given runtime = None ->
  first_commands data = Some commands ->
  cs_npm commands = EmptyString ->
  select_command kind subject runtime data
  = {| text := "No installation command found for runtime '"
               +:+ show runtime +:+ "'";
       isError := true; mimeType := None |}.
Proof.
  intros Hg Hc Ht. unfold select_command. now rewrite Hc, Hg, Ht.
Qed.

Lemma select_command_none (kind subject : string) (r1 r2 : option string)
    (data : ComponentDocResource) :
  first_commands data = None ->
  select_command kind subject r1 data = select_command kind subject r2 data.
Proof. intros Hc. unfold select_command. now rewrite Hc. Qed.

(** C10, as the code has it.  A runtime that is present but empty
    passes the validation, as an absent one does.  When the resource
    found has an npm command that is not empty, install-component and
    install-blocks answer with that command, for the empty runtime as
    for no runtime.  When the npm command of the resource is empty, both
    calls answer with an error whose text quotes the runtime, so the two
    answers differ.  In every other case (no resource, no command set)
    the two calls end alike. *)
Theorem C10_empty_runtime_is_npm :
  validateRuntime (Some EmptyString) = true
  /\ validateRuntime None = true
  /\ (forall (component : string) (w w' : World)
             (data : ComponentDocResource) (commands : CommandSet),
        fetchAndCacheComponentData component w = (Ok data, w') ->
        first_commands data = Some commands ->
        (cs_npm commands <> EmptyString ->
         installComponent component (Some EmptyString) w
         = ({| text := cs_npm commands; isError := false;
               mimeType := None |}, w')
         /\ installComponent component None w
            = ({| text := cs_npm commands; isError := false;
                  mimeType := None |}, w'))
        /\ (cs_npm commands = EmptyString ->
            installComponent component (Some EmptyString) w
            = ({| text := "No installation command found for runtime ''";
                  isError := true; mimeType := None |}, w')
            /\ installComponent component None w
               = ({| text := "No installation command found for runtime "
                             +:+ "'undefined'";
                     isError := true; mimeType := None |}, w')))
  /\ (forall (block : string) (w w' : World)
             (data : ComponentDocResource) (commands : CommandSet),
        getBlockData block w = (Ok (inr data), w') ->
        first_commands data = Some commands ->
        (cs_npm commands <> EmptyString ->
         installBlock block (Some EmptyString) w
         = ({| text := cs_npm commands; isError := false;
               mimeType := None |}, w')
         /\ installBlock block None w
            = ({| text := cs_npm commands; isError := false;
                  mimeType := None |}, w'))
        /\ (cs_npm commands = EmptyString ->
            installBlock block (Some EmptyString) w
            = ({| text := "No installation command found for runtime ''";
                  isError := true; mimeType := None |}, w')
            /\ installBlock block None w
               = ({| text := "No installation command found for runtime "
                             +:+ "'undefined'";
                     isError := true; mimeType := None |}, w')))
  /\ (forall (component : string) (w : World),
        (forall data w',
            fetchAndCacheComponentData component w = (Ok data, w') ->
            first_commands data = None) ->
        installComponent component (Some EmptyString) w
        = installComponent component None w)
  /\ (forall (block : string) (w : World),
        (forall data w',
            getBlockData block w = (Ok (inr data), w') ->
            first_commands data = None) ->
        installBlock block (Some EmptyString) w
        = installBlock block None w).
Proof.
  split; [reflexivity |]. split; [reflexivity |].
  split; [| split; [| split]].
  - intros component w w' data commands H Hc. split; intros Ht.
    + rewrite !(installComponent_selects component _ w w' data);
        try reflexivity; try exact H.
      now rewrite !(select_command_npm _ _ _ data commands).
    + rewrite !(installComponent_selects component _ w w' data);
        try reflexivity; try exact H.
      now rewrite !(select_command_no_npm _ _ _ data commands).
  - intros block w w' data commands H Hc. split; intros Ht.
    + rewrite !(installBlock_selects block _ w w' data);
        try reflexivity; try exact H.
      now rewrite !(select_command_npm _ _ _ data commands).
    + rewrite !(installBlock_selects block _ w w' data);
        try reflexivity; try exact H.
      now rewrite !(select_command_no_npm _ _ _ data commands).
  - intros component w Hall. unfold installComponent, handler.
    destruct (JS.truthy component); cbn [negb]; [| reflexivity].
    cbn [present given JS.truthy andb]. unfold bind.
    destruct (fetchAndCacheComponentData component w)
      as [[data | error] w'] eqn:E; [| reflexivity].
    unfold ret. f_equal. apply select_command_none. now apply (Hall data w').
  - intros block w Hall. unfold installBlock, handler.
    cbn [present given JS.truthy andb]. unfold bind.
    destruct (getBlockData block w) as [[[error | data] | error] w'] eqn:E;
      try reflexivity.
    unfold ret. f_equal. apply select_command_none. now apply (Hall data w').
Qed.

(** ** Selections *)

Lemma node_induction (P : node -> Prop) :
  (forall data, P (Text data)) ->
  (forall tag attrs children,
      Forall P children -> P (Element tag attrs children)) ->
  forall n, P n.
Proof.
  intros Ht He. fix IH 1. intros [tag attrs children | data].
  - apply He. revert children. fix IHc 1. intros [| c children].
    + constructor.
    + constructor; [apply IH | apply IHc].
  - apply Ht.
Qed.

(** A selector without combinators selects, in document order, the
    elements that satisfy its compound. *)
Lemma select_in_simple (c : compound) (n : node) :
  forall ancestors,
    Dom.select_in (Simple c) ancestors n
    = List.filter
        (fun el => match el with
                   | Element tag attrs _ =>
                       Dom.matches_compound c (tag, attrs)
                   | Text _ => false
                   end)
        (elements_of n).
Proof.
  induction n as [data | tag attrs children IH] using node_induction;
    intros ancestors; [reflexivity |].
  cbn [Dom.select_in elements_of List.filter Dom.matches].
  assert (Hkids : forall anc,
             List.flat_map (Dom.select_in (Simple c) anc) children
             = List.filter
                 (fun el => match el with
                            | Element tag attrs _ =>
                                Dom.matches_compound c (tag, attrs)
                            | Text _ => false
                            end)
                 (List.flat_map elements_of children)).
  { intros anc. induction IH as [| k children Hk _ IHk]; [reflexivity |].
    cbn [List.flat_map]. rewrite List.filter_app, Hk, IHk. reflexivity. }
  rewrite Hkids.
  destruct (Dom.matches_compound c (tag, attrs)); reflexivity.
Qed.

Lemma component_anchors_selected (d : document) :
  Dom.select d COMPONENT_ANCHORS
  = List.filter is_component_anchor (all_elements d).
Proof.
  unfold Dom.select, all_elements, COMPONENT_ANCHORS.
  induction d as [| n d IH]; [reflexivity |].
  cbn [List.flat_map]. rewrite List.filter_app, <- IH, select_in_simple.
  f_equal. apply List.filter_ext. intros [tag attrs children | data];
    [| reflexivity].
  unfold Dom.matches_compound, is_component_anchor.
  cbn [sel_tag sel_classes sel_attr forallb fst snd Dom.test_attr].
  now rewrite andb_true_r.
Qed.

(** ** Sorting *)

Lemma insert_sorted_perm (x : string) (l : list string) :
  Permutation (insert_sorted x l) (x :: l).
Proof.
  induction l as [| y l IH]; cbn [insert_sorted]; [reflexivity |].
  destruct (String.leb x y); [reflexivity |].
  rewrite IH. apply perm_swap.
Qed.

Lemma Array_sort_perm (l : list string) : Permutation (Array_sort l) l.
Proof.
  induction l as [| x l IH]; cbn; [reflexivity |].
  fold (Array_sort l). rewrite insert_sorted_perm. now constructor.
Qed.

Lemma insert_sorted_sorted (x : string) (l : list string) :
  Sorted code_unit_le l -> Sorted code_unit_le (insert_sorted x l).
Proof.
  induction 1 as [| y l Hs IH Hhd]; cbn [insert_sorted].
  - repeat constructor.
  - destruct (String.leb x y) eqn:E.
    + constructor; [now constructor | now constructor].
    + assert (Hyx : code_unit_le y x).
      { destruct (String.leb_total x y) as [H | H]; [congruence | exact H]. }
      constructor; [exact IH |].
      destruct l as [| z l]; cbn [insert_sorted].
      * now constructor.
      * destruct (String.leb x z); constructor; [exact Hyx |].
        now inversion Hhd.
Qed.

Lemma Array_sort_sorted (l : list string) :
  Sorted code_unit_le (Array_sort l).
Proof.
  induction l as [| x l IH]; cbn; [constructor |].
  now apply insert_sorted_sorted.
Qed.

(** C5, as the code has it.  For every page that is not the empty
    string the component scraper returns, and never throws: the anchors
    it reads are exactly those whose reference path begins with
    [/docs/components/], each gives the last segment of its path, the
    empty segments are dropped, and the names are returned in ascending
    order of code units.  When no name is left, the result is the empty
    list and a diagnostic is logged. *)
Theorem C5_parseComponentsFromHtml (html : string) (w : World) :
  html <> EmptyString ->
  let names :=
    List.filter JS.truthy
      (omap component_name
         (List.filter is_component_anchor (all_elements (loadCheerio html)))) in
  exists components,
    parseComponentsFromHtml html w
    = (Ok components,
       match components with
       | [] => emit no_components w
       | _ :: _ => w
       end)
    /\ Sorted code_unit_le components
    /\ Permutation components names
    /\ (names = [] -> components = []).
Proof.
  intros Hne names. exists (Array_sort names).
  split; [| split; [apply Array_sort_sorted | split]].
  - unfold parseComponentsFromHtml.
    destruct html as [| c html]; [congruence |]. cbn [JS.truthy negb].
    unfold try_catch, bind. rewrite component_anchors_selected.
    fold names. destruct (Array_sort names); reflexivity.
  - apply Array_sort_perm.
  - now intros ->.
Qed.

(** ** Blocks *)

Lemma Forall_flat_map {A B : Type} (P : B -> Prop) (f : A -> list B)
    (l : list A) :
  (forall a, Forall P (f a)) -> Forall P (List.flat_map f l).
Proof.
  intros H. induction l as [| a l IH]; cbn [List.flat_map].
  - constructor.
  - apply Forall_app. now split.
Qed.

(** The scraper of helpers.ts keeps an element only under an id that is
    not empty and does not begin with [radix-]. *)
Lemma parseBlocksFromPage_names (url : string) (w w' : World)
    (blocks : list Block) :
  parseBlocksFromPage url w = (Ok blocks, w') ->
  Forall (fun b => JS.truthy (block_name b) = true
                   /\ JS.startsWith (block_name b) "radix-" = false)
         blocks.
Proof.
  rewrite parseBlocksFromPage_cases.
  destruct (negb (https url)); [discriminate |].
  destruct (fetchWithRetry_default url w) as [[response | error] w1];
    [| discriminate].
  cbv zeta. intros [= <- _]. apply Forall_flat_map. intros el.
  unfold scrape_block. destruct (Dom.node_attr el "id") as [id |];
    [| constructor].
  destruct (JS.truthy id) eqn:Ht; cbn [andb]; [| constructor].
  destruct (JS.startsWith id "radix-") eqn:Hr; cbn [negb];
    constructor; [| constructor].
  cbn [block_name]. now split.
Qed.

(** The scraper of parsers.ts keeps an element only when its name, its
    command and its code sample are all present. *)
Lemma legacy_parseBlocksFromPage_complete (url : string) (w w' : World)
    (blocks : list LegacyBlock) :
  legacy_parseBlocksFromPage url w = (Ok blocks, w') ->
  Forall (fun b => JS.truthy (legacy_name b) = true
                   /\ JS.truthy (legacy_command b) = true
                   /\ JS.truthy (legacy_code b) = true)
         blocks.
Proof.
  unfold legacy_parseBlocksFromPage, bind, fetch, response_text, ret.
  destruct (network w (fetches w) url) as [m | response]; [discriminate |].
  intros [= <- _]. apply Forall_flat_map. intros el.
  unfold legacy_scrape_block.
  destruct (JS.truthy _ && JS.truthy _ && JS.truthy _) eqn:E;
    constructor; [| constructor].
  apply andb_true_iff in E as [E Hc]. apply andb_true_iff in E as [Hn Hm].
  cbn [legacy_name legacy_command legacy_code]. now repeat split.
Qed.

(** ** More on the fetcher *)

(** X1. For a whole number of attempts and a whole delay with which the
    call stays within the safe integers, [fetchWithRetry] ends after at
    most [max 1 retries] calls of [fetch], all for the given URL, with
    the doubling delays between them; it returns the first response that
    is [ok], or throws the failure of the last attempt allowed; the
    cache and the network are left as they were. *)
Theorem X1_fetchWithRetry_bounded (url : string) (retries delay : Z)
    (w : World) :
  exact_arguments retries delay ->
  exists k,
    k <= Z.to_nat (retries - 1)
    /\ snd (fetchWithRetry url retries delay w)
       = after w (S k) (backoff url delay k ++ [EvFetch url])
    /\ (forall i, i < k -> attempt_failure (attempt w url i) <> None)
    /\ match fst (fetchWithRetry url retries delay w) with
       | Ok r => attempt w url k = Resolved r /\ ok r = true
       | Throw e =>
           k = Z.to_nat (retries - 1)
           /\ attempt_failure (attempt w url k) = Some e
       end.
Proof.
  intros _.
  destruct (fetchWithRetry_total url retries delay w)
    as [(k & r & Hk & Hfail & Hr & Hok & ->) | (e & Hfail & He & ->)].
  - exists k. cbn [fst snd]. repeat split; assumption.
  - exists (Z.to_nat (retries - 1)). cbn [fst snd].
    repeat split; try assumption; try lia.
    intros i Hi. apply Hfail. lia.
Qed.

(** X2. With one attempt allowed, or with a count that is zero or
    negative, [fetchWithRetry] calls [fetch] exactly once and never
    sleeps: the response is returned if it is [ok], and the failure is
    thrown at once otherwise. *)
Theorem X2_fetchWithRetry_single_attempt (url : string) (retries delay : Z)
    (w : World) :
  (retries <= 1)%Z ->
  fetchWithRetry url retries delay w
  = (match attempt w url 0 with
     | Rejected message => Throw message
     | Resolved response =>
         match attempt_failure (Resolved response) with
         | Some e => Throw e
         | None => Ok response
         end
     end,
     after w 1 [EvFetch url]).
Proof.
  intros Hr. unfold fetchWithRetry.
  destruct (attempt w url 0) as [message | response] eqn:Ha.
  - apply fetchWithRetry_fuel_last; [| exact Hr].
    unfold attempt in Ha. cbn in Ha. now rewrite Ha.
  - destruct (attempt_failure (Resolved response)) as [e |] eqn:He.
    + apply fetchWithRetry_fuel_last; [| exact Hr].
      unfold attempt in Ha. cbn in Ha. now rewrite Ha.
    + apply fetchWithRetry_fuel_ok.
      * exact Ha.
      * cbn in He. now destruct (ok response).
Qed.





(** ** More on command derivation *)

Lemma strip_app (pat s : string) : JS.strip pat (pat +:+ s) = Some s.
Proof.
  induction pat as [| c pat IH]; [reflexivity |].
  change (String c pat +:+ s) with (String c (pat +:+ s)).
  cbn [JS.strip]. now rewrite Ascii.eqb_refl.
Qed.

Lemma replace_leftmost (pat rep : string) (pre rest : string) :
  JS.indexOf (pre +:+ pat +:+ rest) pat = Some (String.length pre) ->
  JS.replace (pre +:+ pat +:+ rest) pat rep = pre +:+ rep +:+ rest.
Proof.
  induction pre as [| c pre IH].
  - intros _. change ("" +:+ ?s) with s.
    destruct pat as [| a pat].
    + cbn [JS.strip]. destruct rest; reflexivity.
    + change (String a pat +:+ rest) with (String a (pat +:+ rest)).
      cbn [JS.replace]. change (String a (pat +:+ rest))
        with (String a pat +:+ rest). now rewrite strip_app.
  - change (String c pre +:+ ?s) with (String c (pre +:+ s)).
    change (String.length (String c pre)) with (S (String.length pre)).
    intros H. apply indexOf_cons in H as [Hs Hi].
    cbn [JS.replace]. rewrite Hs. now rewrite (IH Hi).
Qed.

Lemma replace_absent (pat rep s : string) :
  JS.indexOf s pat = None -> JS.replace s pat rep = s.
Proof.
  induction s as [| c s IH]; cbn [JS.indexOf JS.replace]; unfold JS.startsWith.
  - destruct (JS.strip pat ""); [discriminate | reflexivity].
  - destruct (JS.strip pat (String c s)); [discriminate |].
    destruct (JS.indexOf s pat) eqn:E; [discriminate |]. intros _.
    now rewrite IH.
Qed.

(** X4. Command derivation rewrites the left-most [npx] of the command,
    wherever it stands, and nothing else: what precedes it and what
    follows it, later occurrences of [npx] included, is kept as it is. *)
Theorem X4_getCliCommand_leftmost (pre rest : string) (pm : PackageManager) :
  JS.indexOf (pre +:+ "npx" +:+ rest) "npx" = Some (String.length pre) ->
  getCliCommand (pre +:+ "npx" +:+ rest) (Some pm)
  = pre +:+ prefix_of pm +:+ rest.
Proof.
  intros H. destruct pm; cbn [getCliCommand RUNTIME_REPLACEMENTS prefix_of];
    try reflexivity; now apply replace_leftmost.
Qed.

(** X5. A command that does not contain [npx] is returned unchanged for
    every runtime, so the four commands derived from it are equal. *)
Theorem X5_getCliCommand_without_prefix (cmd : string)
    (runtime : option PackageManager) :
  JS.indexOf cmd "npx" = None ->
  getCliCommand cmd runtime = cmd
  /\ commandSet cmd
     = {| cs_npm := cmd; cs_pnpm := cmd; cs_yarn := cmd; cs_bun := cmd |}.
Proof.
  intros H.
  assert (Hall : forall rt, getCliCommand cmd rt = cmd).
  { intros [[| | |] |]; cbn [getCliCommand RUNTIME_REPLACEMENTS];
      try reflexivity; now apply replace_absent. }
  split; [apply Hall |]. unfold commandSet. now rewrite !Hall.
Qed.

(** ** The check of a component name *)

Lemma replace_all_class (p : ascii -> bool) (s : string) :
  Re.replace_all s (Char p) EmptyString = keep_units (fun c => negb (p c)) s.
Proof.
  unfold Re.replace_all.
  induction s as [| c s IH]; [reflexivity |].
  cbn [Re.replace_all_from keep_units]. unfold Re.at_front. cbn [Re.exec].
  destruct (p c); cbn [negb].
  - cbn [Re.group_text Re.group Nat.eqb Re.text rev app string_of_list_ascii
         String.length Nat.pred]. exact IH.
  - now rewrite IH.
Qed.

Lemma keep_units_length (p : ascii -> bool) (s : string) :
  String.length (keep_units p s) <= String.length s.
Proof.
  induction s as [| c s IH]; [reflexivity |]. cbn [keep_units].
  destruct (p c); cbn [String.length]; lia.
Qed.

Lemma keep_units_same (p : ascii -> bool) (s : string) :
  String.eqb (keep_units p s) s = all_units p s.
Proof.
  induction s as [| c s IH]; [reflexivity |]. cbn [keep_units all_units].
  destruct (p c); cbn [andb].
  - cbn [String.eqb]. now rewrite Ascii.eqb_refl.
  - apply String.eqb_neq. intros H.
    pose proof (keep_units_length p s) as Hl. rewrite H in Hl.
    cbn [String.length] in Hl. lia.
Qed.

Lemma valid_name_units (component : string) :
  valid_name component
  = JS.truthy component && all_units allowed_in_name component.
Proof.
  unfold valid_name. rewrite replace_all_class. f_equal.
  rewrite <- keep_units_same. f_equal.
  induction component as [| c s IH]; [reflexivity |].
  cbn [keep_units]. rewrite negb_involutive, IH. reflexivity.
Qed.

(** ** More on the document parser *)

Lemma component_resource_fields (component mdxContent : string) :
  component_resource component mdxContent
  = {| name := component;
       description :=
         Some (extractDescription (frontmatter_of mdxContent) mdxContent);
       doc := Some mdxContent;
       commands :=
         match cli_command_of mdxContent with
         | Some c => if JS.truthy c then Some [commandSet c] else None
         | None => None
         end;
       links :=
         match extractLinks (frontmatter_of mdxContent) with
         | [] => None
         | l => Some l
         end;
       isBlock := Some false |}.
Proof.
  unfold component_resource, transformComponentData, frontmatter_of,
    cli_command_of.
  destruct (extractLinks _); reflexivity.
Qed.

Lemma frontmatter_of_block (fm rest : string) :
  JS.indexOf (fm +:+ nl +:+ "---" +:+ rest) (nl +:+ "---")
  = Some (String.length fm) ->
  frontmatter_of (OPENING +:+ fm +:+ nl +:+ "---" +:+ rest) = fm.
Proof.
  intros Hi. unfold frontmatter_of, Re.String_match.
  cbn [anchored FRONTMATTER_REGEX source Re.cat fold_right].
  unfold Re.at_front. cbn [Re.exec]. rewrite exec_lit.
  change (JS.strip ("---" +:+ nl) (OPENING +:+ ?s)) with (Some s).
  cbv beta iota. unfold Re.lazy_star. cbn [Re.exec].
  rewrite (repeat_lazy_run (nl +:+ "---")); [ | | exact Hi].
  - erewrite lazy_stop;
      [| rewrite exec_lit;
         change (JS.strip (nl +:+ "---") (nl +:+ "---" +:+ ?s)) with (Some s);
         reflexivity].
    cbn [Re.group_text Re.group Nat.eqb]. apply text_rev.
  - intros s acc Hs. now rewrite exec_lit, Hs.
Qed.

Lemma frontmatter_of_none (mdxContent : string) :
  JS.strip OPENING mdxContent = None -> frontmatter_of mdxContent = EmptyString.
Proof.
  intros H. unfold frontmatter_of, Re.String_match.
  cbn [anchored FRONTMATTER_REGEX source Re.cat fold_right].
  now rewrite at_front_lit_fail.
Qed.

(** X9. Only the frontmatter block is read for the fields: in a document
    that opens with the delimiter line, the description rules and the
    links rule see the text up to the first line that begins with the
    closing delimiter and nothing after it; a document that does not open
    with the delimiter line has no links, and its description can only
    come from the first-paragraph rule. *)
Theorem X9_fields_come_from_frontmatter (component : string) :
  (forall fm rest,
      JS.indexOf (fm +:+ nl +:+ "---" +:+ rest) (nl +:+ "---")
      = Some (String.length fm) ->
      let mdxContent := OPENING +:+ fm +:+ nl +:+ "---" +:+ rest in
      description (component_resource component mdxContent)
      = Some (extractDescription fm mdxContent)
      /\ links (component_resource component mdxContent)
         = match extractLinks fm with [] => None | l => Some l end)
  /\ (forall mdxContent,
        JS.strip OPENING mdxContent = None ->
        description (component_resource component mdxContent)
        = Some match Re.String_match mdxContent FIRST_PARAGRAPH_REGEX with
               | Some m => JS.trim (Re.group_text m 1)
               | None => EmptyString
               end
        /\ links (component_resource component mdxContent) = None).
Proof.
  split.
  - intros fm rest Hi mdxContent. subst mdxContent.
    rewrite component_resource_fields. cbn [description links].
    now rewrite (frontmatter_of_block fm rest Hi).
  - intros mdxContent H. rewrite component_resource_fields.
    cbn [description links]. rewrite (frontmatter_of_none _ H).
    split; reflexivity.
Qed.

Lemma append_cons (c : ascii) (a b : string) :
  String c a +:+ b = String c (a +:+ b).
Proof. reflexivity. Qed.

Lemma string_of_list_ascii_app (a b : list ascii) :
  string_of_list_ascii (a ++ b)
  = string_of_list_ascii a +:+ string_of_list_ascii b.
Proof.
  induction a as [| c a IH]; [reflexivity |].
  cbn [app string_of_list_ascii]. now rewrite append_cons, IH.
Qed.

Lemma text_app (b : string) (acc : list ascii) :
  Re.text (rev (list_ascii_of_string b) ++ acc) = Re.text acc +:+ b.
Proof.
  unfold Re.text. rewrite rev_app_distr, rev_involutive.
  now rewrite string_of_list_ascii_app, string_of_list_ascii_of_string.
Qed.

Lemma append_assoc (a b c : string) : (a +:+ b) +:+ c = a +:+ b +:+ c.
Proof.
  induction a as [| x a IH]; [reflexivity |]. now rewrite !append_cons, IH.
Qed.

Lemma append_nil_r (a : string) : a +:+ "" = a.
Proof.
  induction a as [| x a IH]; [reflexivity |]. now rewrite append_cons, IH.
Qed.

(** The install fence at its place in a document. *)
Lemma cli_fence_at_front (args post : string) :
  all_units not_newline args = true -> args <> EmptyString ->
  Re.at_front (source CLI_COMMAND_REGEX)
    (FENCE +:+ ADD +:+ args +:+ FENCE_END +:+ post)
  = Some ([(0, FENCE +:+ ADD +:+ args +:+ FENCE_END)], post).
Proof.
  intros Hargs Hne. unfold Re.at_front.
  cbn [CLI_COMMAND_REGEX source Re.cat fold_right]. cbn [Re.exec].
  rewrite exec_lit.
  change (JS.strip ("```bash" +:+ nl +:+ "npx shadcn@latest add ")
            (FENCE +:+ ADD +:+ ?s)) with (Some s).
  cbv beta iota. unfold Re.plus. cbn [Re.exec].
  eapply repeat_greedy_run; [reflexivity | exact Hargs | | ].
  - destruct args; [congruence | cbn; lia].
  - rewrite exec_lit.
    change (JS.strip (nl +:+ "```") (FENCE_END +:+ ?s)) with (Some s).
    cbv beta iota. cbn [Re.exec]. rewrite app_nil_r.
    rewrite !text_app. cbn [Re.text rev string_of_list_ascii].
    change ("" +:+ ?s) with s.
    change ("```bash" +:+ nl +:+ "npx shadcn@latest add ") with (FENCE +:+ ADD).
    change (nl +:+ "```") with FENCE_END.
    now rewrite !append_assoc.
Qed.

Lemma at_front_fences (s : string) :
  Re.at_front FENCES s
  = match JS.strip FENCE s with
    | Some s' => Some ([(0, FENCE)], s')
    | None =>
        match JS.strip FENCE_END s with
        | Some s' => Some ([(0, FENCE_END)], s')
        | None => None
        end
    end.
Proof.
  unfold Re.at_front, FENCES. cbn [Re.exec]. rewrite !exec_lit.
  destruct (JS.strip FENCE s); [reflexivity |].
  destruct (JS.strip FENCE_END s); reflexivity.
Qed.

Lemma replace_all_from_skip (r : regex) (rep p s : string) :
  Re.replace_all_from r rep (p +:+ s) (String.length p)
  = Re.replace_all_from r rep s 0.
Proof.
  induction p as [| c p IH]; [reflexivity |].
  change (String c p +:+ s) with (String c (p +:+ s)).
  cbn [String.length Re.replace_all_from]. exact IH.
Qed.

Lemma replace_fences_plain (u tail : string) :
  all_units plain_unit u = true ->
  Re.replace_all_from FENCES EmptyString (u +:+ tail) 0
  = u +:+ Re.replace_all_from FENCES EmptyString tail 0.
Proof.
  induction u as [| c u IH]; [reflexivity |].
  cbn [all_units]. intros H. apply andb_true_iff in H as [Hc Hu].
  change (String c u +:+ tail) with (String c (u +:+ tail)).
  cbn [Re.replace_all_from]. rewrite at_front_fences.
  unfold plain_unit in Hc. apply andb_true_iff in Hc as [Hb Hl].
  apply negb_true_iff in Hb, Hl.
  assert (H1 : JS.strip FENCE (String c (u +:+ tail)) = None).
  { change FENCE with (String BACKTICK ("``bash" +:+ nl)).
    cbn [JS.strip]. rewrite Ascii.eqb_sym, Hb. reflexivity. }
  assert (H2 : JS.strip FENCE_END (String c (u +:+ tail)) = None).
  { change FENCE_END with (String LF "```").
    cbn [JS.strip]. rewrite Ascii.eqb_sym, Hl. reflexivity. }
  rewrite H1, H2. now rewrite (IH Hu).
Qed.

Lemma trim_keeps_head (c : ascii) (s : string) :
  JS.is_space c = false -> JS.truthy (JS.trim (String c s)) = true.
Proof.
  intros Hc. unfold JS.trim. cbn [JS.trimStart]. rewrite Hc.
  cbn [JS.trimEnd]. rewrite Hc. destruct (JS.trimEnd s); reflexivity.
Qed.

Lemma cli_command_of_fence (pre args post : string) :
  JS.indexOf (pre +:+ FENCE +:+ ADD +:+ args +:+ FENCE_END +:+ post)
    (FENCE +:+ ADD)
  = Some (String.length pre) ->
  args <> EmptyString -> all_units plain_unit args = true ->
  cli_command_of (pre +:+ FENCE +:+ ADD +:+ args +:+ FENCE_END +:+ post)
  = Some (JS.trim (ADD +:+ args)).
Proof.
  intros Hi Hne Hargs.
  assert (Hnl : all_units not_newline args = true).
  { clear Hi Hne. induction args as [| c args IH]; [reflexivity |].
    cbn [all_units] in *. apply andb_true_iff in Hargs as [Hc Hu].
    rewrite (IH Hu), andb_true_r.
    unfold plain_unit in Hc. apply andb_true_iff in Hc as [_ Hl].
    unfold not_newline, Re.none_of, Re.one_of. cbn [existsb].
    now rewrite orb_false_r. }
  unfold cli_command_of.
  rewrite (match_at_field CLI_COMMAND_REGEX (FENCE +:+ ADD) _ pre _ post _
             eq_refl eq_refl Hi (cli_fence_at_front args post Hnl Hne)).
  cbn [Re.group_text Re.group Nat.eqb]. do 2 f_equal.
  unfold Re.replace_all. fold FENCE FENCE_END. fold FENCES.
  change (FENCE +:+ ADD +:+ args +:+ FENCE_END)
    with (String BACKTICK
            (("``bash" +:+ nl) +:+ (ADD +:+ args) +:+ FENCE_END)).
  cbn [Re.replace_all_from]. rewrite at_front_fences.
  change (JS.strip FENCE
            (String BACKTICK (("``bash" +:+ nl) +:+ ?s))) with (Some s).
  cbv beta iota. cbn [Re.group_text Re.group Nat.eqb].
  change ("" +:+ ?s) with s.
  change (Nat.pred (String.length FENCE))
    with (String.length ("``bash" +:+ nl)).
  rewrite replace_all_from_skip.
  rewrite replace_fences_plain; [| exact Hargs].
  change (Re.replace_all_from FENCES "" FENCE_END 0) with EmptyString.
  now rewrite append_nil_r.
Qed.

(** X6. The canonical install command of a document is the text of its
    first fenced block that begins with [npx shadcn@latest add], without
    the fence lines and trimmed: for arguments that hold no backtick, the
    resource gets exactly the four commands derived from it. *)
Theorem X6_canonical_command (component pre args post : string) :
  let mdxContent := pre +:+ FENCE +:+ ADD +:+ args +:+ FENCE_END +:+ post in
  JS.indexOf mdxContent (FENCE +:+ ADD) = Some (String.length pre) ->
  args <> EmptyString -> all_units plain_unit args = true ->
  commands (component_resource component mdxContent)
  = Some [commandSet (JS.trim (ADD +:+ args))].
Proof.
  intros mdxContent Hi Hne Hargs. subst mdxContent.
  rewrite component_resource_fields. cbn [commands].
  rewrite (cli_command_of_fence pre args post Hi Hne Hargs).
  change (ADD +:+ args) with (String "n" ("px shadcn@latest add " +:+ args)).
  now rewrite trim_keeps_head.
Qed.

(** X7. Links extraction returns at most two links, and none when the
    frontmatter has no line [links:]. *)
Theorem X7_extractLinks_bounds (frontmatter : string) :
  length (extractLinks frontmatter) <= 2
  /\ (JS.indexOf frontmatter ("links:" +:+ nl) = None ->
      extractLinks frontmatter = []).
Proof.
  split.
  - unfold extractLinks.
    destruct (Re.String_match frontmatter LINKS_REGEX) as [m |]; [| cbn; lia].
    cbv zeta. rewrite length_app.
    repeat match goal with
           | |- context [Re.search ?r ?s] => destruct (Re.search r s)
           end; cbn; lia.
  - intros H. unfold extractLinks, Re.String_match.
    cbn [anchored LINKS_REGEX source Re.cat fold_right].
    now rewrite (search_none _ _ _ H).
Qed.

Lemma key_line_ahead {R : Type} (s : string) (cs : captures)
    (acc : list ascii) (k : string -> captures -> list ascii -> option R) :
  Re.exec (Lookahead KEY_LINE) s cs acc k
  = if at_block_end s then k s cs acc else None.
Proof.
  unfold KEY_LINE. cbn [Re.exec Re.lit nl].
  destruct s as [| c [| d s]]; cbn [at_block_end]; try reflexivity.
  - destruct (Ascii.eqb LF c); reflexivity.
  - destruct (Ascii.eqb LF c); cbn [andb]; [| reflexivity].
    destruct (Re.word d); reflexivity.
Qed.

Lemma block_length_cons (c : ascii) (s : string) (n : nat) :
  block_length (String c s) = S n ->
  at_block_end (String c s) = false /\ block_length s = n.
Proof.
  cbn [block_length]. destruct (at_block_end (String c s)); [discriminate |].
  intros [= <-]. now split.
Qed.

Lemma block_length_zero (s : string) :
  block_length s = 0 -> at_block_end s = true.
Proof.
  destruct s as [| c s]; [reflexivity |]. cbn [block_length].
  destruct (at_block_end (String c s)); [reflexivity | discriminate].
Qed.

(** A lazy repetition of any unit in front of the look-ahead of the links
    rule runs to the end of the block. *)
Lemma repeat_lazy_block {R : Type}
    (k : string -> list ascii -> option R) (rest : string) :
  (forall s acc, at_block_end s = false -> k s acc = None) ->
  forall (u : string) (n : nat) (acc : list ascii),
    block_length (u +:+ rest) = String.length u ->
    Re.repeat_loop false 0 Re.any k n (u +:+ rest) acc
    = Re.repeat_loop false 0 Re.any k (n + String.length u) rest
        (rev (list_ascii_of_string u) ++ acc).
Proof.
  intros Hk u. induction u as [| c u IH]; intros n acc Hb.
  - change ("" +:+ rest) with rest.
    cbn [String.length list_ascii_of_string rev app]. now rewrite Nat.add_0_r.
  - rewrite append_cons in *.
    change (String.length (String c u)) with (S (String.length u)) in *.
    apply block_length_cons in Hb as [He Hb].
    cbn [Re.repeat_loop Nat.leb]. rewrite (Hk _ _ He).
    unfold Re.any at 1. rewrite (IH (S n) (c :: acc) Hb).
    cbn [list_ascii_of_string rev]. rewrite <- app_assoc.
    now rewrite Nat.add_succ_r.
Qed.

Lemma block_length_end (u rest : string) :
  block_length (u +:+ rest) = String.length u -> at_block_end rest = true.
Proof.
  induction u as [| c u IH].
  - change ("" +:+ rest) with rest. cbn [String.length].
    apply block_length_zero.
  - rewrite append_cons. cbn [String.length]. intros H.
    apply block_length_cons in H as [_ H]. now apply IH.
Qed.

Lemma links_block_at_front (block rest : string) :
  block_length (block +:+ rest) = String.length block ->
  exists whole,
    Re.at_front (source LINKS_REGEX) ("links:" +:+ nl +:+ block +:+ rest)
    = Some ([(0, whole); (1, block)], rest).
Proof.
  intros Hb. eexists. unfold Re.at_front.
  cbn [LINKS_REGEX source Re.cat fold_right]. fold KEY_LINE.
  remember (Lookahead KEY_LINE) as ahead eqn:Hahead.
  cbn [Re.exec]. rewrite exec_lit.
  change (JS.strip ("links:" +:+ nl) ("links:" +:+ nl +:+ ?s)) with (Some s).
  cbv beta iota. unfold Re.lazy_star. cbn [Re.exec]. subst ahead.
  rewrite repeat_lazy_block; [ | | exact Hb].
  - apply lazy_stop. rewrite key_line_ahead, (block_length_end _ _ Hb).
    rewrite text_rev. reflexivity.
  - intros s acc Hs. now rewrite key_line_ahead, Hs.
Qed.

(** One entry of the block: the key, white space, the rest of the line. *)
Lemma link_entry (key indent ws v tail : string) :
  JS.indexOf (indent +:+ key +:+ ws +:+ v +:+ tail) key
  = Some (String.length indent) ->
  all_units JS.is_space ws = true ->
  run_ends JS.is_space v = true ->
  all_units not_newline v = true -> v <> EmptyString ->
  run_ends not_newline tail = true ->
  exists whole,
    Re.search (link_rule key) (indent +:+ key +:+ ws +:+ v +:+ tail)
    = Some [(0, whole); (1, v)].
Proof.
  intros Hi Hws Hv0 Hv Hne Htail. eexists.
  unfold link_rule. cbn [Re.cat fold_right].
  rewrite (search_skip _ _ _ _ Hi).
  eapply (search_here _ _ tail). unfold Re.at_front.
  cbn [Re.exec]. rewrite exec_lit, strip_app.
  unfold Re.star, Re.plus. cbn [Re.exec].
  eapply repeat_greedy_run; [ | exact Hws | lia | ].
  - destruct v; [congruence | exact Hv0].
  - eapply repeat_greedy_run; [exact Htail | exact Hv | | ].
    + destruct v; [congruence | cbn; lia].
    + rewrite text_rev. reflexivity.
Qed.

Lemma extractLinks_block (pre block rest : string) :
  JS.indexOf (pre +:+ "links:" +:+ nl +:+ block +:+ rest) ("links:" +:+ nl)
  = Some (String.length pre) ->
  block_length (block +:+ rest) = String.length block ->
  extractLinks (pre +:+ "links:" +:+ nl +:+ block +:+ rest)
  = match Re.search (link_rule "doc:") block with
    | Some m => [JS.trim (Re.group_text m 1)]
    | None => []
    end
    ++ match Re.search (link_rule "api:") block with
       | Some m => [JS.trim (Re.group_text m 1)]
       | None => []
       end.
Proof.
  intros Hi Hb. destruct (links_block_at_front block rest Hb) as [whole Hm].
  unfold extractLinks.
  rewrite (match_at_field LINKS_REGEX ("links:" +:+ nl) _ pre _ rest _
             eq_refl eq_refl Hi Hm).
  reflexivity.
Qed.

(** X8. The links are read from the block that follows the line [links:]
    and ends before the next line that begins with a word unit (or with
    the frontmatter): a block with a [doc:] entry and then an [api:]
    entry gives the two trimmed values, the documentation link first; a
    block with a [doc:] entry and no [api:] gives that one link. *)
Theorem X8_extractLinks_block :
  (forall pre i1 ws1 doc_link i2 ws2 api_link rest,
      let block := i1 +:+ "doc:" +:+ ws1 +:+ doc_link +:+ nl +:+ i2
                   +:+ "api:" +:+ ws2 +:+ api_link in
      let frontmatter := pre +:+ "links:" +:+ nl +:+ block +:+ rest in
      JS.indexOf frontmatter ("links:" +:+ nl) = Some (String.length pre) ->
      block_length (block +:+ rest) = String.length block ->
      JS.indexOf block "doc:" = Some (String.length i1) ->
      JS.indexOf block "api:"
      = Some (String.length
                (i1 +:+ "doc:" +:+ ws1 +:+ doc_link +:+ nl +:+ i2)) ->
      all_units JS.is_space ws1 = true -> all_units JS.is_space ws2 = true ->
      run_ends JS.is_space doc_link = true ->
      run_ends JS.is_space api_link = true ->
      all_units not_newline doc_link = true ->
      all_units not_newline api_link = true ->
      doc_link <> EmptyString -> api_link <> EmptyString ->
      extractLinks frontmatter = [JS.trim doc_link; JS.trim api_link])
  /\ (forall pre i1 ws1 doc_link rest,
        let block := i1 +:+ "doc:" +:+ ws1 +:+ doc_link in
        let frontmatter := pre +:+ "links:" +:+ nl +:+ block +:+ rest in
        JS.indexOf frontmatter ("links:" +:+ nl) = Some (String.length pre) ->
        block_length (block +:+ rest) = String.length block ->
        JS.indexOf block "doc:" = Some (String.length i1) ->
        JS.indexOf block "api:" = None ->
        all_units JS.is_space ws1 = true ->
        run_ends JS.is_space doc_link = true ->
        all_units not_newline doc_link = true ->
        doc_link <> EmptyString ->
        extractLinks frontmatter = [JS.trim doc_link]).
Proof.
  split.
  - intros pre i1 ws1 U i2 ws2 V rest block fm Hi Hb Hd Ha
      Hws1 Hws2 HU0 HV0 HU HV HUne HVne.
    subst fm. rewrite (extractLinks_block pre block rest Hi Hb).
    subst block.
    destruct (link_entry "doc:" i1 ws1 U
                (nl +:+ i2 +:+ "api:" +:+ ws2 +:+ V)
                Hd Hws1 HU0 HU HUne eq_refl) as [w1 ->].
    assert (Hblock : i1 +:+ "doc:" +:+ ws1 +:+ U +:+ nl +:+ i2
                     +:+ "api:" +:+ ws2 +:+ V
                     = (i1 +:+ "doc:" +:+ ws1 +:+ U +:+ nl +:+ i2)
                       +:+ "api:" +:+ ws2 +:+ V +:+ "").
    { rewrite !append_assoc, append_nil_r. reflexivity. }
    rewrite Hblock in Ha |- *.
    destruct (link_entry "api:" _ ws2 V EmptyString
                Ha Hws2 HV0 HV HVne eq_refl) as [w2 ->].
    reflexivity.
  - intros pre i1 ws1 U rest block fm Hi Hb Hd Ha Hws1 HU0 HU HUne.
    subst fm. rewrite (extractLinks_block pre block rest Hi Hb).
    subst block.
    unfold link_rule at 2. cbn [Re.cat fold_right].
    rewrite (search_none _ _ _ Ha).
    assert (Hblock : i1 +:+ "doc:" +:+ ws1 +:+ U
                     = i1 +:+ "doc:" +:+ ws1 +:+ U +:+ "").
    { now rewrite append_nil_r. }
    rewrite Hblock in Hd |- *.
    destruct (link_entry "doc:" i1 ws1 U EmptyString
                Hd Hws1 HU0 HU HUne eq_refl) as [w1 ->].
    reflexivity.
Qed.

(** ** Trimmed fields *)

Lemma trimEnd_cons (c : ascii) (s : string) :
  JS.trimEnd (String c s)
  = match JS.trimEnd s with
    | EmptyString => if JS.is_space c then EmptyString else String c EmptyString
    | t => String c t
    end.
Proof. reflexivity. Qed.

Lemma trimEnd_idempotent (s : string) :
  JS.trimEnd (JS.trimEnd s) = JS.trimEnd s.
Proof.
  induction s as [| c s IH]; [reflexivity |]. rewrite trimEnd_cons.
  destruct (JS.trimEnd s) as [| a t] eqn:E.
  - destruct (JS.is_space c) eqn:Hc; [reflexivity |].
    rewrite trimEnd_cons. cbn [JS.trimEnd]. now rewrite Hc.
  - rewrite trimEnd_cons, IH. reflexivity.
Qed.

Lemma trimStart_head (s : string) :
  JS.trimStart s = EmptyString
  \/ exists c t, JS.trimStart s = String c t /\ JS.is_space c = false.
Proof.
  induction s as [| c s IH]; [now left |]. cbn [JS.trimStart].
  destruct (JS.is_space c) eqn:Hc; [exact IH |]. right. eauto.
Qed.

Lemma trim_trimmed (s : string) : trimmed (JS.trim s).
Proof.
  unfold trimmed, JS.trim.
  destruct (trimStart_head s) as [-> | (c & t & -> & Hc)]; [reflexivity |].
  assert (H : JS.trimStart (JS.trimEnd (String c t)) = JS.trimEnd (String c t)).
  { rewrite trimEnd_cons, Hc.
    destruct (JS.trimEnd t); cbn [JS.trimStart]; now rewrite Hc. }
  rewrite H. apply trimEnd_idempotent.
Qed.

(** X10. What the parser extracts carries no white space at either end:
    the description of a document, each of its links, and the
    description, the command and the code sample of every block scraped
    from a page. *)
Theorem X10_extracted_fields_are_trimmed :
  (forall frontmatter mdxContent,
      trimmed (extractDescription frontmatter mdxContent))
  /\ (forall frontmatter, Forall trimmed (extractLinks frontmatter))
  /\ (forall url w w' blocks,
        parseBlocksFromPage url w = (Ok blocks, w') ->
        Forall (fun b => trimmed (block_command b) /\ trimmed (block_doc b)
                         /\ exists d, block_description b = Some d
                                      /\ trimmed d)
               blocks).
Proof.
  split; [| split].
  - intros fm mdx. rewrite extractDescription_order.
    repeat match goal with
           | |- context [Re.String_match ?s ?p] =>
               destruct (Re.String_match s p); [apply trim_trimmed |]
           end.
    reflexivity.
  - intros fm. unfold extractLinks.
    destruct (Re.String_match fm LINKS_REGEX) as [m |]; [| constructor].
    cbv zeta. apply Forall_app. split;
      match goal with
      | |- context [Re.search ?r ?s] => destruct (Re.search r s)
      end; repeat constructor; apply trim_trimmed.
  - intros url w w' blocks. rewrite parseBlocksFromPage_cases.
    destruct (negb (https url)); [discriminate |].
    destruct (fetchWithRetry_default url w) as [[response | error] w1];
      [| discriminate].
    cbv zeta. intros [= <- _]. apply Forall_flat_map. intros el.
    unfold scrape_block. destruct (Dom.node_attr el "id") as [id |];
      [| constructor].
    destruct (JS.truthy id && negb (JS.startsWith id "radix-"));
      constructor; [| constructor].
    cbn [block_command block_doc block_description].
    repeat split; try apply trim_trimmed.
    eexists. split; [reflexivity | apply trim_trimmed].
Qed.

(** ** More on the cache and the lookups *)

(** X11. A component name that is empty or holds a unit outside letters,
    digits, hyphen and underscore is refused by the lookup itself: it
    throws, and neither the cache nor the network is touched. *)
Theorem X11_component_name_check (component : string) (w : World) :
  JS.truthy component && all_units allowed_in_name component = false ->
  fetchAndCacheComponentData component w
  = (Throw (invalid_name_message component), w).
Proof.
  intros H. rewrite fetchAndCacheComponentData_cases, valid_name_units, H.
  reflexivity.
Qed.

(** X12. A component lookup calls [fetch] at most three times, each time
    for the document of that component, and changes no entry of the cache
    other than the one of that component. *)
Theorem X12_component_lookup_effects (component : string) (w : World) :
  let w' := snd (fetchAndCacheComponentData component w) in
  network w' = network w
  /\ (w' = w
      \/ exists k,
           k <= 2
           /\ fetches w' = S k + fetches w
           /\ events w'
              = events w ++ backoff (component_url component) 500 k
                ++ [EvFetch (component_url component)])
  /\ (forall n, n <> component ->
                resourceCache w' !! n = resourceCache w !! n).
Proof.
  cbv zeta. rewrite fetchAndCacheComponentData_cases.
  destruct (negb (valid_name component)); cbn [snd]; [now auto |].
  destruct (resourceCache w !! component) as [data |]; cbn [snd];
    [now auto |].
  unfold fetchWithRetry_default.
  destruct (fetchWithRetry_total (component_url component) RETRY_ATTEMPTS
              RETRY_DELAY_MS w)
    as [(k & r & Hk & _ & _ & _ & ->) | (e & _ & _ & ->)]; cbn [snd].
  - split; [reflexivity |]. split.
    + right. exists k. split; [exact Hk |]. split; reflexivity.
    + intros n Hn. cbn [with_cache resourceCache after].
      now rewrite lookup_insert_ne.
  - split; [reflexivity |]. split; [| reflexivity].
    right. exists 2. split; [lia |]. split; reflexivity.
Qed.

(** X13. A component that is not cached and is resolved is built from the
    body of the response that was [ok]: the resource carries the name
    asked for, the whole body as its [doc], [isBlock] false, links that
    are absent rather than empty, and either no commands or the four
    commands derived from one command that is not empty; it is what the
    cache holds under that name afterwards. *)
Theorem X13_resolved_component (component : string) (w w' : World)
    (r : ComponentDocResource) :
  resourceCache w !! component = None ->
  fetchAndCacheComponentData component w = (Ok r, w') ->
  exists response,
    fst (fetchWithRetry_default (component_url component) w) = Ok response
    /\ r = component_resource component (body response)
    /\ name r = component
    /\ doc r = Some (body response)
    /\ isBlock r = Some false
    /\ links r <> Some []
    /\ (commands r = None
        \/ exists c, JS.truthy c = true /\ commands r = Some [commandSet c])
    /\ resourceCache w' !! component = Some r.
Proof.
  intros Hc. rewrite fetchAndCacheComponentData_cases, Hc.
  destruct (negb (valid_name component)); [discriminate |].
  destruct (fetchWithRetry_default (component_url component) w)
    as [[response | error] w1]; [| discriminate].
  cbv zeta. intros [= <- <-]. exists response. cbn [fst].
  split; [reflexivity |]. split; [reflexivity |].
  rewrite component_resource_fields.
  cbn [name doc isBlock links commands with_cache resourceCache].
  repeat split.
  - destruct (extractLinks _); discriminate.
  - destruct (cli_command_of (body response)) as [c |]; [| now left].
    destruct (JS.truthy c) eqn:Ht; [| now left]. right. eauto.
  - apply lookup_insert_eq.
Qed.

(** X14. [cacheResource] stores what the fetch function returned under
    the key, leaves the other keys alone, and from then on answers from
    the map: a later call with the same key returns the stored value and
    never runs its fetch function. *)
Theorem X14_cacheResource_round_trip (T : Type) (key : string)
    (fetchFn : M T) (cache cache' : gmap string T) (w w' : World) (data : T) :
  cacheResource key fetchFn cache w = ((Ok data, cache'), w') ->
  cache' !! key = Some data
  /\ (forall k, k <> key -> cache' !! k = cache !! k)
  /\ (forall (again : M T) (v : World),
        cacheResource key again cache' v = ((Ok data, cache'), v)).
Proof.
  unfold cacheResource. destruct (cache !! key) as [d |] eqn:Hk.
  - intros [= <- <- <-]. split; [exact Hk |]. split; [reflexivity |].
    intros again v. now rewrite Hk.
  - destruct (fetchFn w) as [[d | error] w1]; [| discriminate].
    intros [= <- <- <-]. split; [apply lookup_insert_eq |].
    split; [intros k Hne; now rewrite lookup_insert_ne |].
    intros again v. now rewrite lookup_insert_eq.
Qed.

Lemma transformBlocks_names (blockPages : list (list Block)) :
  map name (transformBlocks blockPages)
  = map block_name (concat blockPages).
Proof. unfold transformBlocks. now rewrite map_map. Qed.

(** X15. When the aggregate over the block pages succeeds, it returns one
    resource per scraped element, in page order and document order, each
    marked as a block with the four commands derived from its command;
    afterwards the cache holds, under every name returned, the last
    resource returned under that name, and every other entry is as it
    was. *)
Theorem X15_aggregate_fills_cache (w w' : World)
    (l : list ComponentDocResource) :
  fetchAndCacheBlocks w = (Ok l, w') ->
  (exists blockPages,
      fst (Promise_all (map parseBlocksFromPage_async BLOCK_PAGES) w)
      = Ok blockPages
      /\ map name l = map block_name (concat blockPages)
      /\ map doc l = map (fun b => Some (block_doc b)) (concat blockPages)
      /\ map commands l
         = map (fun b => Some [commandSet (block_command b)])
             (concat blockPages))
  /\ Forall (fun r => isBlock r = Some true /\ links r = None) l
  /\ (forall n,
        resourceCache w' !! n
        = match last_named n l with
          | Some r => Some r
          | None => resourceCache w !! n
          end).
Proof.
  intros H.
  destruct (fetchAndCacheBlocks_stores w w' l H) as (blockPages & Hp & -> & Hc).
  split; [| split].
  - exists blockPages. unfold transformBlocks.
    rewrite !map_map. repeat split; [exact Hp | reflexivity ..].
  - unfold transformBlocks. apply Forall_map, Forall_forall.
    intros b _. now split.
  - exact Hc.
Qed.

(** X16. A block lookup whose name is not cached runs the aggregate and
    then finds the block exactly when one of the scraped elements has
    that id; it returns the last such block, and the not-found text
    otherwise. *)
Theorem X16_block_lookup_after_aggregate (block : string) (w w1 : World)
    (l : list ComponentDocResource) :
  JS.truthy block = true ->
  resourceCache w !! block = None ->
  fetchAndCacheBlocks w = (Ok l, w1) ->
  getBlockData block w
  = (Ok match last_named block l with
        | Some r => inr r
        | None => inl (block_not_found block)
        end, w1)
  /\ (last_named block l = None <-> ~ In block (map name l))
  /\ (forall r, last_named block l = Some r -> name r = block /\ In r l).
Proof.
  intros Hb Hc Ha. split; [| split].
  - rewrite getBlockData_cases, Hb, Hc, Ha. cbn [negb].
    destruct (fetchAndCacheBlocks_stores w w1 l Ha) as (_ & _ & _ & Hs).
    rewrite Hs, Hc. destruct (last_named block l); reflexivity.
  - apply last_named_none.
  - apply last_named_name.
Qed.

(** X28. The aggregate sends the requests for all block pages before it
    waits for any of them: whatever the order in which the event loop
    lets the pages go on, the first two things that happen are the fetch
    of the sidebar page and the fetch of the authentication page. *)
Theorem X28_pages_start_together (w : World) :
  exists n evs,
    fetches (snd (fetchAndCacheBlocks w)) = 2 + n + fetches w
    /\ events (snd (fetchAndCacheBlocks w))
       = events w
         ++ EvFetch (BASE_URL +:+ "/blocks/sidebar")
            :: EvFetch (BASE_URL +:+ "/blocks/authentication") :: evs.
Proof.
  assert (Hms : Forall2 (calls (network w))
                  (map (page_result (network w)) BLOCK_PAGES)
                  (map parseBlocksFromPage_async BLOCK_PAGES)).
  { unfold BLOCK_PAGES. cbn [map].
    constructor; [now apply calls_parseBlocksFromPage |].
    constructor; [now apply calls_parseBlocksFromPage | constructor]. }
  assert (Hg : grows
                 (after w 2 [EvFetch (BASE_URL +:+ "/blocks/sidebar");
                             EvFetch (BASE_URL +:+ "/blocks/authentication")])
                 (snd (Promise_all (map parseBlocksFromPage_async BLOCK_PAGES)
                         w))).
  { unfold Promise_all, BLOCK_PAGES in *. cbn [map start_all] in *.
    inversion Hms as [| P1 m1 Ps1 ms1 H1 Hrest]; subst.
    inversion Hrest as [| P2 m2 Ps2 ms2 H2 _]; subst.
    pose proof (parseBlocksFromPage_async_start
                  (BASE_URL +:+ "/blocks/sidebar") w eq_refl) as S1.
    destruct (H1 w eq_refl) as [_ T1].
    destruct (parseBlocksFromPage_async (BASE_URL +:+ "/blocks/sidebar") w)
      as [t1 w1]. cbn [fst snd] in *. subst w1.
    pose proof (parseBlocksFromPage_async_start
                  (BASE_URL +:+ "/blocks/authentication")
                  (after w 1 [EvFetch (BASE_URL +:+ "/blocks/sidebar")])
                  eq_refl) as S2.
    destruct (H2 (after w 1 [EvFetch (BASE_URL +:+ "/blocks/sidebar")])
                eq_refl) as [_ T2].
    destruct (parseBlocksFromPage_async
                (BASE_URL +:+ "/blocks/authentication") _) as [t2 w2].
    cbn [fst snd] in *. subst w2. rewrite after_after in *.
    cbn [Nat.add app] in *.
    apply (event_loop_settles (network w)
             [page_result (network w) (BASE_URL +:+ "/blocks/sidebar");
              page_result (network w)
                (BASE_URL +:+ "/blocks/authentication")]).
    - constructor; [exact T1 |]. constructor; [exact T2 | constructor].
    - reflexivity. }
  rewrite fetchAndCacheBlocks_cases.
  destruct (Promise_all (map parseBlocksFromPage_async BLOCK_PAGES) w)
    as [[blockPages | error] w1]; cbn [snd] in *.
  all: destruct Hg as (_ & _ & n & evs & Hf & He); exists n, evs.
  all: cbn [with_cache fetches events after] in *.
  all: split; [lia | now rewrite He, <- app_assoc].
Qed.

(** ** More on the scrapers *)

(** X17. [parseBlocksFromPage] refuses a URL that is empty or does not
    begin with [https://] before any network call; a download that fails
    is reported under the URL of the page; and a page without blocks is
    not an error: the result is the empty list and one diagnostic is
    logged. *)
Theorem X17_parseBlocksFromPage_edges (url : string) (w : World) :
  (https url = false ->
   parseBlocksFromPage url w = (Throw ("Invalid URL: " +:+ url), w))
  /\ (https url = true ->
      forall e w1,
        fetchWithRetry_default url w = (Throw e, w1) ->
        parseBlocksFromPage url w = (Throw (page_failed url e), w1))
  /\ (https url = true ->
      forall response w1,
        fetchWithRetry_default url w = (Ok response, w1) ->
        List.flat_map scrape_block
          (Dom.select (loadCheerio (body response)) BLOCK_ELEMENTS) = [] ->
        parseBlocksFromPage url w = (Ok [], emit (no_blocks url) w1)).
Proof.
  split; [| split].
  - intros H. now rewrite parseBlocksFromPage_cases, H.
  - intros H e w1 Hf. now rewrite parseBlocksFromPage_cases, H, Hf.
  - intros H response w1 Hf Hnone.
    rewrite parseBlocksFromPage_cases, H, Hf. cbn [negb]. cbv zeta.
    now rewrite Hnone.
Qed.

Lemma scrape_block_names (els : list node) :
  map block_name (List.flat_map scrape_block els)
  = List.filter block_id (omap (fun el => Dom.node_attr el "id") els).
Proof.
  induction els as [| el els IH]; [reflexivity |].
  cbn [List.flat_map]. rewrite map_app, IH.
  change (omap ?f (el :: els))
    with (match f el with Some y => y :: omap f els | None => omap f els end).
  unfold scrape_block at 1. cbv beta.
  destruct (Dom.node_attr el "id") as [id |]; [| reflexivity].
  cbn [List.filter]. fold (block_id id).
  destruct (block_id id); reflexivity.
Qed.

(** X18. The blocks scraped from a page are, in document order, the
    elements selected in the container whose id is not empty and does not
    begin with [radix-], one block per element, named by that id. *)
Theorem X18_block_names (url : string) (w w' : World) (blocks : list Block) :
  parseBlocksFromPage url w = (Ok blocks, w') ->
  exists response,
    fst (fetchWithRetry_default url w) = Ok response
    /\ map block_name blocks
       = List.filter block_id
           (omap (fun el => Dom.node_attr el "id")
              (Dom.select (loadCheerio (body response)) BLOCK_ELEMENTS))
    /\ Forall (fun b => block_id (block_name b) = true) blocks.
Proof.
  rewrite parseBlocksFromPage_cases.
  destruct (negb (https url)); [discriminate |].
  destruct (fetchWithRetry_default url w) as [[response | error] w1];
    [| discriminate].
  cbv zeta. intros [= <- _]. exists response. cbn [fst].
  split; [reflexivity |]. split; [apply scrape_block_names |].
  apply Forall_map with (f := block_name) (P := fun id => block_id id = true).
  rewrite scrape_block_names. apply Forall_forall. intros id Hin.
  apply list_elem_of_In in Hin. now apply List.filter_In in Hin as [_ Hid].
Qed.

Lemma split_without_separator (sep : ascii) (s : string) :
  Forall (fun x => all_units (fun c => negb (Ascii.eqb c sep)) x = true)
         (JS.split s sep).
Proof.
  induction s as [| c s IH]; cbn [JS.split]; [repeat constructor |].
  destruct (Ascii.eqb c sep) eqn:E; [constructor; [reflexivity | exact IH] |].
  destruct (JS.split s sep) as [| x xs]; [repeat constructor; cbn; now rewrite E |].
  inversion IH as [| ? ? Hx Hxs]; subst. constructor; [| exact Hxs].
  cbn [all_units]. now rewrite E, Hx.
Qed.

Lemma pop_in (l : list string) (x : string) : JS.pop l = Some x -> In x l.
Proof.
  induction l as [| y l IH]; [discriminate |]. cbn [JS.pop].
  destruct l as [| z l]; [intros [= ->]; now left |].
  intros H. right. now apply IH.
Qed.

Lemma component_name_without_slash (el : node) (x : string) :
  component_name el = Some x -> all_units not_slash x = true.
Proof.
  unfold component_name. destruct (Dom.node_attr el "href") as [href |];
    [| discriminate].
  intros H. apply pop_in in H.
  pose proof (split_without_separator SLASH href) as Hall.
  rewrite Forall_forall in Hall. apply Hall. now apply list_elem_of_In.
Qed.

(** X19. Every component name returned by the component scraper is a
    non-empty string without a slash. *)
Theorem X19_component_names_are_segments (html : string) (w w' : World)
    (names : list string) :
  parseComponentsFromHtml html w = (Ok names, w') ->
  Forall (fun n => JS.truthy n = true /\ all_units not_slash n = true) names.
Proof.
  unfold parseComponentsFromHtml.
  destruct (negb (JS.truthy html)); [discriminate |].
  unfold try_catch, bind.
  set (raw := omap component_name _).
  assert (Hraw : Forall (fun n => JS.truthy n = true
                                  /\ all_units not_slash n = true)
                        (List.filter JS.truthy raw)).
  { apply Forall_forall. intros n Hin. apply list_elem_of_In in Hin.
    apply List.filter_In in Hin as [Hin Ht]. split; [exact Ht |].
    apply list_elem_of_In in Hin. subst raw.
    apply list_elem_of_omap in Hin as (el & _ & Hel).
    now apply (component_name_without_slash el). }
  assert (Hsorted : Forall (fun n => JS.truthy n = true
                                     /\ all_units not_slash n = true)
                           (Array_sort (List.filter JS.truthy raw))).
  { eapply Permutation_Forall; [| exact Hraw].
    symmetry. apply Array_sort_perm. }
  destruct (length (Array_sort (List.filter JS.truthy raw)) =? 0);
    cbn; intros [= <- _]; exact Hsorted.
Qed.

(** X20. The block scraper of parsers.ts calls [fetch] exactly once and
    never sleeps; a rejection is thrown as it is; a response is scraped
    whatever its status, and every block returned has a name, a command
    and a code sample that are not empty. *)
Theorem X20_legacy_parseBlocksFromPage (url : string) (w : World) :
  snd (legacy_parseBlocksFromPage url w) = after w 1 [EvFetch url]
  /\ (forall message,
        attempt w url 0 = Rejected message ->
        fst (legacy_parseBlocksFromPage url w) = Throw message)
  /\ (forall response,
        attempt w url 0 = Resolved response ->
        exists blocks,
          fst (legacy_parseBlocksFromPage url w) = Ok blocks
          /\ Forall (fun b => JS.truthy (legacy_name b) = true
                              /\ JS.truthy (legacy_command b) = true
                              /\ JS.truthy (legacy_code b) = true)
                    blocks).
Proof.
  unfold attempt. cbn [Nat.add].
  split; [| split].
  - unfold legacy_parseBlocksFromPage, bind, fetch, response_text, ret.
    destruct (network w (fetches w) url); reflexivity.
  - intros message H.
    unfold legacy_parseBlocksFromPage, bind, fetch. now rewrite H.
  - intros response H.
    destruct (legacy_parseBlocksFromPage url w) as [[blocks | e] w'] eqn:E.
    + exists blocks. split; [reflexivity |].
      now apply (legacy_parseBlocksFromPage_complete url w w').
    + exfalso. revert E.
      unfold legacy_parseBlocksFromPage, bind, fetch, response_text, ret.
      rewrite H. discriminate.
Qed.

(** X21. On every page that is not the empty string, the component
    scraper of helpers.ts returns the list that the one of parsers.ts
    returns; only the guard against the empty string and the diagnostic
    were added. *)
Theorem X21_component_scrapers_agree (html : string) (w : World) :
  html <> EmptyString ->
  fst (parseComponentsFromHtml html w)
  = Ok (legacy_parseComponentsFromHtml html)
  /\ resourceCache (snd (parseComponentsFromHtml html w)) = resourceCache w
  /\ fetches (snd (parseComponentsFromHtml html w)) = fetches w.
Proof.
  intros Hne. unfold parseComponentsFromHtml, legacy_parseComponentsFromHtml.
  destruct html as [| c html]; [congruence |]. cbn [JS.truthy negb].
  unfold try_catch, bind.
  destruct (length _ =? 0); cbn; repeat split; reflexivity.
Qed.

(** ** More on the handlers *)

(** X22. get-component-docs answers with the document of the component
    as it was fetched or cached, unchanged, typed as markdown; an empty
    name is refused without a lookup; a resource with neither description
    nor document, such as the one built from an empty response body,
    gives an error; and a lookup that throws gives an error response and
    leaves the cache as it was. *)
Theorem X22_getComponentDocs (component : string) (w : World) :
  (component = EmptyString ->
   getComponentDocs component w
   = (createResponse "Component name is required" true None, w))
  /\ (forall data w' d,
        fetchAndCacheComponentData component w = (Ok data, w') ->
        doc data = Some d -> d <> EmptyString ->
        getComponentDocs component w
        = ({| text := d; isError := false;
              mimeType := Some "text/markdown" |}, w'))
  /\ (forall response w1,
        valid_name component = true ->
        resourceCache w !! component = None ->
        fetchWithRetry_default (component_url component) w
        = (Ok response, w1) ->
        body response = EmptyString ->
        fst (getComponentDocs component w)
        = createResponse ("No documentation found for component '"
                          +:+ component +:+ "'") true None)
  /\ (forall e w',
        component <> EmptyString ->
        fetchAndCacheComponentData component w = (Throw e, w') ->
        getComponentDocs component w
        = (handleError e "Error fetching component documentation", w')
        /\ resourceCache w' = resourceCache w).
Proof.
  split; [| split; [| split]].
  - intros ->. reflexivity.
  - intros data w' d H Hd Hne. unfold getComponentDocs, handler.
    destruct (fetchAndCacheComponentData_resolves _ _ _ _ H) as [Hv _].
    unfold valid_name in Hv. apply andb_true_iff in Hv as [Ht _].
    rewrite Ht. cbn [negb]. unfold bind. rewrite H, Hd.
    destruct d as [| c d]; [congruence |].
    cbn [falsy JS.truthy negb andb]. rewrite andb_false_r. reflexivity.
  - intros response w1 Hv Hc Hf Hb. unfold getComponentDocs, handler.
    pose proof Hv as Hv'. unfold valid_name in Hv'.
    apply andb_true_iff in Hv' as [Ht _]. rewrite Ht. cbn [negb].
    unfold bind. rewrite fetchAndCacheComponentData_cases, Hv, Hc, Hf.
    cbn [negb]. cbv zeta. rewrite Hb. reflexivity.
  - intros e w' Hne H. split.
    + unfold getComponentDocs, handler.
      destruct component as [| c component]; [congruence |].
      cbn [JS.truthy negb]. unfold bind. now rewrite H.
    + now apply fetchAndCacheComponentData_throw in H.
Qed.

Lemma parseComponentsFromHtml_run (html : string) (w : World) :
  parseComponentsFromHtml html w
  = if negb (JS.truthy html) then (Throw "Invalid HTML content", w)
    else (Ok (legacy_parseComponentsFromHtml html),
          match legacy_parseComponentsFromHtml html with
          | [] => emit no_components w
          | _ :: _ => w
          end).
Proof.
  unfold parseComponentsFromHtml, legacy_parseComponentsFromHtml.
  destruct (negb (JS.truthy html)); [reflexivity |].
  unfold try_catch, bind. destruct (Array_sort _); reflexivity.
Qed.

Lemma listComponents_run (w : World) :
  listComponents w
  = match fetchWithRetry_default components_url w with
    | (Ok response, w1) =>
        if JS.truthy (body response)
        then (createResponse
                (Json.stringify
                   (Json.strings
                      (legacy_parseComponentsFromHtml (body response))))
                false None,
              match legacy_parseComponentsFromHtml (body response) with
              | [] => emit no_components w1
              | _ :: _ => w1
              end)
        else (handleError "Invalid HTML content"
                "Error fetching components list", w1)
    | (Throw e, w1) => (handleError e "Error fetching components list", w1)
    end.
Proof.
  unfold listComponents, handler, bind at 1. fold components_url.
  destruct (fetchWithRetry_default components_url w)
    as [[response | error] w1]; [| reflexivity].
  unfold bind at 1, response_text, ret. unfold bind.
  rewrite parseComponentsFromHtml_run.
  destruct (JS.truthy (body response)); reflexivity.
Qed.

(** X23. list-components has no cache: every call starts by fetching the
    components page and leaves the cache as it was.  A download that
    fails, or a page that is the empty string, gives an error response;
    any other page gives the JSON text of the sorted component names. *)
Theorem X23_listComponents (w : World) :
  resourceCache (snd (listComponents w)) = resourceCache w
  /\ starts_fetch components_url w (snd (listComponents w))
  /\ (forall e w1,
        fetchWithRetry_default components_url w = (Throw e, w1) ->
        listComponents w
        = (handleError e "Error fetching components list", w1))
  /\ (forall response w1,
        fetchWithRetry_default components_url w = (Ok response, w1) ->
        fst (listComponents w)
        = if JS.truthy (body response)
          then createResponse
                 (Json.stringify
                    (Json.strings
                       (legacy_parseComponentsFromHtml (body response))))
                 false None
          else handleError "Invalid HTML content"
                 "Error fetching components list").
Proof.
  rewrite listComponents_run.
  destruct (fetchWithRetry_default_first components_url w) as (k & evs & Hw).
  destruct (fetchWithRetry_default components_url w)
    as [[response | error] w1]; cbn [snd] in Hw; subst w1.
  - destruct (JS.truthy (body response)) eqn:Ht; cbn [fst snd].
    + repeat split.
      * destruct (legacy_parseComponentsFromHtml (body response)); reflexivity.
      * destruct (legacy_parseComponentsFromHtml (body response)).
        -- exists k, (evs ++ [no_components]). split; [reflexivity |].
           cbn. now rewrite <- app_assoc.
        -- apply starts_fetch_after.
      * discriminate.
      * intros response' w1 [= <- _]. now rewrite Ht.
    + repeat split.
      * apply starts_fetch_after.
      * discriminate.
      * intros response' w1 [= <- _]. now rewrite Ht.
  - cbn [fst snd]. repeat split.
    + apply starts_fetch_after.
    + now intros e w1 [= <- <-].
    + discriminate.
Qed.

(** X24. list-blocks has no cache check either: every call runs the
    aggregate over the block pages again, beginning with a fetch of the
    first page, even when every block is cached.  When the aggregate
    succeeds the answer is the JSON text of the names it returned; when
    it throws the answer is an error and the cache is as it was. *)
Theorem X24_listBlocks (w : World) :
  starts_fetch sidebar_url w (snd (listBlocks w))
  /\ (forall n, is_Some (resourceCache w !! n) ->
                is_Some (resourceCache (snd (listBlocks w)) !! n))
  /\ (forall l w1,
        fetchAndCacheBlocks w = (Ok l, w1) ->
        listBlocks w
        = (createResponse (Json.stringify (Json.strings (map name l)))
             false None, w1))
  /\ (forall e w1,
        fetchAndCacheBlocks w = (Throw e, w1) ->
        listBlocks w = (handleError e "Error fetching blocks", w1)
        /\ resourceCache w1 = resourceCache w).
Proof.
  assert (Hrun : listBlocks w
                 = match fetchAndCacheBlocks w with
                   | (Ok l, w1) =>
                       (createResponse
                          (Json.stringify (Json.strings (map name l)))
                          false None, w1)
                   | (Throw e, w1) =>
                       (handleError e "Error fetching blocks", w1)
                   end).
  { unfold listBlocks, handler, bind.
    destruct (fetchAndCacheBlocks w) as [[l | e] w1]; reflexivity. }
  rewrite Hrun.
  pose proof (fetchAndCacheBlocks_starts w) as Hs.
  pose proof (fetchAndCacheBlocks_keeps w) as Hk.
  destruct (fetchAndCacheBlocks w) as [[l | e] w1] eqn:E; cbn [fst snd] in *.
  - split; [exact Hs |]. split; [exact Hk |]. split.
    + now intros l' w' [= <- <-].
    + discriminate.
  - split; [exact Hs |]. split; [exact Hk |]. split.
    + discriminate.
    + intros e' w' [= <- <-]. split; [reflexivity |].
      now apply fetchAndCacheBlocks_throw in E.
Qed.

(** X25. The block handlers refuse the empty block name without any
    network call (install-blocks first checks the runtime).  For a block
    that is cached, get-block-docs answers from the cache without a
    network call: with the JSON text of the resource when its [doc] is
    not empty, and with an error when it is. *)
Theorem X25_block_handlers_edges (w : World) :
  getBlockDocs EmptyString w
  = (createResponse "Block name is required" true None, w)
  /\ (forall runtime,
        present runtime && negb (validateRuntime runtime) = false ->
        installBlock EmptyString runtime w
        = (createResponse "Block name is required" true None, w))
  /\ (forall block data,
        block <> EmptyString ->
        resourceCache w !! block = Some data ->
        getBlockDocs block w
        = (if falsy (doc data)
           then createResponse ("No documentation found for block '"
                                +:+ block +:+ "'") true None
           else createResponse (Json.stringify (Json.of_resource data))
                  false (Some "application/json"), w)).
Proof.
  split; [reflexivity |]. split.
  - intros runtime H. unfold installBlock, handler. now rewrite H.
  - intros block data Hne Hc. unfold getBlockDocs, handler, bind.
    rewrite (getBlockData_hit block w data); [| | exact Hc].
    + destruct (falsy (doc data)); reflexivity.
    + destruct block; [congruence | reflexivity].
Qed.

Lemma runtime_key_valid (pm : PackageManager) :
  present (Some (runtime_key pm)) = true
  /\ validateRuntime (Some (runtime_key pm)) = true
  /\ given (Some (runtime_key pm)) = Some (runtime_key pm)
  /\ forall commands,
       CommandSet_get commands (runtime_key pm) = Some (variant pm commands).
Proof. destruct pm; repeat split. Qed.

Lemma select_command_variant (kind subject : string) (pm : PackageManager)
    (data : ComponentDocResource) (commands : CommandSet) :
  first_commands data = Some commands ->
  JS.truthy (variant pm commands) = true ->
  select_command kind subject (Some (runtime_key pm)) data
  = createResponse (variant pm commands) false None.
Proof.
  intros Hc Ht. unfold select_command.
  destruct (runtime_key_valid pm) as (_ & _ & Hg & Hget).
  now rewrite Hc, Hg, Hget, Ht.
Qed.

(** X26. With one of the four runtimes, install-component and
    install-blocks answer with the command of that runtime in the first
    command set of the resource found; for a set derived from one
    command, that is the command with the prefix of the runtime. *)
Theorem X26_install_selects_runtime (pm : PackageManager) :
  (forall component w w' data commands,
      fetchAndCacheComponentData component w = (Ok data, w') ->
      first_commands data = Some commands ->
      JS.truthy (variant pm commands) = true ->
      installComponent component (Some (runtime_key pm)) w
      = (createResponse (variant pm commands) false None, w'))
  /\ (forall block w w' data commands,
        getBlockData block w = (Ok (inr data), w') ->
        first_commands data = Some commands ->
        JS.truthy (variant pm commands) = true ->
        installBlock block (Some (runtime_key pm)) w
        = (createResponse (variant pm commands) false None, w'))
  /\ (forall cliCommand,
        variant pm (commandSet cliCommand)
        = getCliCommand cliCommand (Some pm)).
Proof.
  destruct (runtime_key_valid pm) as (Hp & Hv & _ & _).
  split; [| split].
  - intros component w w' data commands H Hc Ht.
    unfold installComponent, handler.
    destruct (fetchAndCacheComponentData_resolves _ _ _ _ H) as [Hn _].
    unfold valid_name in Hn. apply andb_true_iff in Hn as [Hn _].
    rewrite Hn, Hp, Hv. cbn [negb andb]. unfold bind. rewrite H.
    unfold ret. now rewrite (select_command_variant _ _ pm data commands).
  - intros block w w' data commands H Hc Ht.
    unfold installBlock, handler. rewrite Hp, Hv. cbn [negb andb].
    unfold bind. rewrite H.
    unfold ret. now rewrite (select_command_variant _ _ pm data commands).
  - intros cliCommand. destruct pm; reflexivity.
Qed.

(** A lookup whose three attempts fail throws the failure of the third
    attempt under the key of the component. *)
Lemma fetchAndCacheComponentData_unreachable (component : string) (w : World)
    (e : string) :
  valid_name component = true ->
  resourceCache w !! component = None ->
  (forall i, i < 2 ->
             attempt_failure (attempt w (component_url component) i) <> None) ->
  attempt_failure (attempt w (component_url component) 2) = Some e ->
  fetchAndCacheComponentData component w
  = (Throw (fetch_failed component e),
     after w 3 (retry_events (component_url component))).
Proof.
  intros Hv Hc Hfail He.
  rewrite fetchAndCacheComponentData_cases, Hv, Hc. cbn [negb].
  unfold fetchWithRetry_default, fetchWithRetry.
  rewrite (fetchWithRetry_fuel_exhausted 2 _ (component_url component)
             RETRY_ATTEMPTS RETRY_DELAY_MS w e Hfail He);
    [reflexivity | reflexivity | apply Nat.leb_le; reflexivity].
Qed.

(** X27. A component that cannot be fetched: for a valid name that is not
    cached, when the first two attempts fail and the third is answered
    with a status that is not [ok], get-component-docs and
    install-component (with no runtime or a valid one) answer with an
    error whose text names the handler, the key and the status, after
    three fetches and the delays of 500 and 1000 ms; the failure is not
    cached. *)
Theorem X27_unreachable_component (component : string)
    (runtime : option string) (w : World) (response : Response) :
  valid_name component = true ->
  resourceCache w !! component = None ->
  (forall i, i < 2 ->
             attempt_failure (attempt w (component_url component) i) <> None) ->
  attempt w (component_url component) 2 = Resolved response ->
  ok response = false ->
  present runtime && negb (validateRuntime runtime) = false ->
  let reason :=
    "Failed to fetch and transform data for key '" +:+ component +:+ "': "
    +:+ "HTTP error " +:+ JS.Number_toString (status response) +:+ ": "
    +:+ statusText response in
  let w' := after w 3 (retry_events (component_url component)) in
  getComponentDocs component w
  = (createResponse ("Error fetching component documentation: " +:+ reason)
       true None, w')
  /\ installComponent component runtime w
     = (createResponse ("Error generating installation command: " +:+ reason)
          true None, w')
  /\ resourceCache w' !! component = None.
Proof.
  intros Hv Hc Hfail Hr Hok Hrt reason w'.
  assert (He : attempt_failure (attempt w (component_url component) 2)
               = Some ("HTTP error " +:+ JS.Number_toString (status response)
                       +:+ ": " +:+ statusText response)).
  { rewrite Hr. cbn [attempt_failure]. now rewrite Hok. }
  pose proof (fetchAndCacheComponentData_unreachable component w _ Hv Hc
                Hfail He) as H.
  pose proof Hv as Ht. unfold valid_name in Ht.
  apply andb_true_iff in Ht as [Ht _].
  split; [| split].
  - unfold getComponentDocs, handler. rewrite Ht. cbn [negb].
    unfold bind. rewrite H. reflexivity.
  - unfold installComponent, handler. rewrite Ht, Hrt. cbn [negb].
    unfold bind. rewrite H. reflexivity.
  - exact Hc.
Qed.
End Scrapers.

(** ** The statements on the sample worlds *)

Lemma C1_witness :
  fetchWithRetry_default sidebar_url (fresh net_up)
  = (Ok {| ok := true; status := 200; statusText := "OK";
           body := sidebar_html |},
     after (fresh net_up) 1 [EvFetch sidebar_url])
  /\ fetchWithRetry_default sidebar_url (fresh net_flaky)
     = (Ok {| ok := true; status := 200; statusText := "OK";
              body := sidebar_html |},
        after (fresh net_flaky) 3 (retry_events sidebar_url))
  /\ fetchWithRetry_default sidebar_url (fresh net_down)
     = (Throw "fetch failed",
        after (fresh net_down) 3 (retry_events sidebar_url)).
Proof.
  split; [| split].
  - apply (proj1 (C1_fetchWithRetry_default sidebar_url (fresh net_up)) 0);
      [lia | intros i Hi; lia | reflexivity | reflexivity].
  - apply (proj1 (proj2 (C1_fetchWithRetry_default sidebar_url
                           (fresh net_flaky)))
             "fetch failed" "fetch failed"); reflexivity.
  - apply (proj1 (proj2 (proj2 (C1_fetchWithRetry_default sidebar_url
                                  (fresh net_down)))
                   "fetch failed" "fetch failed" "fetch failed"
                   eq_refl eq_refl eq_refl)).
Defined.

Lemma C2_witness :
  JS.occurrences "npx" "npx shadcn@latest add button" = 1
  /\ getCliCommand "npx shadcn@latest add button" (Some npm)
     = "npx shadcn@latest add button"
  /\ getCliCommand "npx shadcn@latest add button" None
     = "npx shadcn@latest add button"
  /\ getCliCommand "npx shadcn@latest add button" (Some pnpm)
     = "pnpm dlx shadcn@latest add button"
  /\ getCliCommand "npx shadcn@latest add button" (Some yarn)
     = "yarn dlx shadcn@latest add button"
  /\ getCliCommand "npx shadcn@latest add button" (Some bun)
     = "bunx shadcn@latest add button".
Proof.
  split; [reflexivity |].
  apply (C2_getCliCommand_prefix " shadcn@latest add button"). reflexivity.
Defined.



(** C4. On the sample block page the scraper of helpers.ts skips the
    element whose id begins with [radix-], and returns the element
    [preview], which has neither a command nor a code sample, as a block
    whose command and code are empty; the aggregate then caches it with
    empty install commands. *)
Theorem C4_block_without_command_is_kept :
  fst (parseBlocksFromPage sample_load sidebar_url (fresh net_up))
  = Ok [ {| block_name := "sidebar-01";
            block_command := "npx shadcn@latest add sidebar-01";
            block_doc := "export default function Page() {}";
            block_description := Some "A simple sidebar" |};
         {| block_name := "preview"; block_command := EmptyString;
            block_doc := EmptyString;
            block_description := Some EmptyString |} ]
  /\ resourceCache (snd (fetchAndCacheBlocks sample_load (fresh net_up)))
       !! "preview"
     = Some {| name := "preview"; description := Some EmptyString;
               doc := Some EmptyString;
               commands := Some [commandSet EmptyString];
               links := None; isBlock := Some true |}
  /\ fst (installBlock sample_load "preview" None (fresh net_up))
     = {| text := "No installation command found for runtime 'undefined'";
          isError := true; mimeType := None |}.
Proof. repeat split; vm_compute; reflexivity. Qed.

Lemma C5_witness :
  exists components,
    parseComponentsFromHtml sample_load components_html (fresh net_up)
    = (Ok components,
       match components with
       | [] => emit no_components (fresh net_up)
       | _ :: _ => fresh net_up
       end)
    /\ Sorted code_unit_le components
    /\ Permutation components ["button"; "accordion"]
    /\ (["button"; "accordion"] = [] -> components = []).
Proof.
  apply (C5_parseComponentsFromHtml sample_load components_html
           (fresh net_up)).
  discriminate.
Defined.

(** The claim C5 as stated fails on the empty page, where the scraper
    throws, and on a page whose only matching anchor ends in a slash:
    its last segment is not returned. *)
Lemma C5_counterexample :
  fst (parseComponentsFromHtml sample_load EmptyString (fresh net_up))
  = Throw "Invalid HTML content"
  /\ omap component_name
       (List.filter is_component_anchor (all_elements (sample_load index_html)))
     = [EmptyString]
  /\ parseComponentsFromHtml sample_load index_html (fresh net_up)
     = (Ok [], emit no_components (fresh net_up)).
Proof. repeat split. Qed.



Lemma C7_witness :
  let w' := snd (fetchAndCacheComponentData "card" (fresh net_down)) in
  let v' := snd (getBlockData sample_load "sidebar-01" (fresh net_down)) in
  (resourceCache
     (snd (fetchAndCache "page" (fetchWithRetry_default sidebar_url)
             (fun _ => Throw "no transform") (fresh net_up)))
   = resourceCache (fresh net_up))
  /\ (resourceCache w' = resourceCache (fresh net_down)
      /\ (true = true ->
          resourceCache w' !! "card" = None
          /\ starts_fetch (component_url "card") (fresh net_down) w'
          /\ starts_fetch (component_url "card") w'
               (snd (fetchAndCacheComponentData "card" w'))))
  /\ (resourceCache (snd (fetchAndCacheBlocks sample_load (fresh net_half)))
      = resourceCache (fresh net_half))
  /\ (resourceCache v' = resourceCache (fresh net_down)
      /\ resourceCache v' !! "sidebar-01" = None
      /\ starts_fetch sidebar_url v'
           (snd (getBlockData sample_load "sidebar-01" v')))
  /\ (snd (fst (cacheResource "card" (fetchWithRetry_default sidebar_url)
                  (∅ : gmap string Response) (fresh net_down)))
      = ∅).
Proof.
  intros w' v'.
  destruct (C7_failure_leaves_cache sample_load) as (Hg & Hc & Ha & Hb & Hr).
  split; [| split; [| split; [| split]]].
  - apply (Hg Response "page" (fetchWithRetry_default sidebar_url)
              (fun _ => Throw "no transform") (fresh net_up) _
              (fetch_failed "page" "no transform")).
    + exact (fetches_first_net_only sidebar_url _
               (fetchWithRetry_default_first sidebar_url)).
    + apply throws_with. reflexivity.
  - apply (Hc "card" (fresh net_down) w'
              (fetch_failed "card" "fetch failed")).
    apply throws_with. reflexivity.
  - apply (Ha (fresh net_half) _
              (fetch_failed "blocks"
                 (page_failed authentication_url "fetch failed"))).
    apply throws_with. reflexivity.
  - apply (Hb "sidebar-01" (fresh net_down) v'
              (fetch_failed "blocks" (page_failed sidebar_url "fetch failed"))).
    apply throws_with. reflexivity.
  - apply (Hr Response "card" (fetchWithRetry_default sidebar_url) ∅ _
              (fresh net_down)
              (snd (cacheResource "card" (fetchWithRetry_default sidebar_url)
                      (∅ : gmap string Response) (fresh net_down)))
              ("Failed to fetch data for key 'card': fetch failed")).
    reflexivity.
Defined.




Lemma C10_witness :
  (installComponent "card" (Some EmptyString) (fresh net_up)
   = ({| text := "npx shadcn@latest add card"; isError := false;
         mimeType := None |},
      snd (fetchAndCacheComponentData "card" (fresh net_up)))
   /\ installComponent "card" None (fresh net_up)
      = ({| text := "npx shadcn@latest add card"; isError := false;
            mimeType := None |},
         snd (fetchAndCacheComponentData "card" (fresh net_up))))
  /\ (installBlock sample_load "sidebar-01" (Some EmptyString) (fresh net_up)
      = ({| text := "npx shadcn@latest add sidebar-01"; isError := false;
            mimeType := None |},
         snd (getBlockData sample_load "sidebar-01" (fresh net_up)))
      /\ installBlock sample_load "sidebar-01" None (fresh net_up)
         = ({| text := "npx shadcn@latest add sidebar-01"; isError := false;
               mimeType := None |},
            snd (getBlockData sample_load "sidebar-01" (fresh net_up))))
  /\ (installBlock sample_load "preview" (Some EmptyString) (fresh net_up)
      = ({| text := "No installation command found for runtime ''";
            isError := true; mimeType := None |},
         snd (getBlockData sample_load "preview" (fresh net_up)))
      /\ installBlock sample_load "preview" None (fresh net_up)
         = ({| text := "No installation command found for runtime "
                       +:+ "'undefined'";
               isError := true; mimeType := None |},
            snd (getBlockData sample_load "preview" (fresh net_up))))
  /\ installComponent "button" (Some EmptyString) (fresh net_button)
     = installComponent "button" None (fresh net_button)
  /\ installBlock sample_load "sidebar-99" (Some EmptyString) (fresh net_up)
     = installBlock sample_load "sidebar-99" None (fresh net_up).
Proof.
  destruct (C10_empty_runtime_is_npm sample_load)
    as (_ & _ & Hc & Hb & Hce & Hbe).
  split; [| split; [| split; [| split]]].
  - apply (Hc "card" (fresh net_up) _ (component_resource "card" card_mdx)
              (commandSet "npx shadcn@latest add card"));
      [apply returns_with; reflexivity | reflexivity | discriminate].
  - apply (Hb "sidebar-01" (fresh net_up) _ sidebar_01
              (commandSet "npx shadcn@latest add sidebar-01"));
      [apply returns_with; reflexivity | reflexivity | discriminate].
  - apply (Hb "preview" (fresh net_up) _ preview_block
              (commandSet EmptyString));
      [apply returns_with; reflexivity | reflexivity | reflexivity].
  - apply Hce. intros data w' H.
    apply (f_equal fst) in H. vm_compute in H. injection H as <-.
    reflexivity.
  - apply Hbe. intros data w' H.
    apply (f_equal fst) in H. vm_compute in H. discriminate.
Defined.

(** The claim C10 as stated fails for a block that was scraped without
    a command: its npm command is empty, install-blocks answers with an
    error for the empty runtime and for no runtime, and the two answers
    are not the same. *)
Lemma C10_counterexample :
  fst (installBlock sample_load "preview" (Some EmptyString) (fresh net_up))
  = {| text := "No installation command found for runtime ''";
       isError := true; mimeType := None |}
  /\ fst (installBlock sample_load "preview" None (fresh net_up))
     = {| text := "No installation command found for runtime 'undefined'";
          isError := true; mimeType := None |}
  /\ installBlock sample_load "preview" (Some EmptyString) (fresh net_up)
     <> installBlock sample_load "preview" None (fresh net_up).
Proof.
  split; [vm_compute; reflexivity |].
  split; [vm_compute; reflexivity |].
  intros H. apply (f_equal (fun p => text (fst p))) in H.
  vm_compute in H. discriminate.
Qed.

(** ** The further statements on the sample worlds *)

Lemma X1_witness :
  exists k,
    k <= Z.to_nat (5 - 1)
    /\ snd (fetchWithRetry sidebar_url 5 250 (fresh net_flaky))
       = after (fresh net_flaky) (S k)
           (backoff sidebar_url 250 k ++ [EvFetch sidebar_url])
    /\ (forall i, i < k ->
                  attempt_failure (attempt (fresh net_flaky) sidebar_url i)
                  <> None)
    /\ match fst (fetchWithRetry sidebar_url 5 250 (fresh net_flaky)) with
       | Ok r =>
           attempt (fresh net_flaky) sidebar_url k = Resolved r
           /\ ok r = true
       | Throw e =>
           k = Z.to_nat (5 - 1)
           /\ attempt_failure (attempt (fresh net_flaky) sidebar_url k)
              = Some e
       end.
Proof.
  apply (X1_fetchWithRetry_bounded sidebar_url 5 250 (fresh net_flaky)).
  split; vm_compute; discriminate.
Defined.

Lemma X2_witness :
  fetchWithRetry sidebar_url 0 500 (fresh net_down)
  = (Throw "fetch failed", after (fresh net_down) 1 [EvFetch sidebar_url]).
Proof.
  apply (X2_fetchWithRetry_single_attempt sidebar_url 0 500 (fresh net_down)).
  lia.
Defined.


Lemma X4_witness :
  getCliCommand "cd app && npx shadcn@latest add npx-button" (Some yarn)
  = "cd app && yarn dlx shadcn@latest add npx-button".
Proof.
  apply (X4_getCliCommand_leftmost "cd app && " " shadcn@latest add npx-button"
           yarn).
  reflexivity.
Defined.

Lemma X5_witness :
  getCliCommand "shadcn add button" (Some bun) = "shadcn add button"
  /\ commandSet "shadcn add button"
     = {| cs_npm := "shadcn add button"; cs_pnpm := "shadcn add button";
          cs_yarn := "shadcn add button"; cs_bun := "shadcn add button" |}.
Proof.
  apply (X5_getCliCommand_without_prefix "shadcn add button" (Some bun)).
  reflexivity.
Defined.

Lemma X6_witness :
  commands (component_resource "card" card_mdx)
  = Some [commandSet (JS.trim (ADD +:+ "card"))].
Proof.
  apply (X6_canonical_command "card" card_head "card" nl);
    [reflexivity | discriminate | reflexivity].
Defined.

Lemma X7_witness :
  length (extractLinks card_frontmatter) <= 2
  /\ extractLinks card_frontmatter = [].
Proof.
  destruct (X7_extractLinks_bounds card_frontmatter) as [Hl Hn].
  split; [exact Hl | apply Hn; reflexivity].
Defined.

Lemma X8_witness :
  extractLinks
    ("title: Dialog" +:+ nl +:+ "links:" +:+ nl
     +:+ "  doc: " +:+ doc_url +:+ nl
     +:+ "  api: " +:+ (api_url +:+ " ")
     +:+ (nl +:+ "component: true"))
  = [JS.trim doc_url; JS.trim (api_url +:+ " ")]
  /\ extractLinks
       ("links:" +:+ nl +:+ "  doc: " +:+ doc_url)
     = [JS.trim doc_url].
Proof.
  destruct X8_extractLinks_block as [Hboth Hdoc]. split.
  - apply (Hboth ("title: Dialog" +:+ nl) "  " " " doc_url "  " " "
                 (api_url +:+ " ") (nl +:+ "component: true"));
      try reflexivity; discriminate.
  - apply (Hdoc EmptyString "  " " " doc_url EmptyString);
      try reflexivity; discriminate.
Defined.

Lemma X9_witness :
  (description (component_resource "card" card_mdx)
   = Some (extractDescription card_frontmatter card_mdx)
   /\ links (component_resource "card" card_mdx)
      = match extractLinks card_frontmatter with [] => None | l => Some l end)
  /\ (description
        (component_resource "card" ("description: 'Not a field.'" +:+ nl))
      = Some match Re.String_match ("description: 'Not a field.'" +:+ nl)
                     FIRST_PARAGRAPH_REGEX with
             | Some m => JS.trim (Re.group_text m 1)
             | None => EmptyString
             end
      /\ links
           (component_resource "card" ("description: 'Not a field.'" +:+ nl))
         = None).
Proof.
  destruct (X9_fields_come_from_frontmatter "card") as [Hfm Hnone]. split.
  - apply (Hfm card_frontmatter
               (nl +:+ nl +:+ "A card." +:+ nl +:+ nl +:+ "```bash" +:+ nl
                +:+ "npx shadcn@latest add card" +:+ nl +:+ "```" +:+ nl)).
    reflexivity.
  - apply Hnone. reflexivity.
Defined.

Lemma X10_witness :
  trimmed (extractDescription card_frontmatter card_mdx)
  /\ Forall trimmed (extractLinks ("links:" +:+ nl +:+ "  doc: " +:+ doc_url))
  /\ Forall (fun b => trimmed (block_command b) /\ trimmed (block_doc b)
                      /\ exists d, block_description b = Some d /\ trimmed d)
       [ {| block_name := "sidebar-01";
            block_command := "npx shadcn@latest add sidebar-01";
            block_doc := "export default function Page() {}";
            block_description := Some "A simple sidebar" |};
         {| block_name := "preview"; block_command := EmptyString;
            block_doc := EmptyString;
            block_description := Some EmptyString |} ].
Proof.
  destruct (X10_extracted_fields_are_trimmed sample_load) as (Hd & Hl & Hb).
  split; [apply Hd | split; [apply Hl |]].
  apply (Hb sidebar_url (fresh net_up)
            (snd (parseBlocksFromPage sample_load sidebar_url (fresh net_up)))).
  apply returns_with. reflexivity.
Defined.

Lemma X11_witness :
  fetchAndCacheComponentData "../card" (fresh net_up)
  = (Throw "Invalid component name: ../card", fresh net_up)
  /\ fetchAndCacheComponentData EmptyString (fresh net_up)
     = (Throw "Invalid component name", fresh net_up).
Proof.
  split.
  - apply (X11_component_name_check "../card" (fresh net_up)). reflexivity.
  - apply (X11_component_name_check EmptyString (fresh net_up)). reflexivity.
Defined.

Lemma X12_witness :
  let w := snd (getBlockData sample_load "sidebar-01" (fresh net_up)) in
  let w' := snd (fetchAndCacheComponentData "button" w) in
  network w' = network w
  /\ (w' = w
      \/ exists k,
           k <= 2
           /\ fetches w' = S k + fetches w
           /\ events w'
              = events w ++ backoff (component_url "button") 500 k
                ++ [EvFetch (component_url "button")])
  /\ resourceCache w' !! "sidebar-01" = resourceCache w !! "sidebar-01".
Proof.
  intros w w'.
  destruct (X12_component_lookup_effects "button" w) as (Hn & He & Hc).
  split; [exact Hn | split; [exact He |]].
  apply Hc. discriminate.
Defined.

Lemma X13_witness :
  exists response,
    fst (fetchWithRetry_default (component_url "card") (fresh net_up))
    = Ok response
    /\ component_resource "card" card_mdx
       = component_resource "card" (body response)
    /\ name (component_resource "card" card_mdx) = "card"
    /\ doc (component_resource "card" card_mdx) = Some (body response)
    /\ isBlock (component_resource "card" card_mdx) = Some false
    /\ links (component_resource "card" card_mdx) <> Some []
    /\ (commands (component_resource "card" card_mdx) = None
        \/ exists c, JS.truthy c = true
                     /\ commands (component_resource "card" card_mdx)
                        = Some [commandSet c])
    /\ resourceCache (snd (fetchAndCacheComponentData "card" (fresh net_up)))
         !! "card"
       = Some (component_resource "card" card_mdx).
Proof.
  apply (X13_resolved_component "card" (fresh net_up)
           (snd (fetchAndCacheComponentData "card" (fresh net_up)))
           (component_resource "card" card_mdx)).
  - reflexivity.
  - apply returns_with. reflexivity.
Defined.

Lemma X14_witness :
  let cache' : gmap string Response := <["sidebar" := sidebar_page]> ∅ in
  cache' !! "sidebar" = Some sidebar_page
  /\ (forall k, k <> "sidebar" -> cache' !! k = (∅ : gmap string Response) !! k)
  /\ (forall (again : M Response) (v : World),
        cacheResource "sidebar" again cache' v
        = ((Ok sidebar_page, cache'), v)).
Proof.
  intros cache'.
  apply (X14_cacheResource_round_trip Response "sidebar"
           (fetchWithRetry_default sidebar_url) ∅ cache' (fresh net_up)
           (after (fresh net_up) 1 [EvFetch sidebar_url]) sidebar_page).
  reflexivity.
Defined.

Lemma X15_witness :
  exists l,
    fst (fetchAndCacheBlocks sample_load (fresh net_up)) = Ok l
    /\ map name l = ["sidebar-01"; "preview"; "card"]
    /\ Forall (fun r => isBlock r = Some true /\ links r = None) l
    /\ (forall n,
          resourceCache (snd (fetchAndCacheBlocks sample_load (fresh net_up)))
            !! n
          = match last_named n l with
            | Some r => Some r
            | None => resourceCache (fresh net_up) !! n
            end).
Proof.
  destruct (fetchAndCacheBlocks sample_load (fresh net_up)) as [[l | e] w']
    eqn:E; [| vm_compute in E; discriminate].
  exists l. split; [reflexivity |].
  destruct (X15_aggregate_fills_cache sample_load (fresh net_up) w' l E)
    as (_ & Hb & Hc).
  split; [| split; [exact Hb | exact Hc]].
  apply (f_equal fst) in E. vm_compute in E. injection E as <-. reflexivity.
Defined.

Lemma X16_witness :
  exists l w1,
    fetchAndCacheBlocks sample_load (fresh net_up) = (Ok l, w1)
    /\ getBlockData sample_load "sidebar-01" (fresh net_up)
       = (Ok match last_named "sidebar-01" l with
             | Some r => inr r
             | None => inl (block_not_found "sidebar-01")
             end, w1)
    /\ getBlockData sample_load "sidebar-99" (fresh net_up)
       = (Ok match last_named "sidebar-99" l with
             | Some r => inr r
             | None => inl (block_not_found "sidebar-99")
             end, w1).
Proof.
  destruct (fetchAndCacheBlocks sample_load (fresh net_up)) as [[l | e] w1]
    eqn:E; [| vm_compute in E; discriminate].
  exists l, w1. split; [reflexivity |]. split.
  - apply (X16_block_lookup_after_aggregate sample_load "sidebar-01"
             (fresh net_up) w1 l); [reflexivity | reflexivity | exact E].
  - apply (X16_block_lookup_after_aggregate sample_load "sidebar-99"
             (fresh net_up) w1 l); [reflexivity | reflexivity | exact E].
Defined.

Lemma X17_witness :
  parseBlocksFromPage sample_load "http://ui.shadcn.com/blocks/sidebar"
    (fresh net_up)
  = (Throw "Invalid URL: http://ui.shadcn.com/blocks/sidebar", fresh net_up)
  /\ parseBlocksFromPage sample_load sidebar_url (fresh net_down)
     = (Throw (page_failed sidebar_url "fetch failed"),
        after (fresh net_down) 3 (retry_events sidebar_url))
  /\ parseBlocksFromPage sample_load sidebar_url (fresh net_blank)
     = (Ok [],
        emit (no_blocks sidebar_url)
          (after (fresh net_blank) 1 [EvFetch sidebar_url])).
Proof.
  split; [| split].
  - apply (proj1 (X17_parseBlocksFromPage_edges sample_load
                    "http://ui.shadcn.com/blocks/sidebar" (fresh net_up))).
    reflexivity.
  - apply (proj1 (proj2 (X17_parseBlocksFromPage_edges sample_load
                           sidebar_url (fresh net_down)))).
    + reflexivity.
    + reflexivity.
  - apply (proj2 (proj2 (X17_parseBlocksFromPage_edges sample_load
                           sidebar_url (fresh net_blank)))
             eq_refl
             {| ok := true; status := 200; statusText := "OK";
                body := EmptyString |}).
    + reflexivity.
    + reflexivity.
Defined.

Lemma X18_witness :
  exists blocks response,
    fst (parseBlocksFromPage sample_load sidebar_url (fresh net_up))
    = Ok blocks
    /\ fst (fetchWithRetry_default sidebar_url (fresh net_up)) = Ok response
    /\ map block_name blocks
       = List.filter block_id
           (omap (fun el => Dom.node_attr el "id")
              (Dom.select (sample_load (body response)) BLOCK_ELEMENTS))
    /\ map block_name blocks = ["sidebar-01"; "preview"].
Proof.
  destruct (parseBlocksFromPage sample_load sidebar_url (fresh net_up))
    as [[blocks | e] w'] eqn:E; [| vm_compute in E; discriminate].
  destruct (X18_block_names sample_load sidebar_url (fresh net_up) w' blocks E)
    as (response & Hr & Hn & _).
  exists blocks, response. split; [reflexivity |].
  split; [exact Hr | split; [exact Hn |]].
  apply (f_equal fst) in E. vm_compute in E. injection E as <-. reflexivity.
Defined.

Lemma X19_witness :
  Forall (fun n => JS.truthy n = true /\ all_units not_slash n = true)
    ["accordion"; "button"].
Proof.
  apply (X19_component_names_are_segments sample_load components_html
           (fresh net_up) (fresh net_up)).
  reflexivity.
Defined.

Lemma X20_witness :
  snd (legacy_parseBlocksFromPage sample_load sidebar_url (fresh net_down))
  = after (fresh net_down) 1 [EvFetch sidebar_url]
  /\ fst (legacy_parseBlocksFromPage sample_load sidebar_url (fresh net_down))
     = Throw "fetch failed"
  /\ exists blocks,
       fst (legacy_parseBlocksFromPage sample_load sidebar_url (fresh net_up))
       = Ok blocks
       /\ Forall (fun b => JS.truthy (legacy_name b) = true
                           /\ JS.truthy (legacy_command b) = true
                           /\ JS.truthy (legacy_code b) = true)
            blocks.
Proof.
  destruct (X20_legacy_parseBlocksFromPage sample_load sidebar_url
              (fresh net_down)) as (Hs & Ht & _).
  destruct (X20_legacy_parseBlocksFromPage sample_load sidebar_url
              (fresh net_up)) as (_ & _ & Hr).
  split; [exact Hs | split].
  - apply Ht. reflexivity.
  - apply (Hr sidebar_page). reflexivity.
Defined.

Lemma X21_witness :
  fst (parseComponentsFromHtml sample_load components_html (fresh net_up))
  = Ok (legacy_parseComponentsFromHtml sample_load components_html)
  /\ resourceCache
       (snd (parseComponentsFromHtml sample_load components_html
               (fresh net_up)))
     = resourceCache (fresh net_up)
  /\ fetches
       (snd (parseComponentsFromHtml sample_load components_html
               (fresh net_up)))
     = fetches (fresh net_up).
Proof.
  apply (X21_component_scrapers_agree sample_load components_html
           (fresh net_up)).
  discriminate.
Defined.

Lemma X22_witness :
  getComponentDocs EmptyString (fresh net_up)
  = (createResponse "Component name is required" true None, fresh net_up)
  /\ getComponentDocs "card" (fresh net_up)
     = ({| text := card_mdx; isError := false;
           mimeType := Some "text/markdown" |},
        snd (fetchAndCacheComponentData "card" (fresh net_up)))
  /\ fst (getComponentDocs "card" (fresh net_blank))
     = createResponse "No documentation found for component 'card'" true None
  /\ (getComponentDocs "card" (fresh net_down)
      = (handleError (fetch_failed "card" "fetch failed")
           "Error fetching component documentation",
         snd (fetchAndCacheComponentData "card" (fresh net_down)))
      /\ resourceCache (snd (fetchAndCacheComponentData "card" (fresh net_down)))
         = resourceCache (fresh net_down)).
Proof.
  split; [| split; [| split]].
  - apply (proj1 (X22_getComponentDocs EmptyString (fresh net_up))).
    reflexivity.
  - apply (proj1 (proj2 (X22_getComponentDocs "card" (fresh net_up)))
             (component_resource "card" card_mdx)).
    + apply returns_with. reflexivity.
    + reflexivity.
    + intros H. vm_compute in H. discriminate.
  - apply (proj1 (proj2 (proj2 (X22_getComponentDocs "card"
                                  (fresh net_blank))))
             blank_page
             (after (fresh net_blank) 1 [EvFetch (component_url "card")]));
      reflexivity.
  - apply (proj2 (proj2 (proj2 (X22_getComponentDocs "card"
                                  (fresh net_down))))).
    + discriminate.
    + apply throws_with. reflexivity.
Defined.

Lemma X23_witness :
  listComponents sample_load (fresh net_down)
  = (handleError "fetch failed" "Error fetching components list",
     after (fresh net_down) 3 (retry_events components_url))
  /\ fst (listComponents sample_load (fresh net_site))
     = createResponse
         (Json.stringify
            (Json.strings
               (legacy_parseComponentsFromHtml sample_load components_html)))
         false None
  /\ fst (listComponents sample_load (fresh net_blank))
     = handleError "Invalid HTML content" "Error fetching components list".
Proof.
  split; [| split].
  - apply (proj1 (proj2 (proj2 (X23_listComponents sample_load
                                  (fresh net_down))))).
    reflexivity.
  - apply (proj2 (proj2 (proj2 (X23_listComponents sample_load
                                  (fresh net_site))))
             components_page
             (after (fresh net_site) 1 [EvFetch components_url])).
    reflexivity.
  - apply (proj2 (proj2 (proj2 (X23_listComponents sample_load
                                  (fresh net_blank))))
             blank_page
             (after (fresh net_blank) 1 [EvFetch components_url])).
    reflexivity.
Defined.

Lemma X24_witness :
  let w := snd (fetchAndCacheComponentData "card" (fresh net_up)) in
  is_Some (resourceCache (snd (listBlocks sample_load w)) !! "card")
  /\ fst (listBlocks sample_load (fresh net_up))
     = createResponse
         (Json.stringify (Json.strings ["sidebar-01"; "preview"; "card"]))
         false None
  /\ (listBlocks sample_load (fresh net_half)
      = (handleError
           (fetch_failed "blocks"
              (page_failed authentication_url "fetch failed"))
           "Error fetching blocks",
         snd (fetchAndCacheBlocks sample_load (fresh net_half)))
      /\ resourceCache (snd (fetchAndCacheBlocks sample_load (fresh net_half)))
         = resourceCache (fresh net_half)).
Proof.
  intros w. split; [| split].
  - apply (proj1 (proj2 (X24_listBlocks sample_load w)) "card").
    exists (component_resource "card" card_mdx). reflexivity.
  - destruct (fetchAndCacheBlocks sample_load (fresh net_up)) as [[l | e] w1]
      eqn:E; [| vm_compute in E; discriminate].
    rewrite (proj1 (proj2 (proj2 (X24_listBlocks sample_load (fresh net_up))))
               l w1 E).
    apply (f_equal fst) in E. vm_compute in E. injection E as <-.
    reflexivity.
  - apply (proj2 (proj2 (proj2 (X24_listBlocks sample_load
                                  (fresh net_half))))).
    apply throws_with. reflexivity.
Defined.

Lemma X25_witness :
  let w := snd (getBlockData sample_load "sidebar-01" (fresh net_up)) in
  installBlock sample_load EmptyString None (fresh net_up)
  = (createResponse "Block name is required" true None, fresh net_up)
  /\ getBlockDocs sample_load "sidebar-01" w
     = (createResponse (Json.stringify (Json.of_resource sidebar_01)) false
          (Some "application/json"), w)
  /\ getBlockDocs sample_load "preview" w
     = (createResponse "No documentation found for block 'preview'" true None,
        w).
Proof.
  intros w. split; [| split].
  - apply (proj1 (proj2 (X25_block_handlers_edges sample_load
                           (fresh net_up)))).
    reflexivity.
  - apply (proj2 (proj2 (X25_block_handlers_edges sample_load w))
             "sidebar-01" sidebar_01); [discriminate | reflexivity].
  - apply (proj2 (proj2 (X25_block_handlers_edges sample_load w))
             "preview"
             {| name := "preview"; description := Some EmptyString;
                doc := Some EmptyString;
                commands := Some [commandSet EmptyString];
                links := None; isBlock := Some true |});
      [discriminate | reflexivity].
Defined.

Lemma X26_witness :
  installComponent "card" (Some "pnpm") (fresh net_up)
  = (createResponse "pnpm dlx shadcn@latest add card" false None,
     snd (fetchAndCacheComponentData "card" (fresh net_up)))
  /\ installBlock sample_load "sidebar-01" (Some "bun") (fresh net_up)
     = (createResponse "bunx shadcn@latest add sidebar-01" false None,
        snd (getBlockData sample_load "sidebar-01" (fresh net_up))).
Proof.
  split.
  - apply (proj1 (X26_install_selects_runtime sample_load pnpm) "card"
             (fresh net_up) _ (component_resource "card" card_mdx)
             (commandSet "npx shadcn@latest add card"));
      [apply returns_with | |]; reflexivity.
  - apply (proj1 (proj2 (X26_install_selects_runtime sample_load bun))
             "sidebar-01" (fresh net_up) _ sidebar_01
             (commandSet "npx shadcn@latest add sidebar-01"));
      [apply returns_with | |]; reflexivity.
Defined.

Lemma X27_witness :
  let reason :=
    "Failed to fetch and transform data for key 'button': "
    +:+ "HTTP error 404: Not Found" in
  let w' := after (fresh net_up) 3 (retry_events (component_url "button")) in
  getComponentDocs "button" (fresh net_up)
  = (createResponse ("Error fetching component documentation: " +:+ reason)
       true None, w')
  /\ installComponent "button" (Some "yarn") (fresh net_up)
     = (createResponse ("Error generating installation command: " +:+ reason)
          true None, w')
  /\ resourceCache w' !! "button" = None.
Proof.
  apply (X27_unreachable_component "button" (Some "yarn") (fresh net_up)
           {| ok := false; status := 404; statusText := "Not Found";
              body := EmptyString |});
    try reflexivity.
  intros i Hi. destruct i as [| [| i]]; [discriminate | discriminate | lia].
Defined.
